(** * Research agent: ingestion, reconciliation and retrieval pipeline

    A shallow embedding of the storage layer ([storage/db.py]), the
    embedding-document builder ([processors/preprocess.py]), the vector
    store wrapper ([vector_store/vector_store.py]), the market validator
    ([processors/validator.py]) and the batch driver ([cli.py]).

    SQLite tables are lists of rows in rowid order, Python dictionaries
    read through [.get] are records of optional fields, exceptions are an
    explicit result type, the wall clock is an argument, and a Python
    [float] is a binary64 number with the operations of [SpecFloat]. *)

From Stdlib Require Import ZArith QArith Qpower List String Ascii Bool Lia.
From Stdlib Require Import Sorted Permutation SpecFloat.
Import ListNotations.

Local Open Scope string_scope.
Local Open Scope Z_scope.

(* ================================================================== *)
(** ** Python values and exceptions *)
(* ================================================================== *)

Module Py.

(** The exceptions the modelled code raises. *)
Inductive exn : Type :=
| ValueError (msg : string).

Inductive result (A : Type) : Type :=
| Ok (a : A)
| Raise (e : exn).
Arguments Ok {A} a.
Arguments Raise {A} e.

(** Truth value of [str | None]: [None] and [''] are falsy. *)
Definition truthy (o : option string) : bool :=
  match o with
  | Some s => negb (String.eqb s "")
  | None => false
  end.

(** [a or b] on [str | None]. *)
Definition or_ (a b : option string) : option string :=
  if truthy a then a else b.

(** [int(x or 0)] on [int | None]. *)
Definition int_or_0 (o : option Z) : Z :=
  match o with
  | Some n => if n =? 0 then 0 else n
  | None => 0
  end.

End Py.

(* ================================================================== *)
(** ** storage/db.py *)
(* ================================================================== *)

Module Db.
Import Py.

(** An incoming article dictionary, as seen through [article.get(key)]:
    the scrapers put strings under the text keys and integers under
    [points] and [comments_count]; [None] stands for a missing key or a
    [None] value, which [.get] does not tell apart. *)
Record Article : Type := {
  url : option string;
  arxiv_url : option string;
  hn_url : option string;
  title : option string;
  source : option string;
  author : option string;
  created_at : option string;
  published_date : option string;
  points : option Z;
  comments_count : option Z;
  description : option string;
  abstract : option string;
  category : option string;
  arxiv_id : option string
}.

(** A row of table [articles]; [None] is SQL NULL. *)
Record ArticleRow : Type := {
  r_id : Z;
  r_url : option string;
  r_title : option string;
  r_source : option string;
  r_author : option string;
  r_created_at : option string;
  r_published_date : option string;
  r_points : option Z;
  r_comments_count : option Z;
  r_description : option string;
  r_abstract : option string;
  r_category : option string;
  r_arxiv_id : option string;
  r_hn_url : option string;
  r_topic : option string;
  r_inserted_at : option string;
  r_updated_at : option string
}.

(** A row of table [crawled_content]. *)
Record ContentRow : Type := {
  c_id : Z;
  c_article_id : Z;
  c_url : option string;
  c_markdown_content : option string;
  c_word_count : option Z;
  c_crawled_at : option string;
  c_updated_at : option string
}.

(** The database file: both tables in rowid order, and the
    [sqlite_sequence] counters behind the AUTOINCREMENT keys. *)
Record Database : Type := {
  articles : list ArticleRow;
  articles_seq : Z;
  crawled_content : list ContentRow;
  crawled_content_seq : Z
}.

Definition empty : Database :=
  {| articles := []; articles_seq := 0;
     crawled_content := []; crawled_content_seq := 0 |}.

(** SQL [COALESCE(x, y)]. *)
Definition COALESCE {A} (x y : option A) : option A :=
  match x with
  | Some _ => x
  | None => y
  end.

(** SQL [col = ?] on a TEXT column: NULL never compares equal. *)
Definition text_eq (col : option string) (v : string) : bool :=
  match col with
  | Some s => String.eqb s v
  | None => false
  end.

(** The key an AUTOINCREMENT table hands out next: one more than the
    largest key ever used. *)
Definition next_rowid (ids : list Z) (seq : Z) : Z :=
  1 + fold_right Z.max seq ids.

(** [article.get('url') or article.get('arxiv_url') or
    article.get('hn_url')] *)
Definition canonical_url (article : Article) : option string :=
  or_ (or_ (url article) (arxiv_url article)) (hn_url article).

(** [SELECT id FROM articles WHERE url = ?] followed by [fetchone()]. *)
Definition select_id_by_url (u : string) (db : Database) : option Z :=
  option_map r_id (find (fun r => text_eq (r_url r) u) (articles db)).

(** The [UPDATE articles SET ... WHERE id = ?] statement applied to one
    matching row. *)
Definition update_row (now : string) (article : Article)
    (topic : option string) (r : ArticleRow) : ArticleRow :=
  {| r_id := r_id r;
     r_url := r_url r;
     r_title := COALESCE (title article) (r_title r);
     r_source := COALESCE (source article) (r_source r);
     r_author := COALESCE (author article) (r_author r);
     r_created_at := COALESCE (created_at article) (r_created_at r);
     r_published_date :=
       COALESCE (published_date article) (r_published_date r);
     r_points := COALESCE (points article) (r_points r);
     r_comments_count :=
       COALESCE (comments_count article) (r_comments_count r);
     r_description := COALESCE (description article) (r_description r);
     r_abstract := COALESCE (abstract article) (r_abstract r);
     r_category := COALESCE (category article) (r_category r);
     r_arxiv_id := COALESCE (arxiv_id article) (r_arxiv_id r);
     r_hn_url := COALESCE (hn_url article) (r_hn_url r);
     r_topic := COALESCE topic (r_topic r);
     r_inserted_at := r_inserted_at r;
     r_updated_at := Some now |}.

(** The row the [INSERT INTO articles] statement creates. *)
Definition insert_row (now : string) (new_id : Z) (u : string)
    (article : Article) (topic : option string) : ArticleRow :=
  {| r_id := new_id;
     r_url := Some u;
     r_title := title article;
     r_source := source article;
     r_author := author article;
     r_created_at := created_at article;
     r_published_date := published_date article;
     r_points := Some (int_or_0 (points article));
     r_comments_count := Some (int_or_0 (comments_count article));
     r_description := description article;
     r_abstract := abstract article;
     r_category := category article;
     r_arxiv_id := arxiv_id article;
     r_hn_url := hn_url article;
     r_topic := topic;
     r_inserted_at := Some now;
     r_updated_at := Some now |}.

Definition set_articles (rows : list ArticleRow) (seq : Z)
    (db : Database) : Database :=
  {| articles := rows; articles_seq := seq;
     crawled_content := crawled_content db;
     crawled_content_seq := crawled_content_seq db |}.

(** [DatabaseManager.upsert_article]; [now] is
    [datetime.utcnow().isoformat()]. The exception is raised before the
    connection is opened, so a failed call leaves the file as it was. *)
Definition upsert_article (now : string) (article : Article)
    (topic : option string) (db : Database) : result (Z * Database) :=
  let u := canonical_url article in
  if negb (truthy u) then Raise (ValueError "Article missing canonical URL")
  else
    match u with
    | None => Raise (ValueError "Article missing canonical URL")
    | Some u =>
        match select_id_by_url u db with
        | Some article_id =>
            let rows :=
              map (fun r => if r_id r =? article_id
                            then update_row now article topic r else r)
                  (articles db) in
            Ok (article_id, set_articles rows (articles_seq db) db)
        | None =>
            let article_id :=
              next_rowid (map r_id (articles db)) (articles_seq db) in
            let row := insert_row now article_id u article topic in
            Ok (article_id,
                set_articles (articles db ++ [row]) article_id db)
        end
    end.

(** [int(word_count or 0)] and [crawled_at or now] are Python-side; the
    UPDATE overwrites [url], [markdown_content] and [word_count] and
    coalesces [crawled_at] only. *)
Definition update_content (now : string) (u markdown : option string)
    (word_count : option Z) (crawled_at : option string)
    (c : ContentRow) : ContentRow :=
  {| c_id := c_id c;
     c_article_id := c_article_id c;
     c_url := u;
     c_markdown_content := markdown;
     c_word_count := Some (int_or_0 word_count);
     c_crawled_at := COALESCE crawled_at (c_crawled_at c);
     c_updated_at := Some now |}.

Definition insert_content (now : string) (new_id article_id : Z)
    (u markdown : option string) (word_count : option Z)
    (crawled_at : option string) : ContentRow :=
  {| c_id := new_id;
     c_article_id := article_id;
     c_url := u;
     c_markdown_content := markdown;
     c_word_count := Some (int_or_0 word_count);
     c_crawled_at := or_ crawled_at (Some now);
     c_updated_at := Some now |}.

Definition set_crawled_content (rows : list ContentRow) (seq : Z)
    (db : Database) : Database :=
  {| articles := articles db; articles_seq := articles_seq db;
     crawled_content := rows; crawled_content_seq := seq |}.

(** [DatabaseManager.upsert_crawled_content]. Foreign keys are not
    switched on for the connection, so the owning article is not looked
    up. *)
Definition upsert_crawled_content (now : string) (article_id : Z)
    (u markdown : option string) (word_count : option Z)
    (crawled_at : option string) (db : Database) : Database :=
  match find (fun c => c_article_id c =? article_id) (crawled_content db) with
  | Some _ =>
      set_crawled_content
        (map (fun c => if c_article_id c =? article_id
                       then update_content now u markdown word_count
                              crawled_at c
                       else c)
             (crawled_content db))
        (crawled_content_seq db) db
  | None =>
      let new_id :=
        next_rowid (map c_id (crawled_content db)) (crawled_content_seq db) in
      set_crawled_content
        (crawled_content db ++
           [insert_content now new_id article_id u markdown word_count
              crawled_at])
        new_id db
  end.

(** A row of the [fetch_articles_for_embedding] result set. *)
Record EmbeddingRow : Type := {
  e_url : option string;
  e_title : option string;
  e_source : option string;
  e_description : option string;
  e_abstract : option string;
  e_markdown_content : string
}.

(** A row of the join: an article with its content row, if any. *)
Definition Joined : Type := (ArticleRow * option ContentRow)%type.

(** [articles a LEFT JOIN crawled_content cc ON cc.article_id = a.id]:
    every article once per matching content row, and once with the
    content columns NULL when there is none. *)
Definition left_join (db : Database)
    : list Joined :=
  flat_map
    (fun a =>
       match filter (fun c => c_article_id c =? r_id a) (crawled_content db)
       with
       | [] => [(a, None)]
       | cs => map (fun c => (a, Some c)) cs
       end)
    (articles db).

(** The SELECT list, with [COALESCE(cc.markdown_content, '')]. *)
Definition select_embedding_columns
    (j : Joined) : EmbeddingRow :=
  let (a, cc) := j in
  {| e_url := r_url a;
     e_title := r_title a;
     e_source := r_source a;
     e_description := r_description a;
     e_abstract := r_abstract a;
     e_markdown_content :=
       match COALESCE (match cc with
                       | Some c => c_markdown_content c
                       | None => None
                       end) (Some "") with
       | Some s => s
       | None => ""
       end |}.

(** SQLite's order on a TEXT column that may hold NULL: NULL sorts below
    every string, strings compare bytewise. *)
Definition text_le (x y : option string) : bool :=
  match x, y with
  | None, _ => true
  | Some _, None => false
  | Some a, Some b => String.leb a b
  end.

(** [ORDER BY a.published_date DESC]: the left row may come before the
    right one. *)
Definition published_desc (j1 j2 : Joined) : bool :=
  text_le (r_published_date (fst j2)) (r_published_date (fst j1)).

(** What the statement asks of the engine's sorter: the rows it was given,
    in an order that is descending in [published_date]. The statement
    names no further sort key. *)
Definition orders_by_published_desc
    (order_by : list Joined ->
                list Joined) : Prop :=
  forall l,
    Permutation l (order_by l) /\
    StronglySorted (fun j1 j2 => published_desc j1 j2 = true) (order_by l).

(** [DatabaseManager.fetch_articles_for_embedding], over the sorter the
    engine runs for the ORDER BY clause. *)
Definition fetch_articles_for_embedding
    (order_by : list Joined ->
                list Joined)
    (db : Database) : list EmbeddingRow :=
  map select_embedding_columns (order_by (left_join db)).

(** Two sorters an engine may run. [insert_desc] keeps a row behind the
    rows of equal date already placed. *)
Fixpoint insert_desc (j : Joined)
    (l : list Joined) :=
  match l with
  | [] => [j]
  | k :: l' => if published_desc k j then k :: insert_desc j l' else j :: l
  end.

(** Table scan in rowid order feeding a sorter: equal dates stay in
    insertion order. *)
Definition sort_scan (l : list Joined) :=
  fold_left (fun acc j => insert_desc j acc) l [].

(** Backward walk of [idx_articles_published], whose entries are
    (published_date, rowid): equal dates come out by rowid descending. *)
Definition sort_index_backward (l : list Joined) :=
  sort_scan (rev l).

(** The dictionary [aggregate_signals] returns. *)
Record Signals : Type := {
  s_articles : Z;
  s_hn_points : Z;
  s_hn_comments : Z;
  s_crawled_count : Z
}.

(** The WHERE clause built from the two optional filters; [iso_cutoff] is
    the ISO string of now minus [days] days. An empty topic adds no
    clause. *)
Definition where_sql (iso_cutoff : Z -> string) (topic : option string)
    (days : option Z) (r : ArticleRow) : bool :=
  (match topic with
   | Some t => if truthy topic then text_eq (r_topic r) t else true
   | None => true
   end)
  &&
  (match days with
   | Some d =>
       match COALESCE (r_published_date r) (r_created_at r) with
       | Some s => String.leb (iso_cutoff d) s
       | None => false
       end
   | None => true
   end).

(** SQL [SUM(col)]: NULLs are skipped, and the sum of no value is NULL. *)
Definition SUM (col : list (option Z)) : option Z :=
  fold_left (fun acc v =>
               match v with
               | Some n => Some (match acc with Some m => m + n | None => n end)
               | None => acc
               end) col None.

(** [DatabaseManager.aggregate_signals]. *)
Definition aggregate_signals (iso_cutoff : Z -> string)
    (topic : option string) (days : option Z) (db : Database) : Signals :=
  let rows := filter (where_sql iso_cutoff topic days) (articles db) in
  let total := Z.of_nat (List.length rows) in
  let total_points := int_or_0 (SUM (map r_points rows)) in
  let total_comments := int_or_0 (SUM (map r_comments_count rows)) in
  let crawled := Z.of_nat (List.length (crawled_content db)) in
  {| s_articles := total;
     s_hn_points := total_points;
     s_hn_comments := total_comments;
     s_crawled_count := crawled |}.

End Db.

(* ================================================================== *)
(** ** processors/preprocess.py *)
(* ================================================================== *)

Module Preprocess.

(** Python [str] methods, on strings whose characters are the code points
    below 256. *)

(** [str.isspace] for one character: TAB..CR, FS..US, SPACE, NEL, NBSP. *)
Definition is_space (c : ascii) : bool :=
  let n := N_of_ascii c in
  ((9 <=? n) && (n <=? 13) || (28 <=? n) && (n <=? 32)
   || (n =? 133) || (n =? 160))%N.

Fixpoint lstrip (s : string) : string :=
  match s with
  | String c s' => if is_space c then lstrip s' else s
  | EmptyString => EmptyString
  end.

(** Drops trailing whitespace: the result is empty when everything from
    here on is whitespace. *)
Fixpoint rstrip (s : string) : string :=
  match s with
  | String c s' =>
      match rstrip s' with
      | EmptyString => if is_space c then EmptyString
                       else String c EmptyString
      | t => String c t
      end
  | EmptyString => EmptyString
  end.

(** [str.strip()] *)
Definition strip (s : string) : string := rstrip (lstrip s).

(** [str.lower] for one character: A..Z and the Latin-1 capitals. *)
Definition lower_char (c : ascii) : ascii :=
  let n := N_of_ascii c in
  if ((65 <=? n) && (n <=? 90)
      || (192 <=? n) && (n <=? 222) && negb (n =? 215))%N
  then ascii_of_N (n + 32) else c.

Fixpoint lower (s : string) : string :=
  match s with
  | String c s' => String (lower_char c) (lower s')
  | EmptyString => EmptyString
  end.

Definition LF : string := String (ascii_of_nat 10) EmptyString.

(** [sep.join(parts)] *)
Definition join (sep : string) (parts : list string) : string :=
  String.concat sep parts.

(** [x or ''] on [str | None] *)
Definition or_empty (o : option string) : string :=
  match o with
  | Some s => s
  | None => ""
  end.

(** Python truth value of a [str]. *)
Definition nonempty (s : string) : bool := negb (String.eqb s "").

(** [build_document_for_embedding]: [parts] grows by [append] as the
    function goes through its three tests. *)
Definition build_document_for_embedding
    (title summary full_content : option string) : string :=
  let parts : list string := [] in
  let title := strip (or_empty title) in
  let parts := if nonempty title
               then (parts ++ [("Title: " ++ title)%string])%list
               else parts in
  let summary := strip (or_empty summary) in
  let parts :=
    if nonempty summary && negb (String.eqb (lower summary) "unknown")
    then (parts ++ [("Summary: " ++ summary)%string])%list else parts in
  let content := strip (or_empty full_content) in
  let parts := if nonempty content
               then (parts ++ [(("Content:" ++ LF) ++ content)%string])%list
               else parts in
  join (LF ++ LF) parts.

(** What the design document calls the trimmed value: [t] is [s] with
    the whitespace at its two ends taken off. *)
Fixpoint blank (s : string) : bool :=
  match s with
  | String c s' => is_space c && blank s'
  | EmptyString => true
  end.

Definition starts_with_space (s : string) : bool :=
  match s with
  | String c _ => is_space c
  | EmptyString => false
  end.

Fixpoint ends_with_space (s : string) : bool :=
  match s with
  | String c EmptyString => is_space c
  | String _ s' => ends_with_space s'
  | EmptyString => false
  end.

Definition tight (s : string) : bool :=
  negb (starts_with_space s) && negb (ends_with_space s).

Definition trimmed (s t : string) : Prop :=
  tight t = true /\
  exists l r, blank l = true /\ blank r = true /\ s = l ++ t ++ r.

(** The builder as the design document words it: three labelled sections
    in the fixed order, each present only when its trimmed value
    qualifies. *)
Definition title_section (trimmed_title : string) : option string :=
  if String.eqb trimmed_title "" then None
  else Some ("Title: " ++ trimmed_title).

Definition summary_section (trimmed_summary : string) : option string :=
  if String.eqb trimmed_summary "" then None
  else if String.eqb (lower trimmed_summary) "unknown" then None
  else Some ("Summary: " ++ trimmed_summary).

Definition content_section (trimmed_content : string) : option string :=
  if String.eqb trimmed_content "" then None
  else Some ("Content:" ++ LF ++ trimmed_content).

Definition qualifying_sections
    (trimmed_title trimmed_summary trimmed_content : string)
    : list string :=
  let present (o : option string) :=
    match o with Some s => [s] | None => [] end in
  (present (title_section trimmed_title)
     ++ present (summary_section trimmed_summary)
     ++ present (content_section trimmed_content))%list.

(** Sections separated by one blank line. *)
Fixpoint blank_line_joined (sections : list string) : string :=
  match sections with
  | [] => ""
  | [s] => s
  | s :: rest => s ++ LF ++ LF ++ blank_line_joined rest
  end.

End Preprocess.

(* ================================================================== *)
(** ** vector_store/vector_store.py *)
(* ================================================================== *)

Module VectorStore.

(** The metadata projection stored with every document. *)
Record Metadata : Type := {
  m_url : option string;
  m_title : string;
  m_source : string
}.

Section Collection.

(** The sentence-transformer model: [encode] maps one text to its
    embedding; batches are encoded text by text, in order. The cosine
    distance of two embeddings is taken as a rational. *)
Variable Embedding : Type.
Variable encode : string -> Embedding.
Variable cosine_distance : Embedding -> Embedding -> Q.

Record IndexEntry : Type := {
  ie_id : option string;
  ie_document : string;
  ie_metadata : Metadata;
  ie_embedding : Embedding
}.

Definition id_eqb (a b : option string) : bool :=
  match a, b with
  | Some x, Some y => String.eqb x y
  | None, None => true
  | _, _ => false
  end.

(** Modelled from the spec: the vector index behind [self.collection], a
    Chroma collection, which is an outside library and not code of this
    repository. Its [add] has upsert semantics keyed by id: an entry whose
    id is already present is replaced where it stands, any other is
    added. *)
Definition collection_upsert (e : IndexEntry) (index : list IndexEntry)
    : list IndexEntry :=
  if existsb (fun x => id_eqb (ie_id x) (ie_id e)) index
  then map (fun x => if id_eqb (ie_id x) (ie_id e) then e else x) index
  else index ++ [e].

(** Modelled from the spec: the four parallel lists of an [add] call read
    as entries, position by position. *)
Fixpoint zip_entries (ids : list (option string)) (documents : list string)
    (metadatas : list Metadata) (embeddings : list Embedding)
    : list IndexEntry :=
  match ids, documents, metadatas, embeddings with
  | i :: ids', d :: documents', m :: metadatas', v :: embeddings' =>
      {| ie_id := i; ie_document := d; ie_metadata := m; ie_embedding := v |}
      :: zip_entries ids' documents' metadatas' embeddings'
  | _, _, _, _ => []
  end.

(** Modelled from the spec: [collection.add(ids, documents, metadatas,
    embeddings)] of the Chroma collection, upserting the entries one after
    the other. *)
Definition collection_add (ids : list (option string))
    (documents : list string) (metadatas : list Metadata)
    (embeddings : list Embedding) (index : list IndexEntry)
    : list IndexEntry :=
  fold_left (fun idx e => collection_upsert e idx)
            (zip_entries ids documents metadatas embeddings) index.

(** Modelled from the spec: the ranking behind [collection.query],
    entries paired with their distance to the query, nearest first. *)
Fixpoint insert_nearest (x : IndexEntry * Q) (l : list (IndexEntry * Q))
    : list (IndexEntry * Q) :=
  match l with
  | [] => [x]
  | y :: l' => if Qle_bool (snd x) (snd y) then x :: l
               else y :: insert_nearest x l'
  end.

Definition nearest_first (l : list (IndexEntry * Q)) : list (IndexEntry * Q) :=
  fold_right insert_nearest [] l.

(** The three parallel lists a query returns for one query embedding. *)
Record QueryResult : Type := {
  documents : list string;
  metadatas : list Metadata;
  distances : list Q
}.

(** Modelled from the spec: [collection.query(embedding, k)] of the
    Chroma collection: the k nearest entries by cosine distance,
    ascending, and all of them when the index holds fewer than k. *)
Definition collection_query (query_embedding : Embedding) (k : nat)
    (index : list IndexEntry) : QueryResult :=
  let ranked :=
    firstn k (nearest_first
                (map (fun e => (e, cosine_distance query_embedding
                                     (ie_embedding e))) index)) in
  {| documents := map (fun p => ie_document (fst p)) ranked;
     metadatas := map (fun p => ie_metadata (fst p)) ranked;
     distances := map snd ranked |}.

(** [VectorStore.add_documents] *)
Definition add_documents (ids : list (option string))
    (documents_ : list string) (metadatas_ : list Metadata)
    (index : list IndexEntry) : list IndexEntry :=
  let embeddings := map encode documents_ in
  collection_add ids documents_ metadatas_ embeddings index.

(** [VectorStore.query]: one result per query text. *)
Definition query (query_texts : list string) (n_results : nat)
    (index : list IndexEntry) : list QueryResult :=
  let query_embeddings := map encode query_texts in
  map (fun q => collection_query q n_results index) query_embeddings.

(** Vocabulary of the statements about the index. *)

(** The entries the index holds under an id. *)
Definition entries_with_id (i : option string) (index : list IndexEntry)
    : list IndexEntry :=
  filter (fun x => id_eqb (ie_id x) i) index.

Definition one_entry_per_id (index : list IndexEntry) : Prop :=
  forall i, (List.length (entries_with_id i index) <= 1)%nat.

(** One indexing run: the three lists handed to [add_documents]. *)
Record Batch : Type := {
  b_ids : list (option string);
  b_documents : list string;
  b_metadatas : list Metadata
}.

Definition index_run (index : list IndexEntry) (b : Batch)
    : list IndexEntry :=
  add_documents (b_ids b) (b_documents b) (b_metadatas b) index.

Definition index_runs (runs : list Batch) (index : list IndexEntry)
    : list IndexEntry :=
  fold_left index_run runs index.

(** One (entry, distance) pair is no farther than another. *)
Definition nearer (x y : IndexEntry * Q) : Prop := (snd x <= snd y)%Q.

(** The ranked (entry, distance) pairs behind a query. *)
Definition ranked (query_embedding : Embedding) (k : nat)
    (index : list IndexEntry) : list (IndexEntry * Q) :=
  firstn k (nearest_first
              (map (fun e => (e, cosine_distance query_embedding
                                   (ie_embedding e))) index)).

(** The entries a run submits. *)
Definition submitted (b : Batch) : list IndexEntry :=
  zip_entries (b_ids b) (b_documents b) (b_metadatas b)
    (map encode (b_documents b)).

End Collection.

Arguments ie_id {Embedding} _.
Arguments ie_document {Embedding} _.
Arguments ie_metadata {Embedding} _.
Arguments ie_embedding {Embedding} _.

(** A toy model for the examples: a text is embedded as its length. *)
Definition toy_encode (s : string) : nat := String.length s.

Definition toy_distance (a b : nat) : Q :=
  inject_Z (Z.abs (Z.of_nat a - Z.of_nat b)).

Definition toy_batch (u document : string) : Batch :=
  {| b_ids := [Some u];
     b_documents := [document];
     b_metadatas := [{| m_url := Some u; m_title := ""; m_source := "" |}] |}.

End VectorStore.

(* ================================================================== *)
(** ** processors/validator.py *)
(* ================================================================== *)

Module Validator.

(** A dictionary with integer values, read through [d.get(key, default)]. *)
Definition dict : Type := list (string * Z).

Fixpoint get (d : dict) (key : string) (default : Z) : Z :=
  match d with
  | [] => default
  | (k, v) :: d' => if String.eqb k key then v else get d' key default
  end.

(** The dictionary literal [aggregate_signals] returns. *)
Definition metrics_dict (s : Db.Signals) : dict :=
  [("articles", Db.s_articles s);
   ("hn_points", Db.s_hn_points s);
   ("hn_comments", Db.s_hn_comments s);
   ("crawled_count", Db.s_crawled_count s)].

(** Python's [float] is IEEE 754 binary64: 53 bits of precision, results
    rounded to nearest, ties to even. The operations are those of the
    standard library's executable specification. *)
Definition prec : Z := 53.
Definition emax : Z := 1024.
Definition float : Type := spec_float.

Definition fadd : float -> float -> float := SFadd prec emax.
Definition fsub : float -> float -> float := SFsub prec emax.
Definition fmul : float -> float -> float := SFmul prec emax.
Definition fdiv : float -> float -> float := SFdiv prec emax.
Definition fabs : float -> float := SFabs.

(** The binary64 number nearest to the integer [n]. *)
Definition nearest (n : Z) : float := binary_normalize prec emax n 0 false.

(** A decimal literal with [places] digits after the point: [literal 2 1]
    is [0.2], the binary64 number nearest to 2/10. *)
Definition literal (digits : Z) (places : nat) : float :=
  fdiv (nearest digits) (nearest (10 ^ Z.of_nat places)).

(** The rational a binary64 number stands for; none for an infinity or
    a NaN. *)
Definition value (x : float) : option Q :=
  match x with
  | S754_zero _ => Some 0%Q
  | S754_finite s m e =>
      Some (inject_Z (cond_Zopp s (Zpos m)) * 2 ^ e)%Q
  | _ => None
  end.

Definition is_value (x : float) (q : Q) : Prop :=
  match value x with
  | Some v => (v == q)%Q
  | None => False
  end.

(** The only exception the arithmetic of [_compute_score] can raise:
    an [int] too large to convert to [float]. *)
Inductive computation (A : Type) : Type :=
| Return (a : A)
| OverflowError.
Arguments Return {A} a.
Arguments OverflowError {A}.

Definition bind {A B} (c : computation A) (k : A -> computation B)
    : computation B :=
  match c with
  | Return a => k a
  | OverflowError => OverflowError
  end.

Local Notation "x <- c ;; k" := (bind c (fun x => k))
  (at level 61, c at next level, right associativity).

(** A Python number as it occurs here: [int] or [float]. *)
Inductive number : Type :=
| Int (n : Z)
| Float (x : float).

(** [float(n)] for an [int], as the mixed operators do it: the nearest
    binary64 number, [OverflowError] when that would be an infinity. *)
Definition float_of_int (n : Z) : computation float :=
  match nearest n with
  | S754_infinity _ => OverflowError
  | x => Return x
  end.

Definition to_float (a : number) : computation float :=
  match a with
  | Int n => float_of_int n
  | Float x => Return x
  end.

(** [n * x], [n + x] and [x + b] for an [int] n, a [float] x and a number
    b: the [int] operand is converted first. *)
Definition int_mul_float (n : Z) (x : float) : computation float :=
  a <- float_of_int n ;; Return (fmul a x).

Definition int_add_float (n : Z) (x : float) : computation float :=
  a <- float_of_int n ;; Return (fadd a x).

Definition float_add_number (x : float) (b : number) : computation float :=
  y <- to_float b ;; Return (fadd x y).

(** The built-in [sum] over a generator of floats, starting from the
    [int] 0. The first item is added to 0 by the ordinary [+]; the
    further items are accumulated in a C double. Up to CPython 3.11 that
    is a plain running sum; from 3.12 on the loop also carries Neumaier's
    compensation term [c] and adds it at the end. The generator's items
    are computed one by one as the loop asks for them. *)
Inductive cpython : Type :=
| upto_3_11
| from_3_12.

Fixpoint sum_plain (f_result : float) (items : list (computation float))
    : computation float :=
  match items with
  | [] => Return f_result
  | item :: rest => x <- item ;; sum_plain (fadd f_result x) rest
  end.

Definition is_nonzero (x : float) : bool :=
  match x with
  | S754_zero _ => false
  | _ => true
  end.

Definition is_finite (x : float) : bool :=
  match x with
  | S754_zero _ | S754_finite _ _ _ => true
  | _ => false
  end.

Fixpoint sum_compensated (f_result c : float)
    (items : list (computation float)) : computation float :=
  match items with
  | [] =>
      Return (if is_nonzero c && is_finite c then fadd f_result c
              else f_result)
  | item :: rest =>
      x <- item ;;
      let t := fadd f_result x in
      let c :=
        if SFleb (fabs x) (fabs f_result)
        then fadd c (fadd (fsub f_result t) x)
        else fadd c (fadd (fsub x t) f_result) in
      sum_compensated t c rest
  end.

Definition sum (version : cpython) (items : list (computation float))
    : computation number :=
  match items with
  | [] => Return (Int 0)
  | item :: rest =>
      x <- item ;;
      first <- int_add_float 0 x ;;
      total <- match version with
               | upto_3_11 => sum_plain first rest
               | from_3_12 => sum_compensated first (S754_zero false) rest
               end ;;
      Return (Float total)
  end.

Record Scores : Type := {
  base_score : number;
  social_score : number;
  total_score : number
}.

(** [item.get('score', 0) + item.get('comments', 0) * 0.5] *)
Definition item_score (item : dict) : computation float :=
  half <- int_mul_float (get item "comments" 0) (literal 5 1) ;;
  int_add_float (get item "score" 0) half.

(** [MarketValidator._compute_score]. The values of both dictionaries are
    [int]s; every product and sum is a binary64 operation, in the order
    Python evaluates them. *)
Definition _compute_score (version : cpython) (db_metrics : dict)
    (social_items : list dict) : computation Scores :=
  social_score <- sum version (map item_score social_items) ;;
  articles <- int_mul_float (get db_metrics "articles" 0) (literal 10 1) ;;
  hn_points <- int_mul_float (get db_metrics "hn_points" 0) (literal 5 1) ;;
  let partial := fadd articles hn_points in
  hn_comments <-
    int_mul_float (get db_metrics "hn_comments" 0) (literal 2 1) ;;
  let partial := fadd partial hn_comments in
  crawled_count <-
    int_mul_float (get db_metrics "crawled_count" 0) (literal 1 1) ;;
  let base_score := fadd partial crawled_count in
  total <- float_add_number base_score social_score ;;
  Return {| base_score := Float base_score;
            social_score := social_score;
            total_score := Float total |}.

(** The formula of the design document. Its base line is read as Python
    reads it, each product and each sum from left to right a binary64
    operation; its social line is the exact rational sum. *)
Definition base_formula (count points comments content_count : Z)
    : float :=
  fadd (fadd (fadd (fmul (nearest count) (literal 10 1))
                   (fmul (nearest points) (literal 5 1)))
             (fmul (nearest comments) (literal 2 1)))
       (fmul (nearest content_count) (literal 1 1)).

Fixpoint social_formula (items : list (Z * Z)) : Q :=
  match items with
  | [] => 0%Q
  | (score, comments) :: rest =>
      ((inject_Z score + inject_Z comments * (1 # 2))
       + social_formula rest)%Q
  end.

(** A social item as the scraper builds it. *)
Definition social_item (score comments : Z) : dict :=
  [("score", score); ("comments", comments)].

(** The aggregate and the social items of a scoring call. *)
Definition aggregate (count points comments content_count : Z)
    : Db.Signals :=
  {| Db.s_articles := count; Db.s_hn_points := points;
     Db.s_hn_comments := comments; Db.s_crawled_count := content_count |}.

Definition social_items (items : list (Z * Z)) : list dict :=
  map (fun item => social_item (fst item) (snd item)) items.

Definition score (version : cpython)
    (count points comments content_count : Z) (items : list (Z * Z))
    : computation Scores :=
  _compute_score version
    (metrics_dict (aggregate count points comments content_count))
    (social_items items).

(** An integer binary64 holds exactly, and a list of social items whose
    half-integer scores add up without rounding. *)
Definition fits (n : Z) : Prop := Z.abs n < 2 ^ 53.

Fixpoint magnitude (items : list (Z * Z)) : Z :=
  match items with
  | [] => 0
  | (score, comments) :: rest =>
      2 * Z.abs score + Z.abs comments + magnitude rest
  end.

(** Twice the social line of the formula, an integer. *)
Fixpoint doubled (items : list (Z * Z)) : Z :=
  match items with
  | [] => 0
  | (score, comments) :: rest => 2 * score + comments + doubled rest
  end.

(** A normal binary64 number: 53-bit mantissa, exponent in range. *)
Definition normal (m : positive) (e : Z) : Prop :=
  Zpos (digits2_pos m) = 53 /\ -1074 <= e <= 971.

(** The binary64 number [h * 2^e], for an integer [h] of at most 53
    bits: 53-bit mantissa, sign of [h]. *)
Definition mantissa (h : Z) : positive :=
  Z.to_pos (Z.abs h * 2 ^ (53 - Zdigits2 h)).

Definition exact (h e : Z) : float :=
  match h with
  | 0 => S754_zero false
  | _ => S754_finite (h <? 0) (mantissa h) (e + Zdigits2 h - 53)
  end.

End Validator.

(* ================================================================== *)
(** ** cli.py *)
(* ================================================================== *)

Module Cli.
Import Py.

(** How a command ends: normally, or with an exception nothing caught.
    Either way the database file is left as the statements committed so
    far made it. *)
Inductive outcome (S : Type) : Type :=
| Done (s : S)
| Uncaught (e : exn) (s : S).
Arguments Done {S} s.
Arguments Uncaught {S} e s.

Definition state_of {S} (o : outcome S) : S :=
  match o with
  | Done s => s
  | Uncaught _ s => s
  end.

(** [for x in xs: body], leaving the loop at the first exception. *)
Fixpoint for_each {S A} (body : A -> S -> outcome S) (xs : list A) (s : S)
    : outcome S :=
  match xs with
  | [] => Done s
  | x :: xs' =>
      match body x s with
      | Done s' => for_each body xs' s'
      | Uncaught e s' => Uncaught e s'
      end
  end.

(** One crawl result of [results['crawled_content']]. *)
Record CrawlResult : Type := {
  success : bool;
  markdown_content : option string;
  word_count : option Z;
  crawled_at : option string
}.

(** What the scrapers hand to [cmd_ingest]. Every scraped record carries
    the key ['url'] (possibly with no value), so [article['url']] does not
    fail. *)
Record Results : Type := {
  hackernews : list Db.Article;
  arxiv : list Db.Article;
  rss : list Db.Article;
  crawled_content : list (string * CrawlResult)
}.

(** [article_id_map]: url -> article id. *)
Definition id_map : Type := list (option string * Z).

Fixpoint id_map_set (k : option string) (v : Z) (m : id_map) : id_map :=
  match m with
  | [] => [(k, v)]
  | (k', v') :: m' =>
      if VectorStore.id_eqb k' k then (k, v) :: m'
      else (k', v') :: id_map_set k v m'
  end.

Fixpoint id_map_get (k : option string) (m : id_map) : option Z :=
  match m with
  | [] => None
  | (k', v') :: m' =>
      if VectorStore.id_eqb k' k then Some v' else id_map_get k m'
  end.

(** [article['url'] = canonical] *)
Definition set_url (canonical : option string) (a : Db.Article)
    : Db.Article :=
  {| Db.url := canonical;
     Db.arxiv_url := Db.arxiv_url a;
     Db.hn_url := Db.hn_url a;
     Db.title := Db.title a;
     Db.source := Db.source a;
     Db.author := Db.author a;
     Db.created_at := Db.created_at a;
     Db.published_date := Db.published_date a;
     Db.points := Db.points a;
     Db.comments_count := Db.comments_count a;
     Db.description := Db.description a;
     Db.abstract := Db.abstract a;
     Db.category := Db.category a;
     Db.arxiv_id := Db.arxiv_id a |}.

(** The state the ingest command works on: the id map, the database file
    and the number of clock readings taken so far. *)
Record Ingest : Type := {
  article_id_map : id_map;
  db : Db.Database;
  ticks : nat
}.

Section Commands.

(** [utcnow n] is what the n-th reading of the clock returns. *)
Variable utcnow : nat -> string.

(** [article_id_map[article['url']] = db.upsert_article(article,
    topic=args.topic)]: the call comes first, the store into the map
    second; no handler surrounds it. *)
Definition upsert_and_record (topic : string) (article : Db.Article)
    (s : Ingest) : outcome Ingest :=
  match Db.upsert_article (utcnow (ticks s)) article (Some topic) (db s) with
  | Ok (article_id, db') =>
      Done {| article_id_map :=
                id_map_set (Db.url article) article_id (article_id_map s);
              db := db';
              ticks := S (ticks s) |}
  | Raise e =>
      Uncaught e {| article_id_map := article_id_map s;
                    db := db s;
                    ticks := S (ticks s) |}
  end.

(** The arXiv loop first makes the abstract page the record's url. *)
Definition upsert_arxiv (topic : string) (article : Db.Article)
    (s : Ingest) : outcome Ingest :=
  let canonical := or_ (Db.arxiv_url article) (Db.url article) in
  upsert_and_record topic (set_url canonical article) s.

(** "Persist metadata first": the three loops of [cmd_ingest]. *)
Definition persist_metadata (topic : string) (results : Results)
    (s : Ingest) : outcome Ingest :=
  match for_each (upsert_and_record topic) (hackernews results) s with
  | Uncaught e s1 => Uncaught e s1
  | Done s1 =>
      match for_each (upsert_arxiv topic) (arxiv results) s1 with
      | Uncaught e s2 => Uncaught e s2
      | Done s2 => for_each (upsert_and_record topic) (rss results) s2
      end
  end.

(** "Persist crawled content if available". *)
Definition attach_crawled (entry : string * CrawlResult) (s : Ingest)
    : outcome Ingest :=
  let (u, content) := entry in
  if negb (success content) then Done s
  else
    match id_map_get (Some u) (article_id_map s) with
    | Some article_id =>
        if article_id =? 0 then Done s
        else
          Done {| article_id_map := article_id_map s;
                  db := Db.upsert_crawled_content (utcnow (ticks s))
                          article_id (Some u)
                          (Some (Preprocess.or_empty
                                   (markdown_content content)))
                          (Some (int_or_0 (word_count content)))
                          (crawled_at content) (db s);
                  ticks := S (ticks s) |}
    | None => Done s
    end.

Definition persist_crawled (results : Results) (s : Ingest)
    : outcome Ingest :=
  for_each attach_crawled (crawled_content results) s.

(** The text [cmd_ingest] builds for one row of the result set. *)
Definition doc_text (row : Db.EmbeddingRow) : string :=
  Preprocess.build_document_for_embedding
    (Some (Preprocess.or_empty (Db.e_title row)))
    (Some (Preprocess.or_empty
             (or_ (or_ (Db.e_description row) (Db.e_abstract row))
                  (Some ""))))
    (Some (Db.e_markdown_content row)).

(** One candidate of the indexing batch: id, document and metadata. *)
Definition candidate (row : Db.EmbeddingRow)
    : option string * string * VectorStore.Metadata :=
  (Db.e_url row, doc_text row,
   {| VectorStore.m_url := Db.e_url row;
      VectorStore.m_title := Preprocess.or_empty (Db.e_title row);
      VectorStore.m_source := Preprocess.or_empty (Db.e_source row) |}).

(** The loop filling [ids_to_index], [docs_to_index] and
    [metas_to_index]: a row whose text strips to nothing is passed over. *)
Fixpoint to_index (rows : list Db.EmbeddingRow)
    : list (option string * string * VectorStore.Metadata) :=
  match rows with
  | [] => []
  | row :: rows' =>
      if negb (Preprocess.nonempty (Preprocess.strip (doc_text row)))
      then to_index rows'
      else candidate row :: to_index rows'
  end.

Variable Embedding : Type.
Variable encode : string -> Embedding.
Variable cosine_distance : Embedding -> Embedding -> Q.

(** "Build embeddings and index": one [add_documents] call for the whole
    batch, none when the batch is empty. *)
Definition index_rows (rows : list Db.EmbeddingRow)
    (index : list (VectorStore.IndexEntry Embedding))
    : list (VectorStore.IndexEntry Embedding) :=
  let batch := to_index rows in
  match batch with
  | [] => index
  | _ =>
      VectorStore.add_documents Embedding encode
        (map (fun c => fst (fst c)) batch)
        (map (fun c => snd (fst c)) batch)
        (map snd batch) index
  end.

(** The sorter the engine runs for the ORDER BY of the fetch. *)
Variable order_by : list Db.Joined -> list Db.Joined.

(** [cmd_ingest], from the scraped results on: metadata, then crawled
    content, then the index. The vector store is only opened once both
    persisting loops are through. *)
Definition cmd_ingest (topic : string) (results : Results)
    (s : Ingest) (index : list (VectorStore.IndexEntry Embedding))
    : outcome (Ingest * list (VectorStore.IndexEntry Embedding)) :=
  match persist_metadata topic results s with
  | Uncaught e s1 => Uncaught e (s1, index)
  | Done s1 =>
      match persist_crawled results s1 with
      | Uncaught e s2 => Uncaught e (s2, index)
      | Done s2 =>
          let rows := Db.fetch_articles_for_embedding order_by (db s2) in
          Done (s2, index_rows rows index)
      end
  end.

(** [zip(a, b, c)] stops with the shortest list. *)
Fixpoint zip3 {A B C} (a : list A) (b : list B) (c : list C)
    : list (A * B * C) :=
  match a, b, c with
  | x :: a', y :: b', z :: c' => (x, y, z) :: zip3 a' b' c'
  | _, _, _ => []
  end.

(** [cmd_search]: the (document, metadata, distance) triples it prints,
    in order. *)
Definition cmd_search (query_text : string) (k : nat)
    (index : list (VectorStore.IndexEntry Embedding))
    : list (string * VectorStore.Metadata * Q) :=
  match VectorStore.query Embedding encode cosine_distance
          [query_text] k index with
  | results :: _ =>
      zip3 (VectorStore.documents results) (VectorStore.metadatas results)
           (VectorStore.distances results)
  | [] => []
  end.

End Commands.

(** Vocabulary for the batch statements. *)

(** The state after one more clock reading and nothing else. *)
Definition tick (s : Ingest) : Ingest :=
  {| article_id_map := article_id_map s; db := db s; ticks := S (ticks s) |}.

Definition missing_url : exn := ValueError "Article missing canonical URL".

(** A record with no URL at all, and a batch that has it first. *)
Definition no_url : Db.Article :=
  {| Db.url := None; Db.arxiv_url := None; Db.hn_url := None;
     Db.title := Some "untitled"; Db.source := None; Db.author := None;
     Db.created_at := None; Db.published_date := None; Db.points := None;
     Db.comments_count := None; Db.description := None;
     Db.abstract := None; Db.category := None; Db.arxiv_id := None |}.

(** A record as the RSS scraper builds it: title, description, url,
    published_date, source and author, the url being the entry's link,
    which a feed can leave empty. *)
Definition feed_item (link : string) : Db.Article :=
  {| Db.url := Some link; Db.arxiv_url := None; Db.hn_url := None;
     Db.title := Some "a post"; Db.source := Some "techcrunch";
     Db.author := Some "Unknown"; Db.created_at := None;
     Db.published_date := Some "2024-05-01T00:00:00"; Db.points := None;
     Db.comments_count := None; Db.description := Some "";
     Db.abstract := None; Db.category := None; Db.arxiv_id := None |}.

Definition fresh : Ingest :=
  {| article_id_map := []; db := Db.empty; ticks := 0 |}.

End Cli.

(* ================================================================== *)
(** ** Vocabulary of the statements *)
(* ================================================================== *)

Module Store.
Import Py Db.

(** The stored entities whose canonical URL is [u]. *)
Definition rows_with_url (u : string) (db : Database) : list ArticleRow :=
  filter (fun r => text_eq (r_url r) u) (articles db).

(** The content rows owned by article [article_id]. *)
Definition content_of (article_id : Z) (db : Database) : list ContentRow :=
  filter (fun c => c_article_id c =? article_id) (crawled_content db).

(** What the schema keeps true of [articles]: [url] is UNIQUE and [id] is
    the primary key. *)
Definition unique_urls (db : Database) : Prop :=
  forall u, (List.length (rows_with_url u db) <= 1)%nat.

Definition unique_ids (db : Database) : Prop :=
  NoDup (map r_id (articles db)).

Definition well_formed (db : Database) : Prop :=
  unique_urls db /\ unique_ids db.

(** What the schema keeps true of [crawled_content]: UNIQUE(article_id). *)
Definition one_content_per_article (db : Database) : Prop :=
  forall article_id, (List.length (content_of article_id db) <= 1)%nat.

(** A record resolves to the canonical URL [u]. *)
Definition resolves_to (article : Article) (u : string) : Prop :=
  canonical_url article = Some u /\ u <> "".

(** The attribute columns an upsert merges, and their values. *)
Inductive column : Type :=
| col_title | col_source | col_author | col_created_at | col_published_date
| col_points | col_comments_count | col_description | col_abstract
| col_category | col_arxiv_id | col_hn_url | col_topic.

Inductive value : Type :=
| Null
| Text (s : string)
| Int (n : Z).

Definition of_text (o : option string) : value :=
  match o with Some s => Text s | None => Null end.

Definition of_int (o : option Z) : value :=
  match o with Some n => Int n | None => Null end.

Definition is_numeric (c : column) : bool :=
  match c with
  | col_points | col_comments_count => true
  | _ => false
  end.

(** The value a stored row holds in a column. *)
Definition stored (c : column) (r : ArticleRow) : value :=
  match c with
  | col_title => of_text (r_title r)
  | col_source => of_text (r_source r)
  | col_author => of_text (r_author r)
  | col_created_at => of_text (r_created_at r)
  | col_published_date => of_text (r_published_date r)
  | col_points => of_int (r_points r)
  | col_comments_count => of_int (r_comments_count r)
  | col_description => of_text (r_description r)
  | col_abstract => of_text (r_abstract r)
  | col_category => of_text (r_category r)
  | col_arxiv_id => of_text (r_arxiv_id r)
  | col_hn_url => of_text (r_hn_url r)
  | col_topic => of_text (r_topic r)
  end.

(** The value a call [upsert_article(article, topic)] supplies for a
    column. *)
Definition supplied (c : column) (article : Article)
    (topic : option string) : value :=
  match c with
  | col_title => of_text (title article)
  | col_source => of_text (source article)
  | col_author => of_text (author article)
  | col_created_at => of_text (created_at article)
  | col_published_date => of_text (published_date article)
  | col_points => of_int (points article)
  | col_comments_count => of_int (comments_count article)
  | col_description => of_text (description article)
  | col_abstract => of_text (abstract article)
  | col_category => of_text (category article)
  | col_arxiv_id => of_text (arxiv_id article)
  | col_hn_url => of_text (hn_url article)
  | col_topic => of_text topic
  end.

(** Coalesce-merge of one column. *)
Definition merged (incoming old : value) : value :=
  match incoming with
  | Null => old
  | _ => incoming
  end.

(** A record that supplies its URL and nothing else. *)
Definition only_url (u : string) : Article :=
  {| url := Some u; arxiv_url := None; hn_url := None; title := None;
     source := None; author := None; created_at := None;
     published_date := None; points := None; comments_count := None;
     description := None; abstract := None; category := None;
     arxiv_id := None |}.

(** The database after a successful call, the unchanged one after a
    failed call. *)
Definition db_after (r : result (Z * Database)) (db : Database) : Database :=
  match r with
  | Ok (_, db') => db'
  | Raise _ => db
  end.

(** Identity resolution as the design document words it: the first
    non-empty of the candidates, in order. *)
Fixpoint first_non_empty (candidates : list (option string))
    : option string :=
  match candidates with
  | [] => None
  | Some s :: rest => if String.eqb s "" then first_non_empty rest else Some s
  | None :: rest => first_non_empty rest
  end.

(** Explicit URL, else preprint-abstract URL, else discussion-thread
    URL. *)
Definition identity (article : Article) : option string :=
  first_non_empty [url article; arxiv_url article; hn_url article].

(** One call of [upsert_crawled_content], and a run of such calls. *)
Record Attach : Type := {
  at_now : string;
  at_article_id : Z;
  at_url : option string;
  at_markdown : option string;
  at_word_count : option Z;
  at_crawled_at : option string
}.

Definition attach (db : Database) (call : Attach) : Database :=
  upsert_crawled_content (at_now call) (at_article_id call) (at_url call)
    (at_markdown call) (at_word_count call) (at_crawled_at call) db.

Definition attach_all (calls : list Attach) (db : Database) : Database :=
  fold_left attach calls db.

(** The store after [upsert(A)] followed by [upsert(B)]. *)
Definition upsert_twice (now1 : string) (A : Article) (tA : option string)
    (now2 : string) (B : Article) (tB : option string) (db : Database)
    : Database :=
  let db1 := db_after (upsert_article now1 A tA db) db in
  db_after (upsert_article now2 B tB db1) db1.

(** A store holding one entity, under "u". *)
Definition one_entity : Database :=
  db_after (upsert_article "t0" (only_url "u") None empty) empty.

(** The order of two joined rows under [ORDER BY a.published_date DESC]. *)
Definition desc (j1 j2 : Joined) : Prop :=
  published_desc j1 j2 = true.

(** A store holding one entity collected under topic "Y", with content
    attached. *)
Definition one_entity_with_content : Database :=
  upsert_crawled_content "t1" 1 (Some "u") (Some "some text") (Some 2)
    (Some "t1")
    (db_after (upsert_article "t0" (only_url "u") (Some "Y") empty) empty).

(** A store holding two entities of the same publication time, "a"
    inserted before "b". *)
Definition dated (u : string) : Article :=
  {| url := Some u; arxiv_url := None; hn_url := None; title := Some u;
     source := None; author := None; created_at := None;
     published_date := Some "2024-05-01T00:00:00"; points := None;
     comments_count := None; description := None; abstract := None;
     category := None; arxiv_id := None |}.

Definition two_of_one_date : Database :=
  upsert_twice "t0" (dated "a") None "t1" (dated "b") None empty.

End Store.

(* ================================================================== *)
(** ** Vocabulary for runs of calls *)
(* ================================================================== *)

Module Runs.
Import Py Db Store.

(** One call of [upsert_article], and a run of such calls; a call that
    raises leaves the database as it was. *)
Record Upsert : Type := {
  up_now : string;
  up_article : Article;
  up_topic : option string
}.

Definition upsert (db : Database) (call : Upsert) : Database :=
  db_after (upsert_article (up_now call) (up_article call) (up_topic call)
              db) db.

Definition upsert_all (calls : list Upsert) (db : Database) : Database :=
  fold_left upsert calls db.

(** A row with only its [updated_at] set anew. *)
Definition touched (now : string) (r : ArticleRow) : ArticleRow :=
  {| r_id := r_id r; r_url := r_url r; r_title := r_title r;
     r_source := r_source r; r_author := r_author r;
     r_created_at := r_created_at r;
     r_published_date := r_published_date r; r_points := r_points r;
     r_comments_count := r_comments_count r;
     r_description := r_description r; r_abstract := r_abstract r;
     r_category := r_category r; r_arxiv_id := r_arxiv_id r;
     r_hn_url := r_hn_url r; r_topic := r_topic r;
     r_inserted_at := r_inserted_at r; r_updated_at := Some now |}.

(** A NULL number read as 0. *)
Definition or_0 (o : option Z) : Z :=
  match o with
  | Some n => n
  | None => 0
  end.

Definition total (l : list Z) : Z := fold_right Z.add 0 l.

(** The keys AUTOINCREMENT has handed out are positive. *)
Definition positive_ids (db : Database) : Prop :=
  Forall (fun r => 0 < r_id r) (articles db) /\ 0 <= articles_seq db.

(** The row [fetch_articles_for_embedding] shows for an article whose
    attached text is [markdown]. *)
Definition embedding_row (a : ArticleRow) (markdown : option string)
    : EmbeddingRow :=
  {| e_url := r_url a; e_title := r_title a; e_source := r_source a;
     e_description := r_description a; e_abstract := r_abstract a;
     e_markdown_content := Preprocess.or_empty markdown |}.

End Runs.

(* ================================================================== *)
(** ** Vocabulary for the ingest batch *)
(* ================================================================== *)

Module Batch.
Import Py Db Store Runs Cli.

(** An arXiv record as the arXiv loop hands it to [upsert_article]: its
    ['url'] is the abstract page when it has one. *)
Definition arxiv_record (a : Article) : Article :=
  set_url (or_ (arxiv_url a) (url a)) a.

(** The records of a batch in the order [cmd_ingest] upserts them. *)
Definition upserted (results : Results) : list Article :=
  (hackernews results ++ map arxiv_record (arxiv results)
     ++ rss results)%list.

(** Every non-empty URL the id map knows is mapped to the id the store
    resolves it to. *)
Definition map_agrees (s : Ingest) : Prop :=
  forall u v, u <> "" ->
    id_map_get (Some u) (article_id_map s) = Some v ->
    select_id_by_url u (db s) = Some v.

(** What [cmd_ingest] can rely on between two records. *)
Definition consistent (s : Ingest) : Prop :=
  well_formed (db s) /\ positive_ids (db s) /\ map_agrees s.

End Batch.

(* ================================================================== *)
(** ** Sample batches *)
(* ================================================================== *)

Module Samples.
Import Py Db Store Cli.

(** A preprint record as the arXiv scraper builds it: no ['url'] key. *)
Definition preprint (abs_url : string) : Article :=
  {| url := None; arxiv_url := Some abs_url; hn_url := None;
     title := Some "a paper"; source := Some "arxiv"; author := None;
     created_at := None; published_date := Some "2024-05-01T00:00:00";
     points := None; comments_count := None; description := None;
     abstract := Some "an abstract"; category := Some "cs.AI";
     arxiv_id := Some "1" |}.

Definition crawled_page (text : string) : CrawlResult :=
  {| success := true; markdown_content := Some text;
     word_count := Some 2; crawled_at := Some "t9" |}.

(** One story, one preprint and one feed item that repeats the story's
    URL, with the story's page crawled. *)
Definition sample_results : Results :=
  {| hackernews := [only_url "http://u"];
     arxiv := [preprint "https://arxiv.org/abs/1"];
     rss := [only_url "http://u"];
     crawled_content := [("http://u", crawled_page "page text")] |}.

End Samples.

(* ================================================================== *)
(** ** More Python string methods *)
(* ================================================================== *)

Module PyStr.
Import Preprocess.

(** [s.startswith(prefix)] *)
Fixpoint startswith (prefix s : string) : bool :=
  match prefix, s with
  | EmptyString, _ => true
  | String a prefix', String b s' => Ascii.eqb a b && startswith prefix' s'
  | String _ _, EmptyString => false
  end.

(** [sub in s] *)
Fixpoint contains (sub s : string) : bool :=
  startswith sub s ||
  match s with
  | String _ s' => contains sub s'
  | EmptyString => false
  end.

(** [s.endswith(suffix)] *)
Fixpoint endswith (suffix s : string) : bool :=
  String.eqb suffix s ||
  match s with
  | String _ s' => endswith suffix s'
  | EmptyString => false
  end.

(** [s.split()]: the maximal runs of non-whitespace characters. The
    helper returns the word in progress at the front of the string and
    the words after it. *)
Fixpoint split_words (s : string) : string * list string :=
  match s with
  | EmptyString => (EmptyString, [])
  | String c s' =>
      let (w, ws) := split_words s' in
      if is_space c
      then (EmptyString, if nonempty w then w :: ws else ws)
      else (String c w, ws)
  end.

Definition split (s : string) : list string :=
  let (w, ws) := split_words s in
  if nonempty w then w :: ws else ws.

(** [s.split(sep)] for a one-character separator: always at least one
    piece. *)
Fixpoint split_on (sep : ascii) (s : string) : list string :=
  match s with
  | EmptyString => [EmptyString]
  | String c s' =>
      if Ascii.eqb c sep then EmptyString :: split_on sep s'
      else match split_on sep s' with
           | w :: ws => String c w :: ws
           | [] => [String c EmptyString]
           end
  end.

(** A string in which a character does not occur. *)
Definition free (c : ascii) (w : string) : Prop :=
  ~ In c (list_ascii_of_string w).

(** [any(p(x) for x in xs)] *)
Definition any {A} (p : A -> bool) (xs : list A) : bool := existsb p xs.

(** [list(dict.fromkeys(xs))]: the first occurrences, in order. *)
Definition dict_fromkeys (xs : list string) : list string :=
  fold_left (fun keys x => if existsb (String.eqb x) keys then keys
                           else (keys ++ [x])%list) xs [].

End PyStr.

(* ================================================================== *)
(** ** processors/content_processor.py *)
(* ================================================================== *)

Module ContentProcessor.
Import Py Preprocess PyStr.

Definition skip_extensions : list string :=
  [".pdf"; ".doc"; ".docx"; ".xls"; ".xlsx"; ".ppt"; ".pptx"].

Definition skip_domains : list string :=
  ["twitter.com"; "facebook.com"; "linkedin.com"; "instagram.com"].

(** [ContentProcessor._is_valid_url] *)
Definition _is_valid_url (url : option string) : bool :=
  match url with
  | None => false
  | Some u =>
      if negb (nonempty u) then false
      else if negb (startswith "http://" u || startswith "https://" u)
      then false
      else if any (fun ext => endswith ext (lower u)) skip_extensions
      then false
      else if any (fun domain => contains domain (lower u)) skip_domains
      then false
      else true
  end.

(** The URLs one source contributes to [all_urls]. *)
Definition valid_urls (records : list Db.Article) : list string :=
  flat_map (fun article =>
              match Db.url article with
              | Some u =>
                  if truthy (Db.url article)
                     && _is_valid_url (Db.url article)
                  then [u] else []
              | None => []
              end) records.

(** The head of [crawl_content_from_urls]: the URLs of the stories and
    of the feed items, then without repetitions. The preprints are not
    looked at. *)
Definition all_urls (results : Cli.Results) : list string :=
  (valid_urls (Cli.hackernews results)
   ++ valid_urls (Cli.rss results))%list.

Definition unique_urls (results : Cli.Results) : list string :=
  dict_fromkeys (all_urls results).

(** A page with nothing to drop. *)
Definition plain_page : string := "kept line" ++ LF ++ "another one".

(** The copyright sign, code point 169. *)
Definition copyright : string := String (ascii_of_nat 169) EmptyString.

(** The three tests of [_clean_markdown_content] that drop a line. *)
Definition dropped (line : string) : bool :=
  let line_lower := lower line in
  if contains copyright line_lower && contains "github, inc." line_lower
  then true
  else if contains "manage cookies" line_lower
          || contains "do not share my personal information" line_lower
  then true
  else if (List.length (split line) <? 5)%nat
          && contains "]" line && contains "[" line
  then true
  else false.

(** [ContentProcessor._clean_markdown_content] *)
Definition _clean_markdown_content (text : string) : string :=
  let lines := split_on (ascii_of_nat 10) text in
  let clean_lines := filter (fun line => negb (dropped line)) lines in
  join LF clean_lines.

End ContentProcessor.

(* ================================================================== *)
(** ** scrapers/api_scrapers.py and scrapers/rss_scrapers.py *)
(* ================================================================== *)

Module Scrapers.
Import Py Preprocess PyStr.

(** [APIScrapers._matches_topic]; [RSSScrapers._matches_topic] is the
    same function. *)
Definition _matches_topic (topic text : string) : bool :=
  let topic_keywords := split (lower topic) in
  let text_lower := lower text in
  any (fun keyword => contains keyword text_lower) topic_keywords.



End Scrapers.

(* ================================================================== *)
(** ** storage/file_manager.py *)
(* ================================================================== *)

Module FileManager.
Import Py Preprocess PyStr.

(** The class [\w] of [re] on one character, for the code points below
    256: letters, digits (superscripts and fractions among them) and the
    underscore. The class [\s] is [is_space]. *)
Definition is_word (c : ascii) : bool :=
  let n := N_of_ascii c in
  ((48 <=? n) && (n <=? 57) || (65 <=? n) && (n <=? 90) || (n =? 95)
   || (97 <=? n) && (n <=? 122)
   || (n =? 170) || (n =? 178) || (n =? 179) || (n =? 181)
   || (n =? 185) || (n =? 186) || (188 <=? n) && (n <=? 190)
   || (192 <=? n) && (n <=? 214) || (216 <=? n) && (n <=? 246)
   || (248 <=? n))%N.

(** A character of the class [[-\s]]. *)
Definition is_separator (c : ascii) : bool :=
  Ascii.eqb c "-" || is_space c.

(** [re.sub(r'[^\w\s-]', '', s)] *)
Fixpoint drop_specials (s : string) : string :=
  match s with
  | EmptyString => EmptyString
  | String c s' =>
      if is_word c || is_space c || Ascii.eqb c "-"
      then String c (drop_specials s') else drop_specials s'
  end.

(** [re.sub(r'[-\s]+', '_', s)]: every maximal run of separators becomes
    one underscore; [in_run] tells that the character before belonged to
    the run being replaced. *)
Fixpoint underscore_runs (in_run : bool) (s : string) : string :=
  match s with
  | EmptyString => EmptyString
  | String c s' =>
      if is_separator c
      then if in_run then underscore_runs true s'
           else String "_" (underscore_runs true s')
      else String c (underscore_runs false s')
  end.

(** [topic_clean], as [save_results], [export_to_markdown] and
    [save_results_with_content] compute it. *)
Definition topic_clean (topic : string) : string :=
  let topic_clean := strip (drop_specials topic) in
  underscore_runs false topic_clean.

(** The file name [save_results] writes to; [timestamp] is
    [datetime.now().strftime("%Y%m%d_%H%M%S")]. *)
Definition results_filename (timestamp topic : string)
    (filename : option string) : string :=
  if negb (truthy filename)
  then "research_" ++ topic_clean topic ++ "_" ++ timestamp ++ ".json"
  else or_empty filename.

(** The file name [export_to_markdown] writes to. *)
Definition report_filename (timestamp topic : string)
    (filename : option string) : string :=
  if negb (truthy filename)
  then "research_report_" ++ topic_clean topic ++ "_" ++ timestamp ++ ".md"
  else or_empty filename.

(** A character the first substitution of [topic_clean] keeps. *)
Definition passes (c : ascii) : Prop :=
  (is_word c || is_space c || Ascii.eqb c "-") = true.

(** Every character of a string is a word character. *)
Definition all_word (s : string) : Prop :=
  Forall (fun c => is_word c = true) (list_ascii_of_string s).

End FileManager.

(* ================================================================== *)
(** ** Article upsert *)
(* ================================================================== *)

Module UpsertFacts.
Import Py Db Store.

Lemma truthy_resolves (a : Article) (u : string) :
  resolves_to a u -> truthy (canonical_url a) = true.
Proof.
  intros [-> Hne]. simpl.
  destruct (String.eqb_spec u ""); [contradiction | reflexivity].
Qed.

Lemma select_None (u : string) (db : Database) :
  select_id_by_url u db = None -> rows_with_url u db = [].
Proof.
  unfold select_id_by_url, rows_with_url. intros H.
  destruct (find _ (articles db)) as [r|] eqn:Hf; [discriminate|].
  induction (articles db) as [|x l IH]; [reflexivity|].
  simpl in *. destruct (text_eq (r_url x) u); [discriminate | auto].
Qed.

Lemma select_rows (u : string) (db : Database) :
  select_id_by_url u db = option_map r_id (hd_error (rows_with_url u db)).
Proof.
  unfold select_id_by_url, rows_with_url.
  induction (articles db) as [|x l IH]; [reflexivity|].
  simpl. destruct (text_eq (r_url x) u); [reflexivity | exact IH].
Qed.

(** The next key is above every key in use. *)
Lemma next_rowid_fresh (ids : list Z) (seq : Z) :
  Forall (fun i => i < next_rowid ids seq) ids.
Proof.
  unfold next_rowid. induction ids as [|i ids IH]; constructor.
  - cbn [fold_right]. lia.
  - cbn [fold_right]. eapply Forall_impl; [|exact IH].
    cbv beta. intros; lia.
Qed.

Lemma next_rowid_not_in (ids : list Z) (seq : Z) :
  ~ In (next_rowid ids seq) ids.
Proof.
  intros Hin. pose proof (next_rowid_fresh ids seq) as H.
  rewrite Forall_forall in H. specialize (H _ Hin). lia.
Qed.

(** A successful call either updates the rows of one id in place or
    appends one fresh row; these are the two shapes. *)
Lemma upsert_update_path (now : string) (a : Article)
    (topic : option string) (db : Database) (u : string) (i : Z) :
  resolves_to a u -> select_id_by_url u db = Some i ->
  upsert_article now a topic db =
  Ok (i, set_articles
           (map (fun r => if r_id r =? i then update_row now a topic r
                          else r) (articles db))
           (articles_seq db) db).
Proof.
  intros Hres Hsel. unfold upsert_article.
  rewrite (truthy_resolves _ _ Hres). destruct Hres as [-> _].
  simpl. rewrite Hsel. reflexivity.
Qed.

Lemma upsert_insert_path (now : string) (a : Article)
    (topic : option string) (db : Database) (u : string) :
  resolves_to a u -> select_id_by_url u db = None ->
  let i := next_rowid (map r_id (articles db)) (articles_seq db) in
  upsert_article now a topic db =
  Ok (i, set_articles (articles db ++ [insert_row now i u a topic]) i db).
Proof.
  intros Hres Hsel. unfold upsert_article.
  rewrite (truthy_resolves _ _ Hres). destruct Hres as [-> _].
  simpl. rewrite Hsel. reflexivity.
Qed.

Lemma filter_map_update {A} (p : A -> bool) (f : A -> A) (l : list A) :
  (forall x, p (f x) = p x) ->
  filter p (map f l) = map f (filter p l).
Proof.
  intros Hp. induction l as [|x l IH]; [reflexivity|].
  simpl. rewrite Hp. destruct (p x); simpl; congruence.
Qed.

Lemma rows_after_update (now : string) (a : Article)
    (topic : option string) (db : Database) (i : Z) (v : string) :
  filter (fun r => text_eq (r_url r) v)
    (map (fun r => if r_id r =? i then update_row now a topic r else r)
       (articles db)) =
  map (fun r => if r_id r =? i then update_row now a topic r else r)
    (rows_with_url v db).
Proof.
  unfold rows_with_url. apply filter_map_update.
  intros x. destruct (r_id x =? i); reflexivity.
Qed.

(** Both paths keep the table well formed. *)
Lemma upsert_well_formed (now : string) (a : Article)
    (topic : option string) (db : Database) (u : string) :
  well_formed db -> resolves_to a u ->
  well_formed (db_after (upsert_article now a topic db) db).
Proof.
  intros [Hu Hi] Hres.
  destruct (select_id_by_url u db) as [i|] eqn:Hsel.
  - rewrite (upsert_update_path now a topic db u i Hres Hsel). simpl.
    split.
    + intros v. unfold rows_with_url at 1. simpl.
      rewrite rows_after_update, length_map. apply Hu.
    + unfold unique_ids. simpl. rewrite map_map.
      erewrite map_ext; [exact Hi|].
      intros r. simpl. destruct (r_id r =? i); reflexivity.
  - rewrite (upsert_insert_path now a topic db u Hres Hsel). simpl.
    split.
    + intros v. unfold rows_with_url. simpl. rewrite filter_app, length_app.
      simpl. destruct (String.eqb_spec u v) as [->|Hne]; simpl.
      * apply select_None in Hsel. unfold rows_with_url in Hsel.
        rewrite Hsel. simpl. lia.
      * specialize (Hu v). unfold rows_with_url in Hu. lia.
    + unfold unique_ids. simpl. rewrite map_app. simpl.
      apply NoDup_app_remove_l with (l := []). simpl.
      apply Permutation_NoDup with
        (l := next_rowid (map r_id (articles db)) (articles_seq db)
              :: map r_id (articles db)).
      * apply Permutation_cons_append.
      * constructor; [apply next_rowid_not_in | exact Hi].
Qed.

Lemma int_or_0_Some (n : Z) : int_or_0 (Some n) = n.
Proof. simpl. destruct (Z.eqb_spec n 0); congruence. Qed.

(** The entity a successful call leaves under the URL, and where it came
    from. *)
Lemma upsert_entity (now : string) (a : Article) (topic : option string)
    (db : Database) (u : string) :
  well_formed db -> resolves_to a u ->
  exists i db1 r1,
    upsert_article now a topic db = Ok (i, db1) /\
    rows_with_url u db1 = [r1] /\ r_id r1 = i /\ well_formed db1 /\
    ((exists r0, rows_with_url u db = [r0] /\
                 r1 = update_row now a topic r0) \/
     (rows_with_url u db = [] /\ r1 = insert_row now i u a topic)).
Proof.
  intros Hwf Hres.
  pose proof (upsert_well_formed now a topic db u Hwf Hres) as Hwf1.
  destruct (select_id_by_url u db) as [i|] eqn:Hsel.
  - rewrite (upsert_update_path now a topic db u i Hres Hsel) in *.
    simpl in Hwf1.
    pose proof Hsel as Hrows. rewrite select_rows in Hrows.
    destruct Hwf as [Hu _]. specialize (Hu u).
    destruct (rows_with_url u db) as [|r0 [|r0' rest]] eqn:Hr;
      simpl in Hrows, Hu; [discriminate | | lia].
    injection Hrows as Hid.
    eexists _, _, (update_row now a topic r0).
    split; [reflexivity|].
    split; [|split; [exact Hid | split; [exact Hwf1|]]].
    + unfold rows_with_url at 1. simpl.
      rewrite rows_after_update, Hr. simpl.
      rewrite Hid, Z.eqb_refl. reflexivity.
    + left. exists r0. split; reflexivity.
  - rewrite (upsert_insert_path now a topic db u Hres Hsel) in *.
    simpl in Hwf1. apply select_None in Hsel.
    eexists _, _, _. split; [reflexivity|].
    split; [|split; [|split; [exact Hwf1|]]].
    + unfold rows_with_url in *. simpl. rewrite filter_app, Hsel.
      simpl. rewrite String.eqb_refl. reflexivity.
    + reflexivity.
    + right. split; [exact Hsel | reflexivity].
Qed.

(** C10: on the update path of [upsert_article], when a row with the
    incoming canonical URL is already stored, no row's [url] or
    [inserted_at] (or [id]) changes, whatever the incoming record holds;
    rows of another id and the content table are left as they were, so only
    the other attribute columns and [updated_at] of the matched row can
    change. *)
Theorem upsert_update_keeps_url_and_inserted_at (now : string)
    (a : Article) (topic : option string) (db : Database) (u : string)
    (i : Z) :
  resolves_to a u -> select_id_by_url u db = Some i ->
  exists db',
    upsert_article now a topic db = Ok (i, db') /\
    Forall2 (fun r r' =>
               r_id r' = r_id r /\ r_url r' = r_url r /\
               r_inserted_at r' = r_inserted_at r /\
               (r_id r <> i -> r' = r))
            (articles db) (articles db') /\
    crawled_content db' = crawled_content db.
Proof.
  intros Hres Hsel.
  rewrite (upsert_update_path now a topic db u i Hres Hsel).
  eexists. split; [reflexivity|]. simpl. split; [|reflexivity].
  induction (articles db) as [|r l IH]; simpl; constructor; [|exact IH].
  destruct (Z.eqb_spec (r_id r) i); simpl; intuition congruence.
Qed.

Lemma upsert_update_keeps_url_and_inserted_at_witness :
  exists db',
    upsert_article "t1" (only_url "u") (Some "ai") one_entity
      = Ok (1, db') /\
    Forall2 (fun r r' =>
               r_id r' = r_id r /\ r_url r' = r_url r /\
               r_inserted_at r' = r_inserted_at r /\
               (r_id r <> 1 -> r' = r))
            (articles one_entity) (articles db') /\
    crawled_content db' = crawled_content one_entity.
Proof.
  apply (upsert_update_keeps_url_and_inserted_at
           "t1" (only_url "u") (Some "ai") one_entity "u" 1).
  - split; [reflexivity | discriminate].
  - reflexivity.
Defined.

Lemma stored_update (now : string) (a : Article) (topic : option string)
    (r : ArticleRow) (c : column) :
  stored c (update_row now a topic r) =
  merged (supplied c a topic) (stored c r).
Proof.
  destruct c; simpl;
    match goal with
    | |- context [COALESCE ?x _] => destruct x; reflexivity
    end.
Qed.

Lemma stored_insert (now : string) (i : Z) (u : string) (a : Article)
    (topic : option string) (c : column) :
  stored c (insert_row now i u a topic) =
  match supplied c a topic with
  | Null => if is_numeric c then Int 0 else Null
  | v => v
  end.
Proof.
  destruct c; cbn [stored supplied insert_row is_numeric of_text of_int
                   r_title r_source r_author r_created_at r_published_date
                   r_points r_comments_count r_description r_abstract
                   r_category r_arxiv_id r_hn_url r_topic];
    match goal with
    | |- context [int_or_0 ?x] =>
        destruct x; [rewrite int_or_0_Some|]; reflexivity
    | |- context [of_text ?x] => destruct x; reflexivity
    end.
Qed.

(** C1 (amended): for records A and B resolving to the same canonical URL,
    [upsert(A)] then [upsert(B)] succeed with the same id and leave exactly
    one stored entity under that URL; every column B supplies as non-null
    holds B's value, every column B leaves null keeps the value stored
    after [upsert(A)], and [updated_at] is the time of the second call. In
    particular a column B leaves null still equals A's value wherever A
    supplied one; a column neither supplied, on a store that did not hold
    the URL, is null for the text columns and 0 for [points] and
    [comments_count]. *)
Theorem upsert_twice_merges (db : Database) (now1 now2 : string)
    (A B : Article) (tA tB : option string) (u : string) :
  well_formed db -> resolves_to A u -> resolves_to B u ->
  exists i db1 db2 r1 r2,
    upsert_article now1 A tA db = Ok (i, db1) /\
    upsert_article now2 B tB db1 = Ok (i, db2) /\
    rows_with_url u db1 = [r1] /\
    rows_with_url u db2 = [r2] /\
    (forall c, stored c r2 = merged (supplied c B tB) (stored c r1)) /\
    r_updated_at r2 = Some now2 /\
    (forall c, supplied c B tB = Null -> supplied c A tA <> Null ->
               stored c r2 = supplied c A tA) /\
    (forall c, supplied c B tB = Null -> supplied c A tA = Null ->
               rows_with_url u db = [] ->
               stored c r2 = if is_numeric c then Int 0 else Null).
Proof.
  intros Hwf HA HB.
  destruct (upsert_entity now1 A tA db u Hwf HA)
    as (i & db1 & r1 & E1 & R1 & I1 & Hwf1 & Horigin).
  destruct (upsert_entity now2 B tB db1 u Hwf1 HB)
    as (i2 & db2 & r2 & E2 & R2 & I2 & _ & Hsecond).
  destruct Hsecond as [(r0 & R0 & ->) | [R0 _]];
    [|rewrite R1 in R0; discriminate].
  rewrite R1 in R0. injection R0 as <-.
  simpl in I2. rewrite I1 in I2. subst i2.
  exists i, db1, db2, r1, (update_row now2 B tB r1).
  repeat (split; [assumption || reflexivity|]).
  split; [intros c; apply stored_update|].
  split; [reflexivity|].
  split.
  - intros c HBc HAc. rewrite stored_update, HBc. simpl.
    destruct Horigin as [(r0 & _ & ->) | [_ ->]].
    + rewrite stored_update.
      destruct (supplied c A tA) eqn:E; simpl; congruence.
    + rewrite stored_insert.
      destruct (supplied c A tA) eqn:E; simpl; congruence.
  - intros c HBc HAc Hfresh. rewrite stored_update, HBc. simpl.
    destruct Horigin as [(r0 & R0 & _) | [_ ->]]; [congruence|].
    rewrite stored_insert, HAc. reflexivity.
Qed.

Lemma upsert_twice_merges_witness :
  exists i db1 db2 r1 r2,
    upsert_article "t1" (only_url "u") (Some "ai") empty = Ok (i, db1) /\
    upsert_article "t2" (only_url "u") None db1 = Ok (i, db2) /\
    rows_with_url "u" db1 = [r1] /\
    rows_with_url "u" db2 = [r2] /\
    (forall c, stored c r2 =
               merged (supplied c (only_url "u") None) (stored c r1)) /\
    r_updated_at r2 = Some "t2" /\
    (forall c, supplied c (only_url "u") None = Null ->
               supplied c (only_url "u") (Some "ai") <> Null ->
               stored c r2 = supplied c (only_url "u") (Some "ai")) /\
    (forall c, supplied c (only_url "u") None = Null ->
               supplied c (only_url "u") (Some "ai") = Null ->
               rows_with_url "u" empty = [] ->
               stored c r2 = if is_numeric c then Int 0 else Null).
Proof.
  apply (upsert_twice_merges empty "t1" "t2" (only_url "u") (only_url "u")
           (Some "ai") None "u").
  - split; [intros v; cbn; lia | constructor].
  - split; [reflexivity | discriminate].
  - split; [reflexivity | discriminate].
Defined.

(** C1 as worded fails in its last clause: a record that leaves [points]
    null is stored with [points] = 0 on first insert, so after
    [upsert(A); upsert(B)] with both leaving it null the column holds 0,
    not A's null. *)
Lemma upsert_twice_null_points_counterexample :
  ~ (forall (db : Database) (now1 now2 : string) (A B : Article)
            (tA tB : option string) (u : string) (c : column)
            (r2 : ArticleRow),
       well_formed db -> resolves_to A u -> resolves_to B u ->
       supplied c B tB = Null ->
       rows_with_url u (upsert_twice now1 A tA now2 B tB db) = [r2] ->
       stored c r2 = supplied c A tA).
Proof.
  intros H.
  assert (Hwf : well_formed empty)
    by (split; [intros v; cbn; lia | constructor]).
  assert (Hu : resolves_to (only_url "u") "u")
    by (split; [reflexivity | discriminate]).
  pose proof (H empty "t1" "t2" (only_url "u") (only_url "u") None None
                "u" col_points _ Hwf Hu Hu eq_refl eq_refl) as Hc.
  discriminate Hc.
Qed.

End UpsertFacts.

(* ================================================================== *)
(** ** Identity resolution and the ingest batch *)
(* ================================================================== *)

Module IngestFacts.
Import Py Db Store Cli Batch.
Local Open Scope list_scope.

Lemma identity_resolves (a : Article) :
  match identity a with
  | Some u => resolves_to a u
  | None => truthy (canonical_url a) = false
  end.
Proof.
  unfold identity, resolves_to, canonical_url, or_. simpl.
  destruct (url a) as [s1|]; simpl;
    [destruct (String.eqb_spec s1 ""); simpl|];
  (destruct (arxiv_url a) as [s2|]; simpl;
    [destruct (String.eqb_spec s2 ""); simpl|]);
  (destruct (hn_url a) as [s3|]; simpl;
    [destruct (String.eqb_spec s3 ""); simpl|]);
  subst; simpl;
  repeat match goal with
         | |- context [String.eqb ?x ""] =>
             destruct (String.eqb_spec x ""); [congruence|]; simpl
         end;
  auto.
Qed.

Lemma upsert_missing (now : string) (a : Article) (topic : option string)
    (db : Database) :
  identity a = None ->
  upsert_article now a topic db = Raise missing_url.
Proof.
  intros Hid. pose proof (identity_resolves a) as H. rewrite Hid in H.
  unfold upsert_article. rewrite H. reflexivity.
Qed.

Lemma upsert_ok (now : string) (a : Article) (topic : option string)
    (db : Database) :
  identity a <> None ->
  exists i db', upsert_article now a topic db = Ok (i, db').
Proof.
  intros Hid. pose proof (identity_resolves a) as H.
  destruct (identity a) as [u|]; [|contradiction].
  destruct (select_id_by_url u db) as [i|] eqn:Hsel.
  - eexists _, _. apply (UpsertFacts.upsert_update_path _ _ _ _ u i H Hsel).
  - eexists _, _. apply (UpsertFacts.upsert_insert_path _ _ _ _ u H Hsel).
Qed.

(** A loop over records that all resolve runs to its end. *)
Lemma for_each_resolved (utcnow : nat -> string) (topic : string)
    (records : list Article) (s : Ingest) :
  Forall (fun a => identity a <> None) records ->
  exists s', for_each (upsert_and_record utcnow topic) records s = Done s'.
Proof.
  intros Hall. revert s.
  induction Hall as [|a l Ha _ IH]; intros s; simpl.
  - eauto.
  - unfold upsert_and_record at 1.
    destruct (upsert_ok (utcnow (ticks s)) a (Some topic) (db s) Ha)
      as (i & db' & ->).
    apply IH.
Qed.

(** The loop stops at the first record without identifier. *)
Lemma for_each_aborts (utcnow : nat -> string) (topic : string)
    (before after : list Article) (bad : Article) (s s0 : Ingest) :
  for_each (upsert_and_record utcnow topic) before s = Done s0 ->
  identity bad = None ->
  for_each (upsert_and_record utcnow topic) (before ++ bad :: after) s =
  Uncaught missing_url (tick s0).
Proof.
  revert s. induction before as [|a l IH]; intros s Hrun Hbad; simpl in *.
  - injection Hrun as <-. unfold upsert_and_record.
    rewrite (upsert_missing _ _ _ _ Hbad). reflexivity.
  - destruct (upsert_and_record utcnow topic a s) as [s1|e s1];
      [auto | discriminate].
Qed.

(** Nothing but the missing-URL error leaves the loops, and a record
    without identifier anywhere in a loop makes it leave. *)
Lemma record_uncaught (utcnow : nat -> string) (topic : string)
    (a : Article) (s : Ingest) (e : exn) (s' : Ingest) :
  upsert_and_record utcnow topic a s = Uncaught e s' -> e = missing_url.
Proof.
  unfold upsert_and_record.
  destruct (identity a) eqn:Hid.
  - destruct (upsert_ok (utcnow (ticks s)) a (Some topic) (db s))
      as (i & db' & ->); [congruence | discriminate].
  - rewrite (upsert_missing _ _ _ _ Hid). congruence.
Qed.

Lemma record_missing (utcnow : nat -> string) (topic : string)
    (a : Article) (s : Ingest) :
  identity a = None ->
  upsert_and_record utcnow topic a s = Uncaught missing_url (tick s).
Proof.
  intros Hid. unfold upsert_and_record.
  rewrite (upsert_missing _ _ _ _ Hid). reflexivity.
Qed.

Lemma identity_set_url (a : Article) :
  identity a = None ->
  identity (set_url (or_ (arxiv_url a) (url a)) a) = None.
Proof.
  unfold identity, or_. simpl.
  destruct (url a) as [s1|]; simpl;
    [destruct (String.eqb_spec s1 ""); simpl|];
  (destruct (arxiv_url a) as [s2|]; simpl;
    [destruct (String.eqb_spec s2 ""); simpl|]);
  subst; simpl; try discriminate;
  repeat match goal with
         | |- context [String.eqb ?x ""] =>
             destruct (String.eqb_spec x ""); [|congruence]; simpl
         end;
  auto.
Qed.

Lemma for_each_only {S A} (body : A -> S -> outcome S) (e0 : exn) :
  (forall a s e s', body a s = Uncaught e s' -> e = e0) ->
  forall l s e s', for_each body l s = Uncaught e s' -> e = e0.
Proof.
  intros Hbody l. induction l as [|a l IH]; intros s e s' H; simpl in H.
  - discriminate.
  - destruct (body a s) as [s1|e1 s1] eqn:Ha.
    + eapply IH; exact H.
    + injection H as <- <-. eapply Hbody; exact Ha.
Qed.

Lemma for_each_Exists {S A} (body : A -> S -> outcome S) (P : A -> Prop)
    (e0 : exn) :
  (forall a s, P a -> exists s', body a s = Uncaught e0 s') ->
  (forall a s e s', body a s = Uncaught e s' -> e = e0) ->
  forall l s, Exists P l -> exists s', for_each body l s = Uncaught e0 s'.
Proof.
  intros Hbad Honly l. induction l as [|a l IH]; intros s Hex.
  - inversion Hex.
  - simpl. destruct (body a s) as [s1|e1 s1] eqn:Ha.
    + inversion Hex as [? ? Hp|? ? Hl]; subst.
      * destruct (Hbad a s Hp) as [s' Hs']. congruence.
      * apply IH, Hl.
    + rewrite (Honly _ _ _ _ Ha). eauto.
Qed.

Lemma for_each_app {S A} (body : A -> S -> outcome S) (l1 l2 : list A)
    (s : S) :
  for_each body (l1 ++ l2) s =
  match for_each body l1 s with
  | Done s1 => for_each body l2 s1
  | Uncaught e s1 => Uncaught e s1
  end.
Proof.
  revert s. induction l1 as [|a l1 IH]; intros s; simpl; [reflexivity|].
  destruct (body a s); [apply IH | reflexivity].
Qed.

Lemma for_each_map {S A B} (f : A -> B) (body : B -> S -> outcome S)
    (l : list A) (s : S) :
  for_each (fun a => body (f a)) l s = for_each body (map f l) s.
Proof.
  revert s. induction l as [|a l IH]; intros s; simpl; [reflexivity|].
  destruct (body (f a) s); [apply IH | reflexivity].
Qed.

(** The three loops are one loop over the records in upsert order. *)
Lemma persist_metadata_one_loop (utcnow : nat -> string) (topic : string)
    (results : Results) (s : Ingest) :
  persist_metadata utcnow topic results s =
  for_each (upsert_and_record utcnow topic) (upserted results) s.
Proof.
  unfold persist_metadata, upserted. rewrite for_each_app.
  destruct (for_each _ (hackernews results) s) as [s1|e s1];
    [|reflexivity].
  rewrite for_each_app.
  change (upsert_arxiv utcnow topic)
    with (fun a => upsert_and_record utcnow topic (arxiv_record a)).
  rewrite for_each_map. reflexivity.
Qed.

Lemma identity_arxiv_record (a : Article) :
  identity (arxiv_record a) = None <-> identity a = None.
Proof.
  split; [|apply identity_set_url].
  unfold arxiv_record, identity, or_, truthy. simpl.
  destruct (url a) as [s1|], (arxiv_url a) as [s2|],
    (hn_url a) as [s3|]; simpl;
    repeat match goal with
           | |- context [String.eqb ?x ""] =>
               let E := fresh "E" in
               destruct (String.eqb x "") eqn:E; simpl; rewrite ?E; simpl
           end;
    congruence.
Qed.

(** A successful upsert leaves an entity under the record's URL and
    loses none that was stored. *)
Lemma upsert_stores (now : string) (a : Article) (topic : option string)
    (db db' : Database) (u : string) (i : Z) :
  resolves_to a u -> upsert_article now a topic db = Ok (i, db') ->
  rows_with_url u db' <> [] /\
  forall v, rows_with_url v db <> [] -> rows_with_url v db' <> [].
Proof.
  intros Hu Hup.
  destruct (select_id_by_url u db) as [i0|] eqn:Hsel.
  - rewrite (UpsertFacts.upsert_update_path _ _ _ _ u i0 Hu Hsel) in Hup.
    injection Hup as <- <-.
    assert (Hkeep : forall v, rows_with_url v db <> [] ->
              rows_with_url v
                (set_articles
                   (map (fun r => if r_id r =? i0
                                  then update_row now a topic r else r)
                      (articles db)) (articles_seq db) db) <> []).
    { intros v Hv. unfold rows_with_url at 1. cbn [articles set_articles].
      rewrite UpsertFacts.rows_after_update.
      destruct (rows_with_url v db); [contradiction | discriminate]. }
    split; [|exact Hkeep]. apply Hkeep.
    rewrite UpsertFacts.select_rows in Hsel.
    destruct (rows_with_url u db); [discriminate Hsel | discriminate].
  - rewrite (UpsertFacts.upsert_insert_path _ _ _ _ u Hu Hsel) in Hup.
    injection Hup as <- <-.
    unfold rows_with_url. cbn [articles set_articles].
    split.
    + rewrite filter_app. cbn [filter insert_row r_url text_eq].
      rewrite String.eqb_refl.
      destruct (filter _ (articles db)); discriminate.
    + intros v Hv. rewrite filter_app. intros E.
      apply app_eq_nil in E as [E _]. exact (Hv E).
Qed.

(** A loop over records that all resolve runs to its end, reads the
    clock once per record, stores every record and loses nothing. *)
Lemma for_each_stores (utcnow : nat -> string) (topic : string)
    (records : list Article) (s : Ingest) :
  Forall (fun a => identity a <> None) records ->
  exists s0,
    for_each (upsert_and_record utcnow topic) records s = Done s0 /\
    ticks s0 = (ticks s + List.length records)%nat /\
    (forall v, rows_with_url v (db s) <> [] ->
               rows_with_url v (db s0) <> []) /\
    (forall a u, In a records -> resolves_to a u ->
                 rows_with_url u (db s0) <> []).
Proof.
  intros Hall. revert s.
  induction Hall as [|a l Ha _ IH]; intros s.
  - exists s. cbn [for_each List.length].
    split; [reflexivity|]. split; [lia|].
    split; [auto | intros a u []].
  - cbn [for_each]. unfold upsert_and_record at 1.
    destruct (upsert_ok (utcnow (ticks s)) a (Some topic) (db s) Ha)
      as (i & db' & Hup).
    rewrite Hup.
    match goal with
    | |- context [for_each _ l ?s1] =>
        destruct (IH s1) as (s0 & Hrun & Ht & Hkeep & Hin)
    end.
    cbn [db ticks] in *.
    exists s0. split; [exact Hrun|]. split; [cbn [List.length]; lia|].
    split.
    + intros v Hv. apply Hkeep.
      pose proof (identity_resolves a) as Hr.
      destruct (identity a) as [u|]; [|contradiction].
      exact (proj2 (upsert_stores _ _ _ _ _ u i Hr Hup) v Hv).
    + intros b u [<-|Hb] Hu.
      * apply Hkeep. exact (proj1 (upsert_stores _ _ _ _ _ u i Hu Hup)).
      * exact (Hin b u Hb Hu).
Qed.

(** C2 (amended): the identity of a record is the first non-empty of its
    explicit URL, its preprint-abstract URL and its discussion-thread URL;
    with none present [upsert_article] raises the missing-URL error and
    stores nothing. In the ingest batch that error is not caught: a
    record without identifier anywhere in the batch ends the command with
    the error. Wherever the first such record stands in the upsert order
    (stories, then preprints under their abstract URL, then feed items),
    the command ends with the store and the id map exactly as the
    records before it left them: each of those is stored, nothing stored
    earlier is lost, the clock was read once for each of them and once
    for the failing record, so no record after it is processed, and the
    index is not touched. *)
Theorem missing_identifier_aborts_batch :
  (forall a : Article,
      match identity a with
      | Some u => resolves_to a u
      | None => truthy (canonical_url a) = false
      end) /\
  (forall now a topic db,
      identity a = None ->
      upsert_article now a topic db = Raise missing_url) /\
  (forall a : Article,
      identity (arxiv_record a) = None <-> identity a = None) /\
  (forall utcnow topic results s,
      Exists (fun a => identity a = None)
             (hackernews results ++ arxiv results ++ rss results) ->
      exists s',
        persist_metadata utcnow topic results s = Uncaught missing_url s') /\
  (forall utcnow (Embedding : Type) (encode : string -> Embedding)
          order_by topic results s index before bad after,
      upserted results = before ++ bad :: after ->
      Forall (fun a => identity a <> None) before ->
      identity bad = None ->
      exists s0,
        for_each (upsert_and_record utcnow topic) before s = Done s0 /\
        persist_metadata utcnow topic results s
          = Uncaught missing_url (tick s0) /\
        cmd_ingest utcnow Embedding encode order_by topic results s index
          = Uncaught missing_url (tick s0, index) /\
        ticks (tick s0) = S (ticks s + List.length before) /\
        (forall a u, In a before -> resolves_to a u ->
                     rows_with_url u (db (tick s0)) <> []) /\
        (forall v, rows_with_url v (db s) <> [] ->
                   rows_with_url v (db (tick s0)) <> [])).
Proof.
  split; [exact identity_resolves|].
  split; [exact upsert_missing|].
  split; [exact identity_arxiv_record|].
  split.
  - intros utcnow topic results s Hex.
    assert (Hrec : forall l s0,
               Exists (fun a => identity a = None) l ->
               exists s',
                 for_each (upsert_and_record utcnow topic) l s0
                 = Uncaught missing_url s').
    { apply for_each_Exists; [|apply record_uncaught].
      intros a s0 Ha. rewrite (record_missing _ _ _ _ Ha). eauto. }
    assert (Harx : forall l s0,
               Exists (fun a => identity a = None) l ->
               exists s',
                 for_each (upsert_arxiv utcnow topic) l s0
                 = Uncaught missing_url s').
    { apply for_each_Exists.
      - intros a s0 Ha. unfold upsert_arxiv.
        rewrite (record_missing _ _ _ _ (identity_set_url a Ha)). eauto.
      - intros a s0 e s'. unfold upsert_arxiv. apply record_uncaught. }
    unfold persist_metadata.
    destruct (for_each (upsert_and_record utcnow topic) (hackernews results)
                s) as [s1|e1 s1] eqn:H1.
    + apply Exists_app in Hex as [Hex|Hex].
      { destruct (Hrec _ s Hex) as [s' Hs']. congruence. }
      destruct (for_each (upsert_arxiv utcnow topic) (arxiv results) s1)
        as [s2|e2 s2] eqn:H2.
      * apply Exists_app in Hex as [Hex|Hex].
        { destruct (Harx _ s1 Hex) as [s' Hs']. congruence. }
        apply Hrec, Hex.
      * assert (e2 = missing_url) as ->; [|eauto].
        eapply for_each_only; [|exact H2].
        intros a s0 e s'. unfold upsert_arxiv. apply record_uncaught.
    + assert (e1 = missing_url) as ->; [|eauto].
      eapply for_each_only; [|exact H1]. apply record_uncaught.
  - intros utcnow Embedding encode order_by topic results s index
      before bad after Hsplit Hbefore Hbad.
    destruct (for_each_stores utcnow topic before s Hbefore)
      as (s0 & Hrun & Ht & Hkeep & Hin).
    assert (Hpm : persist_metadata utcnow topic results s
                  = Uncaught missing_url (tick s0)).
    { rewrite persist_metadata_one_loop, Hsplit.
      exact (for_each_aborts utcnow topic before after bad s s0 Hrun Hbad). }
    exists s0. split; [exact Hrun|]. split; [exact Hpm|].
    split; [unfold cmd_ingest; rewrite Hpm; reflexivity|].
    split; [cbn [tick ticks]; lia|].
    split; [exact Hin | exact Hkeep].
Qed.

Lemma missing_identifier_aborts_batch_witness :
  let results :=
    {| hackernews := [only_url "http://h"];
       arxiv := [Samples.preprint "https://arxiv.org/abs/1"];
       rss := [feed_item "http://r"; feed_item ""; feed_item "http://u"];
       crawled_content := [] |} in
  let before :=
    [only_url "http://h";
     arxiv_record (Samples.preprint "https://arxiv.org/abs/1");
     feed_item "http://r"] in
  exists s0,
    for_each (upsert_and_record (fun _ => "t") "ai") before fresh
      = Done s0 /\
    persist_metadata (fun _ => "t") "ai" results fresh
      = Uncaught missing_url (tick s0) /\
    cmd_ingest (fun _ => "t") unit (fun _ => tt) (fun rows => rows) "ai"
      results fresh []
      = Uncaught missing_url (tick s0, []) /\
    ticks (tick s0) = S (ticks fresh + List.length before) /\
    (forall a u, In a before -> resolves_to a u ->
                 rows_with_url u (db (tick s0)) <> []) /\
    (forall v, rows_with_url v (db fresh) <> [] ->
               rows_with_url v (db (tick s0)) <> []).
Proof.
  apply (proj2 (proj2 (proj2 (proj2 missing_identifier_aborts_batch)))
           (fun _ => "t") unit (fun _ => tt) (fun rows => rows) "ai"
           _ fresh [] _ (feed_item "") [feed_item "http://u"]).
  - reflexivity.
  - repeat constructor; discriminate.
  - reflexivity.
Defined.

(** C2 as worded fails in its batch clause: with a feed item without
    link first among the feed items, the command ends with the error
    uncaught and the well-formed item behind it is never stored. *)
Lemma batch_does_not_continue_counterexample :
  let results :=
    {| hackernews := []; arxiv := [];
       rss := [feed_item ""; feed_item "http://u"];
       crawled_content := [] |} in
  resolves_to (feed_item "http://u") "http://u" /\
  persist_metadata (fun _ => "t") "ai" results fresh
    = Uncaught missing_url (tick fresh) /\
  rows_with_url "http://u"
    (db (state_of (persist_metadata (fun _ => "t") "ai" results fresh)))
    = [] /\
  ~ (forall utcnow topic results s u a,
       In a (hackernews results ++ arxiv results ++ rss results) ->
       resolves_to a u ->
       rows_with_url u
         (db (state_of (persist_metadata utcnow topic results s))) <> []).
Proof.
  cbv zeta. split; [split; [reflexivity | discriminate]|].
  split; [reflexivity|]. split; [reflexivity|].
  intros H.
  apply (H (fun _ => "t") "ai"
           {| hackernews := []; arxiv := [];
              rss := [feed_item ""; feed_item "http://u"];
              crawled_content := [] |}
           fresh "http://u" (feed_item "http://u")).
  - simpl. auto.
  - split; [reflexivity | discriminate].
  - reflexivity.
Qed.

End IngestFacts.

(* ================================================================== *)
(** ** Aggregates *)
(* ================================================================== *)

Module AggregateFacts.
Import Py Db Store.

(** The three article components range over the rows the WHERE clause
    keeps, and are zero when it keeps none. *)
Lemma aggregate_no_match (iso_cutoff : Z -> string) (topic : option string)
    (days : option Z) (db : Database) :
  filter (where_sql iso_cutoff topic days) (articles db) = [] ->
  s_articles (aggregate_signals iso_cutoff topic days db) = 0 /\
  s_hn_points (aggregate_signals iso_cutoff topic days db) = 0 /\
  s_hn_comments (aggregate_signals iso_cutoff topic days db) = 0.
Proof.
  intros H. unfold aggregate_signals. rewrite H. simpl. auto.
Qed.

(** C3 (the code departs from it): the content count of
    [aggregate_signals] is the size of the whole [crawled_content] table,
    whatever the topic and days filters are. On a store whose only entity
    was collected under topic "Y" and has content attached, the aggregate
    for topic "X" matches no row, and still reports one entity with
    content. *)
Theorem aggregate_content_count_unfiltered :
  (forall iso_cutoff topic days db,
      s_crawled_count (aggregate_signals iso_cutoff topic days db) =
      Z.of_nat (List.length (crawled_content db))) /\
  (forall iso_cutoff days,
      filter (where_sql iso_cutoff (Some "X") days)
             (articles one_entity_with_content) = [] /\
      aggregate_signals iso_cutoff (Some "X") days one_entity_with_content =
      {| s_articles := 0; s_hn_points := 0; s_hn_comments := 0;
         s_crawled_count := 1 |}).
Proof.
  split; [reflexivity|].
  intros iso_cutoff days. split; reflexivity.
Qed.

End AggregateFacts.

(* ================================================================== *)
(** ** Content attachment *)
(* ================================================================== *)

Module AttachFacts.
Import Py Db Store.
Local Open Scope list_scope.

Lemma content_after_update (now : string) (i j : Z) (u md : option string)
    (wc : option Z) (ca : option string) (db : Database) :
  filter (fun c => c_article_id c =? j)
    (map (fun c => if c_article_id c =? i
                   then update_content now u md wc ca c else c)
       (crawled_content db)) =
  map (fun c => if c_article_id c =? i
                then update_content now u md wc ca c else c)
    (content_of j db).
Proof.
  unfold content_of. apply UpsertFacts.filter_map_update.
  intros c. destruct (c_article_id c =? i); reflexivity.
Qed.

Lemma find_content (i : Z) (db : Database) :
  find (fun c => c_article_id c =? i) (crawled_content db) =
  hd_error (content_of i db).
Proof.
  unfold content_of.
  induction (crawled_content db) as [|c l IH]; [reflexivity|].
  simpl. destruct (c_article_id c =? i); [reflexivity | exact IH].
Qed.

(** The effect of one call on the content rows of every article. *)
Lemma content_after_attach (now : string) (i : Z) (u md : option string)
    (wc : option Z) (ca : option string) (db : Database) (j : Z) :
  content_of j (upsert_crawled_content now i u md wc ca db) =
  match content_of i db with
  | [] =>
      if j =? i
      then content_of j db ++
           [insert_content now
              (next_rowid (map c_id (crawled_content db))
                 (crawled_content_seq db)) i u md wc ca]
      else content_of j db
  | _ :: _ =>
      map (fun c => if c_article_id c =? i
                    then update_content now u md wc ca c else c)
        (content_of j db)
  end.
Proof.
  unfold upsert_crawled_content. rewrite find_content.
  destruct (content_of i db) as [|c0 rest] eqn:Hi; simpl.
  - unfold content_of at 1. simpl. rewrite filter_app. simpl.
    rewrite (Z.eqb_sym i j).
    destruct (j =? i); [reflexivity | apply app_nil_r].
  - unfold content_of at 1. simpl. apply content_after_update.
Qed.

Lemma attach_keeps_one (db : Database) (call : Attach) :
  one_content_per_article db -> one_content_per_article (attach db call).
Proof.
  intros H j. unfold attach. rewrite content_after_attach.
  destruct (content_of (at_article_id call) db) as [|c0 rest] eqn:Hi.
  - destruct (Z.eqb_spec j (at_article_id call)) as [->|_]; [|apply H].
    rewrite Hi. simpl. lia.
  - rewrite length_map. apply H.
Qed.

(** C7 (amended): [upsert_crawled_content] keeps at most one content row
    per article over any run of calls. On re-attachment it coalesces
    [crawled_at] only: a null incoming [crawled_at] leaves the stored one
    untouched, while [url] and [markdown_content] take the incoming value
    as it is, [word_count] takes the incoming value or 0 when that is
    null, and [updated_at] is refreshed; the articles and the content of
    other articles are left as they were. *)
Theorem attach_content_merges_crawled_at_only (db : Database)
    (calls : list Attach) (now : string) (i : Z) (u md : option string)
    (wc : option Z) (ca : option string) :
  one_content_per_article db ->
  one_content_per_article (attach_all calls db) /\
  (forall c0, content_of i db = [c0] ->
     content_of i (upsert_crawled_content now i u md wc ca db) =
     [{| c_id := c_id c0;
         c_article_id := i;
         c_url := u;
         c_markdown_content := md;
         c_word_count := Some (int_or_0 wc);
         c_crawled_at := COALESCE ca (c_crawled_at c0);
         c_updated_at := Some now |}]) /\
  (forall c0, content_of i db = [c0] -> ca = None ->
     exists c1,
       content_of i (upsert_crawled_content now i u md wc ca db) = [c1] /\
       c_crawled_at c1 = c_crawled_at c0) /\
  (forall j, j <> i ->
     content_of j (upsert_crawled_content now i u md wc ca db) =
     content_of j db) /\
  articles (upsert_crawled_content now i u md wc ca db) = articles db.
Proof.
  intros Hone. split; [|split; [|split; [|split]]].
  - revert db Hone. induction calls as [|call calls IH]; intros db Hone.
    + exact Hone.
    + simpl. apply IH. apply attach_keeps_one. exact Hone.
  - intros c0 H0. rewrite content_after_attach, H0. simpl.
    assert (Hid : c_article_id c0 = i).
    { assert (Hin : In c0 (content_of i db)) by (rewrite H0; left; auto).
      unfold content_of in Hin. apply filter_In in Hin as [_ Heq].
      apply Z.eqb_eq in Heq. exact Heq. }
    rewrite Hid, Z.eqb_refl. unfold update_content. rewrite Hid.
    reflexivity.
  - intros c0 H0 ->. rewrite content_after_attach, H0. simpl.
    eexists. split; [reflexivity|].
    destruct (c_article_id c0 =? i); reflexivity.
  - intros j Hj. rewrite content_after_attach.
    destruct (content_of i db) as [|c0 rest] eqn:Hi.
    + destruct (Z.eqb_spec j i); [contradiction | reflexivity].
    + erewrite map_ext_in; [apply map_id|].
      intros c Hc. unfold content_of in Hc.
      apply filter_In in Hc as [_ Heq]. apply Z.eqb_eq in Heq.
      destruct (Z.eqb_spec (c_article_id c) i); [congruence | reflexivity].
  - unfold upsert_crawled_content.
    destruct (find _ (crawled_content db)); reflexivity.
Qed.

Lemma attach_content_merges_crawled_at_only_witness :
  one_content_per_article
    (attach_all
       [{| at_now := "t2"; at_article_id := 1; at_url := Some "u";
           at_markdown := Some "new text"; at_word_count := Some 2;
           at_crawled_at := None |}] one_entity_with_content) /\
  (forall c0, content_of 1 one_entity_with_content = [c0] ->
     content_of 1
       (upsert_crawled_content "t2" 1 (Some "u") (Some "new text") None None
          one_entity_with_content) =
     [{| c_id := c_id c0;
         c_article_id := 1;
         c_url := Some "u";
         c_markdown_content := Some "new text";
         c_word_count := Some (int_or_0 None);
         c_crawled_at := COALESCE None (c_crawled_at c0);
         c_updated_at := Some "t2" |}]) /\
  (forall c0, content_of 1 one_entity_with_content = [c0] ->
     @None string = None ->
     exists c1,
       content_of 1
         (upsert_crawled_content "t2" 1 (Some "u") (Some "new text") None
            None one_entity_with_content) = [c1] /\
       c_crawled_at c1 = c_crawled_at c0) /\
  (forall j, j <> 1 ->
     content_of j
       (upsert_crawled_content "t2" 1 (Some "u") (Some "new text") None None
          one_entity_with_content) =
     content_of j one_entity_with_content) /\
  articles
    (upsert_crawled_content "t2" 1 (Some "u") (Some "new text") None None
       one_entity_with_content) = articles one_entity_with_content.
Proof.
  apply (attach_content_merges_crawled_at_only one_entity_with_content
           [{| at_now := "t2"; at_article_id := 1; at_url := Some "u";
               at_markdown := Some "new text"; at_word_count := Some 2;
               at_crawled_at := None |}]
           "t2" 1 (Some "u") (Some "new text") None None).
  intros j. unfold content_of.
  etransitivity; [apply filter_length_le | vm_compute; constructor].
Defined.

(** C7 as worded fails: a re-attachment that passes no word count and no
    text does not leave the stored ones untouched; the stored word count
    becomes 0 and the stored text becomes null. *)
Lemma attach_content_overwrites_counterexample :
  ~ (forall db now i u md wc ca c0 c1,
       content_of i db = [c0] ->
       content_of i (upsert_crawled_content now i u md wc ca db) = [c1] ->
       (u = None -> c_url c1 = c_url c0) /\
       (md = None -> c_markdown_content c1 = c_markdown_content c0) /\
       (wc = None -> c_word_count c1 = c_word_count c0) /\
       (ca = None -> c_crawled_at c1 = c_crawled_at c0)).
Proof.
  intros H.
  pose proof (H one_entity_with_content "t2" 1 (Some "u") None None None
                _ _ eq_refl eq_refl) as (_ & _ & Hwc & _).
  specialize (Hwc eq_refl). discriminate Hwc.
Qed.

End AttachFacts.

(* ================================================================== *)
(** ** Rows for embedding *)
(* ================================================================== *)

Module FetchFacts.
Import Py Db Store.
Local Open Scope list_scope.

Lemma string_leb_trans (a b c : string) :
  String.leb a b = true -> String.leb b c = true -> String.leb a c = true.
Proof.
  unfold String.leb. revert b c.
  induction a as [|x a IH]; intros [|y b] [|z c]; simpl;
    try reflexivity; try discriminate.
  unfold Ascii.compare.
  destruct (N.compare_spec (N_of_ascii x) (N_of_ascii y)) as [Exy|Lxy|Gxy];
    try discriminate;
    destruct (N.compare_spec (N_of_ascii y) (N_of_ascii z)) as [Eyz|Lyz|Gyz];
    try discriminate; intros H1 H2.
  - rewrite Exy, Eyz, N.compare_refl. eapply IH; eassumption.
  - rewrite Exy. apply N.compare_lt_iff in Lyz. rewrite Lyz. reflexivity.
  - rewrite <- Eyz. apply N.compare_lt_iff in Lxy. rewrite Lxy. reflexivity.
  - assert (L : (N_of_ascii x < N_of_ascii z)%N) by lia.
    apply N.compare_lt_iff in L. rewrite L. reflexivity.
Qed.

Lemma text_le_trans (x y z : option string) :
  text_le x y = true -> text_le y z = true -> text_le x z = true.
Proof.
  destruct x, y, z; simpl; try reflexivity; try discriminate.
  apply string_leb_trans.
Qed.

Lemma text_le_total (x y : option string) :
  text_le x y = false -> text_le y x = true.
Proof.
  destruct x as [a|], y as [b|]; simpl; try reflexivity; try discriminate.
  destruct (String.leb_total a b) as [H|H]; congruence.
Qed.

Lemma insert_desc_perm (j : Joined) (l : list Joined) :
  Permutation (j :: l) (insert_desc j l).
Proof.
  induction l as [|k l IH]; simpl; [reflexivity|].
  destruct (published_desc k j); [|reflexivity].
  rewrite perm_swap. constructor. exact IH.
Qed.

Lemma insert_desc_sorted (j : Joined) (l : list Joined) :
  StronglySorted desc l -> StronglySorted desc (insert_desc j l).
Proof.
  induction 1 as [|k l Hs IH Hk]; simpl.
  - repeat constructor.
  - destruct (published_desc k j) eqn:Hkj.
    + constructor; [exact IH|].
      rewrite <- (insert_desc_perm j l). constructor; assumption.
    + assert (Hjk : desc j k) by (apply text_le_total; exact Hkj).
      constructor; [constructor; assumption|].
      constructor; [exact Hjk|].
      eapply Forall_impl; [|exact Hk].
      intros x Hx. unfold desc, published_desc in *.
      eapply text_le_trans; eassumption.
Qed.

Lemma sort_scan_from (acc l : list Joined) :
  StronglySorted desc acc ->
  Permutation (l ++ acc) (fold_left (fun a j => insert_desc j a) l acc) /\
  StronglySorted desc (fold_left (fun a j => insert_desc j a) l acc).
Proof.
  revert acc. induction l as [|j l IH]; intros acc Hacc; simpl.
  - split; [reflexivity | exact Hacc].
  - destruct (IH (insert_desc j acc) (insert_desc_sorted j acc Hacc))
      as [Hp Hs].
    split; [|exact Hs].
    rewrite <- Hp, <- insert_desc_perm. apply Permutation_middle.
Qed.

Lemma sort_scan_orders : orders_by_published_desc sort_scan.
Proof.
  intros l. unfold sort_scan.
  destruct (sort_scan_from [] l (SSorted_nil _)) as [Hp Hs].
  rewrite app_nil_r in Hp. split; assumption.
Qed.

Lemma sort_index_backward_orders :
  orders_by_published_desc sort_index_backward.
Proof.
  intros l. unfold sort_index_backward.
  destruct (sort_scan_orders (rev l)) as [Hp Hs].
  split; [|exact Hs]. rewrite <- Hp. apply Permutation_rev.
Qed.

(** The left outer join holds every article: with its content rows when
    it has some, once and without content when it has none; and it holds
    nothing else. *)
Lemma left_join_complete (db : Database) (a : ArticleRow) :
  In a (articles db) ->
  match content_of (r_id a) db with
  | [] => In (a, None) (left_join db)
  | cs => forall c, In c cs -> In (a, Some c) (left_join db)
  end.
Proof.
  intros Hin. unfold left_join, content_of.
  destruct (filter _ (crawled_content db)) as [|c0 cs] eqn:Hf.
  - apply in_flat_map. exists a. split; [exact Hin|]. rewrite Hf. left; auto.
  - intros c Hc. apply in_flat_map. exists a. split; [exact Hin|].
    rewrite Hf. apply (in_map (fun c => (a, Some c))). exact Hc.
Qed.

Lemma left_join_sound (db : Database) (a : ArticleRow)
    (cc : option ContentRow) :
  In (a, cc) (left_join db) ->
  In a (articles db) /\
  match cc with
  | None => content_of (r_id a) db = []
  | Some c => In c (content_of (r_id a) db)
  end.
Proof.
  unfold left_join, content_of. intros Hin.
  apply in_flat_map in Hin as (a' & Ha' & Hin).
  destruct (filter _ (crawled_content db)) as [|c0 cs] eqn:Hf.
  - destruct Hin as [E|[]]. injection E as <- <-. auto.
  - apply in_map_iff in Hin as (c & E & Hc). injection E as <- <-.
    rewrite Hf. auto.
Qed.

(** C8 (amended): [fetch_articles_for_embedding] returns the left outer
    join of the stored entities with their content: every entity is in
    it, each row exposes the entity's title, description and abstract, and
    the content text is the attached text, or the empty string when the
    entity has no content row (or a null text); the sequence is ordered by
    publication time descending, null dates last. The query names no
    second sort key, so the order among rows of equal publication time is
    whatever the engine's sorter yields. *)
Theorem fetch_is_left_join_by_date_desc
    (order_by : list Joined -> list Joined) (db : Database) :
  orders_by_published_desc order_by ->
  exists rows,
    fetch_articles_for_embedding order_by db =
      map select_embedding_columns rows /\
    Permutation (left_join db) rows /\
    StronglySorted desc rows /\
    (forall a, In a (articles db) ->
       match content_of (r_id a) db with
       | [] => In (a, None) rows
       | cs => forall c, In c cs -> In (a, Some c) rows
       end) /\
    (forall a cc, In (a, cc) rows ->
       let row := select_embedding_columns (a, cc) in
       In a (articles db) /\
       e_title row = r_title a /\
       e_description row = r_description a /\
       e_abstract row = r_abstract a /\
       match cc with
       | None => content_of (r_id a) db = [] /\ e_markdown_content row = ""
       | Some c =>
           In c (content_of (r_id a) db) /\
           e_markdown_content row =
             Preprocess.or_empty (c_markdown_content c)
       end).
Proof.
  intros Horder. destruct (Horder (left_join db)) as [Hp Hs].
  exists (order_by (left_join db)).
  split; [reflexivity|]. split; [exact Hp|]. split; [exact Hs|]. split.
  - intros a Ha. pose proof (left_join_complete db a Ha) as H.
    destruct (content_of (r_id a) db).
    + eapply Permutation_in; eassumption.
    + intros c' Hc. eapply Permutation_in; [exact Hp | auto].
  - intros a cc Hin.
    apply (Permutation_in _ (Permutation_sym Hp)) in Hin.
    destruct (left_join_sound db a cc Hin) as [Ha Hcc].
    simpl. repeat (split; [assumption || reflexivity|]).
    destruct cc as [c|]; split; try assumption; try reflexivity.
    destruct (c_markdown_content c); reflexivity.
Qed.

Lemma fetch_is_left_join_by_date_desc_witness :
  exists rows,
    fetch_articles_for_embedding sort_scan two_of_one_date =
      map select_embedding_columns rows /\
    Permutation (left_join two_of_one_date) rows /\
    StronglySorted desc rows /\
    (forall a, In a (articles two_of_one_date) ->
       match content_of (r_id a) two_of_one_date with
       | [] => In (a, None) rows
       | cs => forall c, In c cs -> In (a, Some c) rows
       end) /\
    (forall a cc, In (a, cc) rows ->
       let row := select_embedding_columns (a, cc) in
       In a (articles two_of_one_date) /\
       e_title row = r_title a /\
       e_description row = r_description a /\
       e_abstract row = r_abstract a /\
       match cc with
       | None =>
           content_of (r_id a) two_of_one_date = [] /\
           e_markdown_content row = ""
       | Some c =>
           In c (content_of (r_id a) two_of_one_date) /\
           e_markdown_content row =
             Preprocess.or_empty (c_markdown_content c)
       end).
Proof.
  apply (fetch_is_left_join_by_date_desc sort_scan two_of_one_date).
  exact sort_scan_orders.
Defined.

(** C8 as worded fails in its tie-break: "a" was inserted before "b" and
    both carry the same publication time, yet a sorter that meets the
    ORDER BY clause (the backward walk of the index on [published_date])
    returns "b" first. *)
Lemma fetch_ties_not_insertion_order_counterexample :
  ~ (forall order_by : list Joined -> list Joined,
       orders_by_published_desc order_by ->
       map e_url (fetch_articles_for_embedding order_by two_of_one_date) =
       [Some "a"; Some "b"]).
Proof.
  intros H. specialize (H sort_index_backward sort_index_backward_orders).
  vm_compute in H. discriminate H.
Qed.

End FetchFacts.

(* ================================================================== *)
(** ** Embedding documents *)
(* ================================================================== *)

Module StripFacts.
Import Py Preprocess.

Lemma lstrip_tight (s : string) (c : ascii) (rest : string) :
  lstrip s = String c rest -> is_space c = false.
Proof.
  induction s as [|a s IH]; simpl; [discriminate|].
  destruct (is_space a) eqn:Ha; [exact IH|].
  intros E. injection E as <- _. exact Ha.
Qed.

Lemma rstrip_cons (a : ascii) (s : string) :
  rstrip (String a s) =
  match rstrip s with
  | EmptyString => if is_space a then EmptyString else String a EmptyString
  | t => String a t
  end.
Proof. reflexivity. Qed.

Lemma rstrip_idempotent (s : string) : rstrip (rstrip s) = rstrip s.
Proof.
  induction s as [|a s IH]; [reflexivity|].
  rewrite rstrip_cons. destruct (rstrip s) as [|d t] eqn:Hr.
  - destruct (is_space a) eqn:Ha; [reflexivity|].
    rewrite rstrip_cons. simpl. rewrite Ha. reflexivity.
  - rewrite rstrip_cons, IH. reflexivity.
Qed.

Lemma rstrip_keeps_head (c : ascii) (s : string) :
  is_space c = false -> exists t, rstrip (String c s) = String c t.
Proof.
  intros Hc. rewrite rstrip_cons. rewrite Hc.
  destruct (rstrip s); eauto.
Qed.

Lemma strip_idempotent (s : string) : strip (strip s) = strip s.
Proof.
  unfold strip. destruct (lstrip s) as [|c rest] eqn:Hl; [reflexivity|].
  pose proof (lstrip_tight s c rest Hl) as Hc.
  destruct (rstrip_keeps_head c rest Hc) as [t Ht]. rewrite Ht.
  cbn [lstrip]. rewrite Hc. rewrite <- Ht. apply rstrip_idempotent.
Qed.

(** [lstrip] and [rstrip] take off whitespace, and only whitespace. *)
Lemma lstrip_split (s : string) :
  exists l, blank l = true /\ s = l ++ lstrip s.
Proof.
  induction s as [|c s (l & Hl & IH)]; [exists ""; split; reflexivity|].
  cbn [lstrip]. destruct (is_space c) eqn:Hc.
  - exists (String c l). cbn [blank]. rewrite Hc, Hl.
    split; [reflexivity|]. cbn [String.append]. rewrite <- IH. reflexivity.
  - exists "". split; reflexivity.
Qed.

Lemma rstrip_split (s : string) :
  exists r, blank r = true /\ s = rstrip s ++ r.
Proof.
  induction s as [|c s (r & Hr & IH)]; [exists ""; split; reflexivity|].
  rewrite rstrip_cons. destruct (rstrip s) as [|d t] eqn:Hs.
  - cbn [String.append] in IH. subst s.
    destruct (is_space c) eqn:Hc.
    + exists (String c r). cbn [blank]. rewrite Hc, Hr.
      split; reflexivity.
    + exists r. split; [exact Hr | reflexivity].
  - exists r. split; [exact Hr|]. cbn [String.append] in *.
    rewrite <- IH. reflexivity.
Qed.

Lemma lstrip_starts (s : string) : starts_with_space (lstrip s) = false.
Proof.
  destruct (lstrip s) as [|c rest] eqn:Hl; [reflexivity|].
  exact (lstrip_tight s c rest Hl).
Qed.

Lemma rstrip_ends (s : string) : ends_with_space (rstrip s) = false.
Proof.
  induction s as [|c s IH]; [reflexivity|].
  rewrite rstrip_cons. destruct (rstrip s) as [|d t] eqn:Hs.
  - destruct (is_space c) eqn:Hc; [reflexivity | exact Hc].
  - exact IH.
Qed.

Lemma rstrip_starts (s : string) :
  starts_with_space s = false -> starts_with_space (rstrip s) = false.
Proof.
  destruct s as [|c s]; [reflexivity|]. cbn [starts_with_space].
  intros Hc. destruct (rstrip_keeps_head c s Hc) as [t ->]. exact Hc.
Qed.

Lemma strip_tight (s : string) : tight (strip s) = true.
Proof.
  unfold tight, strip.
  rewrite (rstrip_starts _ (lstrip_starts s)), rstrip_ends. reflexivity.
Qed.

(** Every string has a trimmed value: what [strip] returns. *)
Lemma strip_trimmed (s : string) : trimmed s (strip s).
Proof.
  split; [apply strip_tight|].
  destruct (lstrip_split s) as (l & Hl & Hs).
  destruct (rstrip_split (lstrip s)) as (r & Hr & Hs').
  exists l, r. repeat split; try assumption.
  unfold strip. rewrite <- Hs'. exact Hs.
Qed.

Lemma lstrip_blank (l : string) : blank l = true -> lstrip l = "".
Proof.
  induction l as [|c l IH]; [reflexivity|]. cbn [blank lstrip].
  intros H. apply andb_true_iff in H as [Hc Hl]. rewrite Hc. auto.
Qed.

Lemma lstrip_blank_app (l s : string) :
  blank l = true -> lstrip (l ++ s) = lstrip s.
Proof.
  induction l as [|c l IH]; [reflexivity|]. cbn [blank String.append lstrip].
  intros H. apply andb_true_iff in H as [Hc Hl]. rewrite Hc. auto.
Qed.

Lemma rstrip_blank (r : string) : blank r = true -> rstrip r = "".
Proof.
  induction r as [|c r IH]; [reflexivity|]. cbn [blank].
  intros H. apply andb_true_iff in H as [Hc Hr].
  rewrite rstrip_cons, (IH Hr), Hc. reflexivity.
Qed.

Lemma rstrip_app_blank (s r : string) :
  blank r = true -> rstrip (s ++ r) = rstrip s.
Proof.
  intros Hr. induction s as [|c s IH]; [exact (rstrip_blank r Hr)|].
  cbn [String.append]. rewrite !rstrip_cons, IH. reflexivity.
Qed.

Lemma lstrip_app (t r : string) (c : ascii) (rest : string) :
  lstrip t = String c rest -> lstrip (t ++ r) = lstrip t ++ r.
Proof.
  induction t as [|a t IH]; [discriminate|].
  cbn [String.append lstrip]. destruct (is_space a); [exact IH|].
  reflexivity.
Qed.

Lemma lstrip_empty_blank (t : string) : lstrip t = "" -> blank t = true.
Proof.
  induction t as [|a t IH]; [reflexivity|]. cbn [lstrip blank].
  destruct (is_space a); [exact IH | discriminate].
Qed.

Lemma blank_app (a b : string) :
  blank a = true -> blank b = true -> blank (a ++ b) = true.
Proof.
  induction a as [|c a IH]; [auto|]. cbn [blank String.append].
  intros H Hb. apply andb_true_iff in H as [Hc Ha]. rewrite Hc. auto.
Qed.

(** Whitespace around a text does not change what [strip] returns. *)
Lemma strip_padded (l t r : string) :
  blank l = true -> blank r = true -> strip (l ++ t ++ r) = strip t.
Proof.
  intros Hl Hr. unfold strip. rewrite (lstrip_blank_app l _ Hl).
  destruct (lstrip t) as [|c rest] eqn:Ht.
  - rewrite (lstrip_blank (t ++ r)); [reflexivity|].
    apply blank_app; [apply lstrip_empty_blank, Ht | exact Hr].
  - rewrite (lstrip_app t r c rest Ht), Ht. apply rstrip_app_blank, Hr.
Qed.

Lemma rstrip_tight (t : string) : ends_with_space t = false -> rstrip t = t.
Proof.
  induction t as [|c t IH]; [reflexivity|]. rewrite rstrip_cons.
  destruct t as [|d t'].
  - cbn [ends_with_space rstrip]. intros ->. reflexivity.
  - intros H. rewrite (IH H). reflexivity.
Qed.

Lemma strip_of_tight (t : string) : tight t = true -> strip t = t.
Proof.
  unfold tight. intros H. apply andb_true_iff in H as [Hs He].
  apply negb_true_iff in Hs, He. unfold strip.
  assert (Hl : lstrip t = t).
  { destruct t as [|c t]; [reflexivity|]. cbn [starts_with_space] in Hs.
    cbn [lstrip]. rewrite Hs. reflexivity. }
  rewrite Hl. apply rstrip_tight, He.
Qed.

(** The trimmed value is unique: it is what [strip] returns. *)
Lemma trimmed_unique (s t : string) : trimmed s t -> t = strip s.
Proof.
  intros (Ht & l & r & Hl & Hr & ->).
  rewrite (strip_padded l t r Hl Hr). symmetry. apply strip_of_tight, Ht.
Qed.

End StripFacts.

Module BuildFacts.
Import Py Preprocess Cli.

Lemma join_blank_line (parts : list string) :
  join (LF ++ LF) parts = blank_line_joined parts.
Proof.
  unfold join. induction parts as [|s [|s' rest] IH]; try reflexivity.
  cbn [String.concat blank_line_joined] in *. rewrite IH.
  f_equal.
Qed.

Lemma build_is_sections (title summary content : option string) :
  build_document_for_embedding title summary content =
  blank_line_joined
    (qualifying_sections (strip (or_empty title))
       (strip (or_empty summary)) (strip (or_empty content))).
Proof.
  unfold build_document_for_embedding. rewrite join_blank_line. f_equal.
  unfold qualifying_sections, title_section, summary_section,
    content_section, nonempty.
  destruct (String.eqb (strip (or_empty title)) "");
    destruct (String.eqb (strip (or_empty summary)) "");
    destruct (String.eqb (lower (strip (or_empty summary))) "unknown");
    destruct (String.eqb (strip (or_empty content)) "");
    reflexivity.
Qed.

(** A built document is empty or starts with the first letter of a
    label. *)
Lemma build_shape (title summary content : option string) :
  match build_document_for_embedding title summary content with
  | EmptyString =>
      qualifying_sections (strip (or_empty title))
        (strip (or_empty summary)) (strip (or_empty content)) = []
  | String c _ =>
      is_space c = false /\
      qualifying_sections (strip (or_empty title))
        (strip (or_empty summary)) (strip (or_empty content)) <> []
  end.
Proof.
  rewrite build_is_sections.
  unfold qualifying_sections, title_section, summary_section,
    content_section.
  destruct (String.eqb (strip (or_empty title)) "");
    destruct (String.eqb (strip (or_empty summary)) "");
    destruct (String.eqb (lower (strip (or_empty summary))) "unknown");
    destruct (String.eqb (strip (or_empty content)) "");
    cbn; try reflexivity; split; (reflexivity || discriminate).
Qed.

Lemma strip_starts_nonspace (c : ascii) (s : string) :
  is_space c = false -> strip (String c s) <> "".
Proof.
  intros Hc. unfold strip. cbn [lstrip]. rewrite Hc. cbn [rstrip].
  rewrite Hc. destruct (rstrip s); discriminate.
Qed.

Lemma strip_doc_text (row : Db.EmbeddingRow) :
  nonempty (strip (doc_text row)) = nonempty (doc_text row).
Proof.
  unfold doc_text.
  match goal with
  | |- context [build_document_for_embedding ?t ?s ?c] =>
      pose proof (build_shape t s c) as H;
      destruct (build_document_for_embedding t s c) as [|ch rest]
  end.
  - reflexivity.
  - destruct H as [Hc _]. unfold nonempty.
    pose proof (strip_starts_nonspace ch rest Hc) as Hne.
    destruct (String.eqb_spec (strip (String ch rest)) "");
      [contradiction | reflexivity].
Qed.

(** C4: [build_document_for_embedding] returns the sections whose trimmed
    value is non-empty (the summary also left out when its lowercase form
    is "unknown"), in the order Title, Summary, Content and separated by
    one blank line, where the trimmed value of a string is the string
    without the whitespace at its two ends, which every string has; the
    result is the empty string exactly when no section qualifies; the
    indexing loop of [cmd_ingest] keeps exactly the rows whose built
    document is not empty; and the two stated examples hold, as does one
    with whitespace around the values. *)
Theorem build_document_joins_qualifying_sections :
  (forall s : string, exists t, trimmed s t) /\
  (forall (title summary content : option string) (t1 t2 t3 : string),
      trimmed (or_empty title) t1 ->
      trimmed (or_empty summary) t2 ->
      trimmed (or_empty content) t3 ->
      build_document_for_embedding title summary content =
        blank_line_joined (qualifying_sections t1 t2 t3) /\
      (build_document_for_embedding title summary content = "" <->
       qualifying_sections t1 t2 t3 = [])) /\
  (forall rows : list Db.EmbeddingRow,
      to_index rows =
      map candidate (filter (fun row => nonempty (doc_text row)) rows)) /\
  build_document_for_embedding (Some "") (Some "Unknown") (Some "") = "" /\
  build_document_for_embedding (Some "T") (Some "unknown") (Some "")
    = "Title: T" /\
  build_document_for_embedding (Some "  T ") (Some " UNKNOWN ")
    (Some (LF ++ "a b" ++ LF))
    = "Title: T" ++ LF ++ LF ++ "Content:" ++ LF ++ "a b".
Proof.
  split; [intros s; exists (strip s); apply StripFacts.strip_trimmed|].
  split; [|split; [|repeat split; reflexivity]].
  - intros title summary content t1 t2 t3 H1 H2 H3.
    apply StripFacts.trimmed_unique in H1, H2, H3. subst t1 t2 t3.
    split; [apply build_is_sections|].
    pose proof (build_shape title summary content) as H.
    destruct (build_document_for_embedding title summary content).
    + split; auto.
    + destruct H as [_ H]. split; [discriminate | contradiction].
  - induction rows as [|row rows IH]; [reflexivity|].
    cbn [to_index filter]. rewrite strip_doc_text, IH.
    destruct (nonempty (doc_text row)); reflexivity.
Qed.

Lemma build_document_joins_qualifying_sections_witness :
  build_document_for_embedding (Some "  T ") None (Some "a b  ") =
    blank_line_joined (qualifying_sections "T" "" "a b") /\
  (build_document_for_embedding (Some "  T ") None (Some "a b  ") = "" <->
   qualifying_sections "T" "" "a b" = []).
Proof.
  apply (proj1 (proj2 build_document_joins_qualifying_sections)
           (Some "  T ") None (Some "a b  ") "T" "" "a b").
  - split; [reflexivity|]. exists "  ", " ". repeat split.
  - split; [reflexivity|]. exists "", "". repeat split.
  - split; [reflexivity|]. exists "", "  ". repeat split.
Defined.

End BuildFacts.

(* ================================================================== *)
(** ** The vector index *)
(* ================================================================== *)

Module IndexFacts.
Import VectorStore.
Local Open Scope list_scope.

Section Index.

Variable Embedding : Type.
Variable encode : string -> Embedding.
Variable cosine_distance : Embedding -> Embedding -> Q.

Local Abbreviation entry := (IndexEntry Embedding).
Local Abbreviation with_id := (entries_with_id Embedding).
Local Abbreviation upsert := (collection_upsert Embedding).

Lemma id_eqb_eq (a b : option string) : id_eqb a b = true <-> a = b.
Proof.
  destruct a as [x|], b as [y|]; simpl;
    try (split; (discriminate || reflexivity)).
  rewrite String.eqb_eq. split; congruence.
Qed.

Lemma id_eqb_refl (a : option string) : id_eqb a a = true.
Proof. apply id_eqb_eq. reflexivity. Qed.

(** What an upsert leaves under each id. *)
Lemma entries_after_upsert (e : entry) (index : list entry)
    (i : option string) :
  one_entry_per_id Embedding index ->
  with_id i (upsert e index) =
  if id_eqb (ie_id e) i then [e] else with_id i index.
Proof.
  intros Hone. unfold collection_upsert, entries_with_id.
  destruct (existsb _ index) eqn:Hex.
  - rewrite UpsertFacts.filter_map_update.
    2:{ intros x. destruct (id_eqb (ie_id x) (ie_id e)) eqn:Hx;
          [|reflexivity].
        apply id_eqb_eq in Hx. rewrite Hx. reflexivity. }
    destruct (id_eqb (ie_id e) i) eqn:Hi.
    + apply id_eqb_eq in Hi. subst i.
      specialize (Hone (ie_id e)). unfold entries_with_id in Hone.
      destruct (filter _ index) as [|x [|y rest]] eqn:Hf;
        simpl in Hone; [|..|lia].
      * apply existsb_exists in Hex as (x & Hin & Hx).
        assert (In x []) as []. rewrite <- Hf. apply filter_In. auto.
      * assert (Hx : In x (filter (fun x => id_eqb (ie_id x) (ie_id e)) index))
          by (rewrite Hf; left; auto).
        apply filter_In in Hx as [_ Hx]. simpl. rewrite Hx. reflexivity.
    + erewrite map_ext_in; [apply map_id|].
      intros x Hx. apply filter_In in Hx as [_ Hx].
      destruct (id_eqb (ie_id x) (ie_id e)) eqn:Hxe; [|reflexivity].
      apply id_eqb_eq in Hxe, Hx. rewrite <- Hxe, Hx, id_eqb_refl in Hi.
      discriminate.
  - rewrite filter_app. simpl.
    destruct (id_eqb (ie_id e) i) eqn:Hi.
    + apply id_eqb_eq in Hi. subst i.
      assert (Hnone : filter (fun x => id_eqb (ie_id x) (ie_id e)) index = []).
      { destruct (filter _ index) as [|x rest] eqn:Hf; [reflexivity|].
        assert (Hx : In x (filter (fun x => id_eqb (ie_id x) (ie_id e)) index))
          by (rewrite Hf; left; auto).
        apply filter_In in Hx as [Hin Hx].
        assert (existsb (fun x => id_eqb (ie_id x) (ie_id e)) index = true)
          by (apply existsb_exists; eauto).
        congruence. }
      rewrite Hnone. reflexivity.
    + apply app_nil_r.
Qed.

Lemma upsert_keeps_one (e : entry) (index : list entry) :
  one_entry_per_id Embedding index ->
  one_entry_per_id Embedding (upsert e index).
Proof.
  intros Hone i. rewrite entries_after_upsert by exact Hone.
  destruct (id_eqb (ie_id e) i); [simpl; lia | apply Hone].
Qed.

Lemma upserts_keep_one (es : list entry) (index : list entry) :
  one_entry_per_id Embedding index ->
  one_entry_per_id Embedding
    (fold_left (fun idx e => upsert e idx) es index).
Proof.
  revert index. induction es as [|e es IH]; intros index Hone; simpl.
  - exact Hone.
  - apply IH, upsert_keeps_one, Hone.
Qed.

(** Ids not among the submitted entries keep their entries. *)
Lemma upserts_other_id (es : list entry) (index : list entry)
    (i : option string) :
  one_entry_per_id Embedding index ->
  ~ In i (map ie_id es) ->
  with_id i (fold_left (fun idx e => upsert e idx) es index) =
  with_id i index.
Proof.
  revert index. induction es as [|e es IH]; intros index Hone Hnot; simpl.
  - reflexivity.
  - rewrite IH.
    + rewrite entries_after_upsert by exact Hone.
      destruct (id_eqb (ie_id e) i) eqn:Hi; [|reflexivity].
      apply id_eqb_eq in Hi. exfalso. apply Hnot. left. exact Hi.
    + apply upsert_keeps_one, Hone.
    + intros Hin. apply Hnot. right. exact Hin.
Qed.

(** An entry submitted under an id no other entry of the run carries is
    the one entry the index holds for it afterwards. *)
Lemma upserts_submitted (es : list entry) (index : list entry) (e : entry) :
  one_entry_per_id Embedding index ->
  NoDup (map ie_id es) -> In e es ->
  with_id (ie_id e) (fold_left (fun idx e => upsert e idx) es index) = [e].
Proof.
  revert index. induction es as [|x es IH]; intros index Hone Hnd Hin.
  - destruct Hin.
  - simpl. inversion Hnd as [|? ? Hx Hnd']; subst.
    destruct Hin as [->|Hin].
    + rewrite upserts_other_id; [|apply upsert_keeps_one, Hone | exact Hx].
      rewrite entries_after_upsert by exact Hone.
      rewrite id_eqb_refl. reflexivity.
    + apply IH; [apply upsert_keeps_one, Hone | exact Hnd' | exact Hin].
Qed.

Lemma zip_entries_ids (ids : list (option string)) (docs : list string)
    (metas : list Metadata) (embs : list Embedding) :
  exists n, map ie_id (zip_entries Embedding ids docs metas embs)
            = firstn n ids.
Proof.
  revert docs metas embs.
  induction ids as [|i ids IH]; intros docs metas embs.
  - exists 0%nat. reflexivity.
  - destruct docs as [|d docs], metas as [|m metas], embs as [|v embs];
      try (exists 0%nat; reflexivity).
    destruct (IH docs metas embs) as [n Hn].
    exists (S n). simpl. rewrite Hn. reflexivity.
Qed.

Lemma NoDup_firstn {A} (n : nat) (l : list A) :
  NoDup l -> NoDup (firstn n l).
Proof.
  intros H. rewrite <- (firstn_skipn n l) in H.
  apply NoDup_app_remove_r in H. exact H.
Qed.

Lemma upserts_keep_present (es : list entry) (index : list entry)
    (i : option string) :
  one_entry_per_id Embedding index ->
  with_id i index <> [] ->
  with_id i (fold_left (fun idx e => upsert e idx) es index) <> [].
Proof.
  revert index. induction es as [|e es IH]; intros index Hone Hi; simpl.
  - exact Hi.
  - apply IH; [apply upsert_keeps_one, Hone|].
    rewrite entries_after_upsert by exact Hone.
    destruct (id_eqb (ie_id e) i); [discriminate | exact Hi].
Qed.

Lemma submitted_embedding (b : Batch) (e : entry) :
  In e (submitted Embedding encode b) ->
  ie_embedding e = encode (ie_document e).
Proof.
  unfold submitted.
  generalize (b_ids b) as ids, (b_metadatas b) as metas.
  induction (b_documents b) as [|d docs IH]; intros ids metas.
  - destruct ids, metas; simpl; intros [].
  - destruct ids as [|i ids]; [intros []|].
    destruct metas as [|m metas]; [intros []|].
    simpl. intros [<-|Hin]; [reflexivity | eapply IH; exact Hin].
Qed.

(** C5: with the index's [add] taken as the upsert the design document
    describes, indexing runs never leave more than one entry under an id;
    re-indexing an id the index already holds leaves exactly one entry
    under it, so the count for that id does not grow; and each entry a run
    submits (ids distinct within the run) is afterwards the single entry
    of its id, carrying the new document, metadata and embedding. *)
Theorem reindex_replaces_entry (index : list entry) (runs : list Batch)
    (b : Batch) :
  one_entry_per_id Embedding index ->
  one_entry_per_id Embedding (index_runs Embedding encode runs index) /\
  (forall i e0,
      with_id i index = [e0] ->
      List.length (with_id i (index_run Embedding encode index b)) = 1%nat) /\
  (NoDup (b_ids b) ->
   forall e, In e (submitted Embedding encode b) ->
     with_id (ie_id e) (index_run Embedding encode index b) = [e] /\
     ie_embedding e = encode (ie_document e)).
Proof.
  intros Hone. split; [|split].
  - revert index Hone. induction runs as [|r runs IH]; intros index Hone.
    + exact Hone.
    + simpl. apply IH. apply upserts_keep_one, Hone.
  - intros i e0 Hi.
    pose proof (upserts_keep_one (submitted Embedding encode b) index
                  Hone i) as Hle.
    pose proof (upserts_keep_present (submitted Embedding encode b) index
                  i Hone) as Hne.
    rewrite Hi in Hne. specialize (Hne ltac:(discriminate)).
    change (index_run Embedding encode index b)
      with (fold_left (fun idx e => upsert e idx)
              (submitted Embedding encode b) index).
    remember (with_id i (fold_left (fun idx e => upsert e idx)
                           (submitted Embedding encode b) index)) as after.
    destruct after as [|x [|y rest]]; simpl in *;
      [contradiction | reflexivity | lia].
  - intros Hnd e Hin. split; [|eapply submitted_embedding; exact Hin].
    change (index_run Embedding encode index b)
      with (fold_left (fun idx e => upsert e idx)
              (submitted Embedding encode b) index).
    apply upserts_submitted; [exact Hone | | exact Hin].
    unfold submitted.
    destruct (zip_entries_ids (b_ids b) (b_documents b) (b_metadatas b)
                (map encode (b_documents b))) as [n ->].
    apply NoDup_firstn, Hnd.
Qed.

End Index.

Lemma reindex_replaces_entry_witness :
  let index := index_run nat toy_encode [] (toy_batch "u" "old") in
  let b := toy_batch "u" "new text" in
  one_entry_per_id nat (index_runs nat toy_encode [b] index) /\
  (forall i e0,
      entries_with_id nat i index = [e0] ->
      List.length (entries_with_id nat i (index_run nat toy_encode index b))
      = 1%nat) /\
  (NoDup (b_ids b) ->
   forall e, In e (submitted nat toy_encode b) ->
     entries_with_id nat (ie_id e) (index_run nat toy_encode index b) = [e] /\
     ie_embedding e = toy_encode (ie_document e)).
Proof.
  apply (reindex_replaces_entry nat toy_encode
           (index_run nat toy_encode [] (toy_batch "u" "old"))
           [toy_batch "u" "new text"] (toy_batch "u" "new text")).
  intros i. unfold entries_with_id.
  etransitivity; [apply filter_length_le | vm_compute; constructor].
Defined.

End IndexFacts.

(* ================================================================== *)
(** ** Similarity search *)
(* ================================================================== *)

Module SearchFacts.
Import VectorStore.
Local Open Scope list_scope.

Section Search.

Variable Embedding : Type.
Variable encode : string -> Embedding.
Variable cosine_distance : Embedding -> Embedding -> Q.

Local Abbreviation entry := (IndexEntry Embedding).

Local Abbreviation nearer := (VectorStore.nearer Embedding).

Lemma insert_nearest_perm (x : entry * Q) (l : list (entry * Q)) :
  Permutation (x :: l) (insert_nearest Embedding x l).
Proof.
  induction l as [|y l IH]; simpl; [reflexivity|].
  destruct (Qle_bool (snd x) (snd y)); [reflexivity|].
  rewrite perm_swap. constructor. exact IH.
Qed.

Lemma insert_nearest_sorted (x : entry * Q) (l : list (entry * Q)) :
  StronglySorted nearer l ->
  StronglySorted nearer (insert_nearest Embedding x l).
Proof.
  induction 1 as [|y l Hs IH Hy]; simpl.
  - repeat constructor.
  - destruct (Qle_bool (snd x) (snd y)) eqn:Hxy.
    + apply Qle_bool_iff in Hxy.
      constructor; [constructor; assumption|].
      constructor; [exact Hxy|].
      eapply Forall_impl; [|exact Hy].
      intros z Hz. unfold nearer in *. eapply Qle_trans; eassumption.
    + assert (Hyx : nearer y x).
      { unfold nearer. apply Qlt_le_weak, Qnot_le_lt.
        intros Hle. apply Qle_bool_iff in Hle. congruence. }
      constructor; [exact IH|].
      rewrite <- (insert_nearest_perm x l). constructor; assumption.
Qed.

Lemma nearest_first_perm (l : list (entry * Q)) :
  Permutation l (nearest_first Embedding l).
Proof.
  induction l as [|x l IH]; simpl; [reflexivity|].
  rewrite <- insert_nearest_perm. constructor. exact IH.
Qed.

Lemma nearest_first_sorted (l : list (entry * Q)) :
  StronglySorted nearer (nearest_first Embedding l).
Proof.
  induction l as [|x l IH]; simpl; [constructor|].
  apply insert_nearest_sorted, IH.
Qed.

Lemma firstn_sorted {A} (R : A -> A -> Prop) (n : nat) (l : list A) :
  StronglySorted R l -> StronglySorted R (firstn n l).
Proof.
  intros H. revert n. induction H as [|x l Hs IH Hx]; intros [|n]; simpl;
    try constructor.
  - apply IH.
  - rewrite Forall_forall in *. intros y Hy. apply Hx.
    rewrite <- (firstn_skipn n l). apply in_or_app. left. exact Hy.
Qed.

Lemma zip3_maps {A B C D} (f : A -> B) (g : A -> C) (h : A -> D)
    (l : list A) :
  Cli.zip3 (map f l) (map g l) (map h l) = map (fun a => (f a, g a, h a)) l.
Proof. induction l as [|a l IH]; simpl; congruence. Qed.

Local Abbreviation ranked :=
  (fun query_text => VectorStore.ranked Embedding cosine_distance
                       (encode query_text)).

Lemma cmd_search_ranked (query_text : string) (k : nat)
    (index : list entry) :
  Cli.cmd_search Embedding encode cosine_distance query_text k index =
  map (fun p => (ie_document (fst p), ie_metadata (fst p), snd p))
    (ranked query_text k index).
Proof.
  unfold Cli.cmd_search, query, collection_query. simpl.
  apply zip3_maps.
Qed.

(** C6: with the index's [query] taken as the nearest-neighbour lookup
    the design document describes, a search for any text and any k prints
    exactly min(k, number of entries) results, their distances are
    non-decreasing, each result is the document and metadata of an indexed
    entry with its cosine distance to the encoded query, and k = 5 on an
    index of 3 entries gives exactly 3 results. *)
Theorem search_returns_k_nearest_ascending (query_text : string) (k : nat)
    (index : list entry) :
  let hits :=
    Cli.cmd_search Embedding encode cosine_distance query_text k index in
  List.length hits = Nat.min k (List.length index) /\
  StronglySorted Qle (map snd hits) /\
  (forall d m x, In (d, m, x) hits ->
     exists e, In e index /\ d = ie_document e /\ m = ie_metadata e /\
               x = cosine_distance (encode query_text) (ie_embedding e)) /\
  (List.length index = 3%nat ->
   List.length
     (Cli.cmd_search Embedding encode cosine_distance query_text 5 index)
   = 3%nat).
Proof.
  assert (Hlen : forall n,
             List.length
               (Cli.cmd_search Embedding encode cosine_distance query_text
                  n index) = Nat.min n (List.length index)).
  { intros n. rewrite cmd_search_ranked, length_map.
    unfold VectorStore.ranked. rewrite length_firstn.
    rewrite <- (Permutation_length (nearest_first_perm _)), length_map.
    reflexivity. }
  cbv zeta. split; [apply Hlen|]. split; [|split].
  - rewrite cmd_search_ranked, map_map. simpl.
    assert (Hs : StronglySorted nearer (ranked query_text k index))
      by apply firstn_sorted, nearest_first_sorted.
    induction Hs as [|p l _ IH Hp]; simpl; constructor; [exact IH|].
    rewrite Forall_map. exact Hp.
  - intros d m x Hin. rewrite cmd_search_ranked in Hin.
    apply in_map_iff in Hin as ([e y] & E & Hin). simpl in E.
    injection E as <- <- <-.
    assert (Hall : In (e, y)
                     (map (fun e => (e, cosine_distance (encode query_text)
                                          (ie_embedding e))) index)).
    { eapply Permutation_in;
        [apply Permutation_sym, nearest_first_perm|].
      unfold VectorStore.ranked in Hin.
      rewrite <- (firstn_skipn k (nearest_first _ _)).
      apply in_or_app. left. exact Hin. }
    apply in_map_iff in Hall as (e' & E & He'). injection E as -> <-.
    exists e. auto.
  - intros H3. rewrite Hlen, H3. reflexivity.
Qed.

End Search.

Lemma search_returns_k_nearest_ascending_witness :
  let index :=
    index_runs nat toy_encode
      [toy_batch "u1" "a"; toy_batch "u2" "bbb"; toy_batch "u3" "cc"] [] in
  List.length index = 3%nat /\
  List.length (Cli.cmd_search nat toy_encode toy_distance "bb" 5 index)
  = 3%nat.
Proof.
  split; [reflexivity|].
  apply (search_returns_k_nearest_ascending nat toy_encode toy_distance
           "bb" 5).
  reflexivity.
Defined.

End SearchFacts.

(* ================================================================== *)
(** ** Scoring *)
(* ================================================================== *)

Module ScoreFacts.
Import Validator.

(** *** Digits and shifts *)

Lemma digits_bounds (p : positive) :
  2 ^ (Zpos (digits2_pos p) - 1) <= Zpos p < 2 ^ Zpos (digits2_pos p).
Proof.
  induction p as [p IH|p IH|]; cbn [digits2_pos].
  - rewrite Pos2Z.inj_succ. change (Zpos p~1) with (2 * Zpos p + 1).
    replace (Z.succ (Zpos (digits2_pos p)) - 1)
      with (Z.succ (Zpos (digits2_pos p) - 1)) by lia.
    rewrite !Z.pow_succ_r by lia. lia.
  - rewrite Pos2Z.inj_succ. change (Zpos p~0) with (2 * Zpos p).
    replace (Z.succ (Zpos (digits2_pos p)) - 1)
      with (Z.succ (Zpos (digits2_pos p) - 1)) by lia.
    rewrite !Z.pow_succ_r by lia. lia.
  - cbn. lia.
Qed.

Lemma digits_unique (p : positive) (n : Z) :
  2 ^ (n - 1) <= Zpos p < 2 ^ n -> Zpos (digits2_pos p) = n.
Proof.
  intros [Hlo Hhi]. pose proof (digits_bounds p) as [Dlo Dhi].
  assert (0 < n).
  { destruct (Z_lt_le_dec 0 n) as [|Hn]; [assumption|].
    destruct (Z.eq_dec n 0) as [->|]; [cbn in Hhi; lia|].
    rewrite Z.pow_neg_r in Hhi by lia. lia. }
  destruct (Z_lt_le_dec (Zpos (digits2_pos p)) n) as [Hlt|Hge].
  - assert (2 ^ Zpos (digits2_pos p) <= 2 ^ (n - 1))
      by (apply Z.pow_le_mono_r; lia). lia.
  - destruct (Z_lt_le_dec n (Zpos (digits2_pos p))) as [Hgt|]; [|lia].
    assert (2 ^ n <= 2 ^ (Zpos (digits2_pos p) - 1))
      by (apply Z.pow_le_mono_r; lia). lia.
Qed.

Lemma iter_xO (p k : positive) :
  Zpos (Pos.iter xO p k) = Zpos p * 2 ^ Zpos k.
Proof.
  induction k as [|k IH] using Pos.peano_ind.
  - cbn [Pos.iter]. change (Zpos p~0) with (2 * Zpos p). lia.
  - rewrite Pos.iter_succ, Pos2Z.inj_succ, Z.pow_succ_r by lia.
    change (Zpos (Pos.iter xO p k)~0) with (2 * Zpos (Pos.iter xO p k)).
    rewrite IH. lia.
Qed.

Lemma iter_pos_iter {A} (f : A -> A) (k : positive) (x : A) :
  iter_pos f k x = Pos.iter f x k.
Proof.
  revert x. induction k as [k IH|k IH|]; intros x; cbn [iter_pos Pos.iter].
  - rewrite !IH, <- !Pos.iter_swap. reflexivity.
  - rewrite !IH. reflexivity.
  - reflexivity.
Qed.

Lemma shr_exact (m : positive) (k : positive) :
  iter_pos shr_1 k
    {| shr_m := Zpos (Pos.iter xO m k); shr_r := false; shr_s := false |} =
  {| shr_m := Zpos m; shr_r := false; shr_s := false |}.
Proof.
  rewrite iter_pos_iter.
  induction k as [|k IH] using Pos.peano_ind.
  - reflexivity.
  - rewrite Pos.iter_succ_r, Pos.iter_succ. cbn [shr_1 orb]. exact IH.
Qed.

(** *** Rounding what needs no rounding *)

Lemma fexp_normal (m : positive) (e : Z) :
  normal m e -> fexp prec emax (Zpos (digits2_pos m) + e) = e.
Proof.
  intros [Hd He]. rewrite Hd. unfold fexp, emin, prec, emax. lia.
Qed.

Lemma round_aux_exact (s : bool) (m : positive) (e : Z) :
  normal m e ->
  binary_round_aux prec emax s (Zpos m) e loc_Exact = S754_finite s m e.
Proof.
  intros Hn. pose proof (fexp_normal m e Hn) as Hf.
  unfold binary_round_aux, shr_fexp. cbn [Zdigits2 shr_record_of_loc].
  rewrite Hf, Z.sub_diag. cbn [shr shr_m loc_of_shr_record
    round_nearest_even Zdigits2 shr_record_of_loc].
  rewrite Hf, Z.sub_diag. cbn [shr shr_m].
  destruct Hn as [_ He]. unfold emax, prec.
  destruct (Z.leb_spec e (1024 - 53)); [reflexivity | lia].
Qed.

Lemma round_aux_shift (s : bool) (m k : positive) (e : Z) :
  normal m (e + Zpos k) ->
  binary_round_aux prec emax s (Zpos (Pos.iter xO m k)) e loc_Exact =
  S754_finite s m (e + Zpos k).
Proof.
  intros Hn. pose proof (fexp_normal m _ Hn) as Hf.
  assert (Hd : Zpos (digits2_pos (Pos.iter xO m k)) = 53 + Zpos k).
  { apply digits_unique. rewrite iter_xO.
    pose proof (digits_bounds m) as Hb. destruct Hn as [Hd _].
    rewrite Hd in Hb.
    replace (53 + Zpos k - 1) with (52 + Zpos k) by lia.
    rewrite !Z.pow_add_r by lia.
    assert (0 < 2 ^ Zpos k) by (apply Z.pow_pos_nonneg; lia). nia. }
  unfold binary_round_aux, shr_fexp. cbn [Zdigits2 shr_record_of_loc].
  rewrite Hd.
  replace (fexp prec emax (53 + Zpos k + e)) with (e + Zpos k).
  2:{ destruct Hn as [Hm He]. rewrite Hm in Hf.
      rewrite <- Hf at 1. f_equal. lia. }
  replace (e + Zpos k - e) with (Zpos k) by lia.
  cbn [shr]. rewrite shr_exact.
  cbn [shr_m loc_of_shr_record round_nearest_even Zdigits2
       shr_record_of_loc].
  rewrite Hf, Z.sub_diag. cbn [shr shr_m].
  destruct Hn as [_ He]. unfold emax, prec.
  destruct (Z.leb_spec (e + Zpos k) (1024 - 53)); [reflexivity | lia].
Qed.

Lemma shl_align_le (m : positive) (e e' : Z) :
  e' <= e ->
  exists m', shl_align m e e' = (m', e') /\ Zpos m' = Zpos m * 2 ^ (e - e').
Proof.
  intros Hle. unfold shl_align.
  destruct (e' - e) as [|d|d] eqn:E; try lia.
  - assert (e' = e) as -> by lia. exists m.
    rewrite Z.sub_diag. split; [reflexivity | cbn; lia].
  - exists (Pos.iter xO m d). split; [reflexivity|].
    rewrite iter_xO. f_equal. f_equal. lia.
Qed.

Lemma shl_align_gt (m : positive) (e e' : Z) :
  e < e' -> shl_align m e e' = (m, e).
Proof.
  intros Hlt. unfold shl_align.
  destruct (e' - e) as [|d|d] eqn:E; try lia; reflexivity.
Qed.

(** *** The number [h * 2^e] *)

Lemma Zdigits2_bounds (h : Z) :
  h <> 0 ->
  2 ^ (Zdigits2 h - 1) <= Z.abs h < 2 ^ Zdigits2 h /\ 0 < Zdigits2 h.
Proof.
  destruct h as [|p|p]; intros Hh; [contradiction| |];
    cbn [Zdigits2 Z.abs]; split; try apply digits_bounds; lia.
Qed.

Lemma Zdigits2_le_53 (h : Z) :
  h <> 0 -> fits h -> 0 < Zdigits2 h <= 53.
Proof.
  intros Hh Hf. pose proof (Zdigits2_bounds h Hh) as [[Hlo _] Hpos].
  split; [assumption|].
  destruct (Z_lt_le_dec 53 (Zdigits2 h)) as [Hgt|]; [|lia].
  assert (2 ^ 53 <= 2 ^ (Zdigits2 h - 1)) by (apply Z.pow_le_mono_r; lia).
  unfold fits in Hf. lia.
Qed.

Lemma mantissa_spec (h : Z) :
  h <> 0 -> fits h ->
  Zpos (mantissa h) = Z.abs h * 2 ^ (53 - Zdigits2 h) /\
  Zpos (digits2_pos (mantissa h)) = 53.
Proof.
  intros Hh Hf. pose proof (Zdigits2_bounds h Hh) as [[Hlo Hhi] _].
  pose proof (Zdigits2_le_53 h Hh Hf) as Hd.
  assert (Hp : 0 < 2 ^ (53 - Zdigits2 h))
    by (apply Z.pow_pos_nonneg; lia).
  assert (Hm : Zpos (mantissa h) = Z.abs h * 2 ^ (53 - Zdigits2 h)).
  { unfold mantissa. rewrite Z2Pos.id; [reflexivity|]. nia. }
  split; [exact Hm|].
  apply digits_unique. rewrite Hm.
  replace (2 ^ (53 - 1)) with (2 ^ (Zdigits2 h - 1) * 2 ^ (53 - Zdigits2 h)).
  2:{ rewrite <- Z.pow_add_r by lia. f_equal. lia. }
  replace (2 ^ 53) with (2 ^ Zdigits2 h * 2 ^ (53 - Zdigits2 h)).
  2:{ rewrite <- Z.pow_add_r by lia. f_equal. lia. }
  nia.
Qed.

Lemma cond_Zopp_abs (h : Z) : cond_Zopp (h <? 0) (Z.abs h) = h.
Proof.
  unfold cond_Zopp. destruct (Z.ltb_spec h 0); lia.
Qed.

Lemma round_up (s : bool) (x m : positive) (e t : Z) :
  0 <= t -> Zpos m = Zpos x * 2 ^ t -> normal m (e - t) ->
  binary_round prec emax s x e = S754_finite s m (e - t).
Proof.
  intros Ht Hm Hn. pose proof (fexp_normal m _ Hn) as Hf.
  assert (Hd : Zpos (digits2_pos x) = 53 - t).
  { apply digits_unique. pose proof (digits_bounds m) as Hb.
    destruct Hn as [Hd _]. rewrite Hd, Hm in Hb.
    assert (0 < 2 ^ t) by (apply Z.pow_pos_nonneg; lia).
    destruct (Z_lt_le_dec 53 t) as [Hbig|Hsmall].
    { assert (2 ^ 53 <= 2 ^ t) by (apply Z.pow_le_mono_r; lia). nia. }
    destruct (Z.eq_dec t 53) as [->|].
    { cbn in *. lia. }
    replace (2 ^ (53 - 1)) with (2 ^ (53 - t - 1) * 2 ^ t) in Hb.
    2:{ rewrite <- Z.pow_add_r by lia. f_equal. lia. }
    replace (2 ^ 53) with (2 ^ (53 - t) * 2 ^ t) in Hb.
    2:{ rewrite <- Z.pow_add_r by lia. f_equal. lia. }
    nia. }
  unfold binary_round. rewrite Hd.
  replace (fexp prec emax (53 - t + e)) with (e - t).
  2:{ destruct Hn as [Hdm _]. rewrite Hdm in Hf. rewrite <- Hf at 1.
      f_equal. lia. }
  destruct (shl_align_le x e (e - t)) as (m' & -> & Hm'); [lia|].
  replace (e - (e - t)) with t in Hm' by lia.
  assert (m' = m) as -> by (apply Pos2Z.inj; lia).
  apply round_aux_exact, Hn.
Qed.

Lemma round_down (s : bool) (x m n : positive) (e : Z) :
  Zpos x = Zpos m * 2 ^ Zpos n -> normal m (e + Zpos n) ->
  binary_round prec emax s x e = S754_finite s m (e + Zpos n).
Proof.
  intros Hx Hn. pose proof (fexp_normal m _ Hn) as Hf.
  assert (x = Pos.iter xO m n) as ->
    by (apply Pos2Z.inj; rewrite iter_xO; exact Hx).
  assert (Hd : Zpos (digits2_pos (Pos.iter xO m n)) = 53 + Zpos n).
  { apply digits_unique. rewrite iter_xO.
    pose proof (digits_bounds m) as Hb. destruct Hn as [Hd _].
    rewrite Hd in Hb.
    replace (53 + Zpos n - 1) with (52 + Zpos n) by lia.
    rewrite !Z.pow_add_r by lia.
    assert (0 < 2 ^ Zpos n) by (apply Z.pow_pos_nonneg; lia). nia. }
  unfold binary_round. rewrite Hd.
  replace (fexp prec emax (53 + Zpos n + e)) with (e + Zpos n).
  2:{ destruct Hn as [Hdm _]. rewrite Hdm in Hf. rewrite <- Hf at 1.
      f_equal. lia. }
  rewrite shl_align_gt by lia.
  apply round_aux_shift, Hn.
Qed.

(** Normalising [h * 2^j] at exponent [e] gives the number
    [h * 2^(e + j)]: no bit is lost. *)
Lemma normalize_exact (h j e : Z) :
  h <> 0 -> fits h -> 0 <= j ->
  -1074 <= e + j + Zdigits2 h - 53 <= 971 ->
  binary_normalize prec emax (h * 2 ^ j) e false = exact h (e + j).
Proof.
  intros Hh Hf Hj Hr.
  destruct (mantissa_spec h Hh Hf) as [Hm Hd].
  pose proof (Zdigits2_le_53 h Hh Hf) as Hd53.
  assert (Hpj : 0 < 2 ^ j) by (apply Z.pow_pos_nonneg; lia).
  assert (Hround : forall s x, Zpos x = Z.abs h * 2 ^ j ->
            binary_round prec emax s x e =
            S754_finite s (mantissa h) (e + j + Zdigits2 h - 53)).
  { intros s x Hx.
    destruct (Z_le_gt_dec j (53 - Zdigits2 h)) as [Hle|Hgt].
    - replace (e + j + Zdigits2 h - 53)
        with (e - (53 - Zdigits2 h - j)) by lia.
      apply round_up; [lia| |split; [exact Hd | lia]].
      rewrite Hm, Hx, <- Z.mul_assoc, <- Z.pow_add_r by lia.
      f_equal. f_equal. lia.
    - destruct (j - (53 - Zdigits2 h)) as [|n|n] eqn:En; try lia.
      replace (e + j + Zdigits2 h - 53) with (e + Zpos n) by lia.
      apply round_down; [|split; [exact Hd | lia]].
      rewrite Hm, Hx, <- Z.mul_assoc, <- Z.pow_add_r by lia.
      f_equal. f_equal. lia. }
  unfold exact.
  destruct h as [|p|p]; [contradiction| |].
  - destruct (Zpos p * 2 ^ j) as [|x|x] eqn:E; try lia.
    cbn [binary_normalize]. rewrite (Hround false x) by (cbn [Z.abs]; lia).
    reflexivity.
  - destruct (Zneg p * 2 ^ j) as [|x|x] eqn:E; try lia.
    cbn [binary_normalize]. rewrite (Hround true x) by (cbn [Z.abs]; lia).
    reflexivity.
Qed.

Lemma nearest_exact (n : Z) : fits n -> nearest n = exact n 0.
Proof.
  intros Hf. destruct (Z.eq_dec n 0) as [->|Hn]; [reflexivity|].
  unfold nearest. replace n with (n * 2 ^ 0) at 1 by (cbn; lia).
  pose proof (Zdigits2_le_53 n Hn Hf).
  rewrite (normalize_exact n 0 0 Hn Hf) by lia. reflexivity.
Qed.

Lemma float_of_int_exact (n : Z) :
  fits n -> float_of_int n = Return (exact n 0).
Proof.
  intros Hf. unfold float_of_int. rewrite (nearest_exact n Hf).
  unfold exact. destruct n; reflexivity.
Qed.

(** *** Exact products and sums *)

Lemma exact_nonzero (h e : Z) :
  h <> 0 ->
  exact h e = S754_finite (h <? 0) (mantissa h) (e + Zdigits2 h - 53).
Proof. destruct h; [contradiction | reflexivity | reflexivity]. Qed.

Lemma literal_1_0 : literal 10 1 = S754_finite false 4503599627370496 (-52).
Proof. vm_compute. reflexivity. Qed.

Lemma literal_0_5 : literal 5 1 = S754_finite false 4503599627370496 (-53).
Proof. vm_compute. reflexivity. Qed.

Lemma literal_0_2 : literal 2 1 = S754_finite false 7205759403792794 (-55).
Proof. vm_compute. reflexivity. Qed.

Lemma literal_0_1 : literal 1 1 = S754_finite false 7205759403792794 (-56).
Proof. vm_compute. reflexivity. Qed.

(** Multiplying by a power of two moves the exponent. *)
Lemma fmul_power (h e k : Z) :
  fits h -> -900 <= e <= 900 -> -100 <= k <= 0 ->
  fmul (exact h e) (S754_finite false 4503599627370496 k) =
  exact h (e + k + 52).
Proof.
  intros Hf He Hk. destruct (Z.eq_dec h 0) as [->|Hh]; [reflexivity|].
  destruct (mantissa_spec h Hh Hf) as [_ Hd].
  pose proof (Zdigits2_le_53 h Hh Hf) as Hd53.
  rewrite !exact_nonzero by assumption.
  unfold fmul, SFmul. rewrite xorb_false_r.
  replace (mantissa h * 4503599627370496)%positive
    with (Pos.iter xO (mantissa h) 52).
  2:{ apply Pos2Z.inj. rewrite iter_xO, Pos2Z.inj_mul. reflexivity. }
  rewrite round_aux_shift by (split; [exact Hd | lia]).
  f_equal. lia.
Qed.

Lemma aligned (h e ez : Z) :
  h <> 0 -> fits h -> ez <= e + Zdigits2 h - 53 ->
  cond_Zopp (h <? 0)
    (Zpos (fst (shl_align (mantissa h) (e + Zdigits2 h - 53) ez))) =
  h * 2 ^ (e - ez).
Proof.
  intros Hh Hf Hez. destruct (mantissa_spec h Hh Hf) as [Hm _].
  pose proof (Zdigits2_le_53 h Hh Hf) as Hd53.
  destruct (shl_align_le (mantissa h) (e + Zdigits2 h - 53) ez Hez)
    as (m' & -> & Hm').
  cbn [fst]. rewrite Hm', Hm, <- Z.mul_assoc, <- Z.pow_add_r by lia.
  replace (53 - Zdigits2 h + (e + Zdigits2 h - 53 - ez)) with (e - ez)
    by lia.
  unfold cond_Zopp. destruct (Z.ltb_spec h 0).
  - rewrite Z.abs_neq by lia. lia.
  - rewrite Z.abs_eq by lia. reflexivity.
Qed.

Lemma normalize_sum (h e ez : Z) :
  fits h -> -900 <= e <= 900 -> ez <= e ->
  binary_normalize prec emax (h * 2 ^ (e - ez)) ez false = exact h e.
Proof.
  intros Hf He Hez. destruct (Z.eq_dec h 0) as [->|Hh]; [reflexivity|].
  pose proof (Zdigits2_le_53 h Hh Hf) as Hd53.
  rewrite (normalize_exact h (e - ez) ez Hh Hf) by lia.
  f_equal. lia.
Qed.

Lemma fadd_exact (a b e : Z) :
  fits a -> fits b -> fits (a + b) -> -900 <= e <= 900 ->
  fadd (exact a e) (exact b e) = exact (a + b) e.
Proof.
  intros Ha Hb Hab He.
  destruct (Z.eq_dec a 0) as [->|Na].
  { cbn [exact Z.add]. destruct b; reflexivity. }
  destruct (Z.eq_dec b 0) as [->|Nb].
  { rewrite Z.add_0_r. cbn [exact]. destruct a; reflexivity. }
  pose proof (Zdigits2_le_53 a Na Ha) as Da.
  pose proof (Zdigits2_le_53 b Nb Hb) as Db.
  rewrite (exact_nonzero a) by assumption.
  rewrite (exact_nonzero b) by assumption.
  unfold fadd, SFadd. cbv zeta.
  rewrite (aligned a e) by (assumption || lia).
  rewrite (aligned b e) by (assumption || lia).
  rewrite <- Z.mul_add_distr_r.
  apply normalize_sum; [assumption | lia | lia].
Qed.

Lemma exact_opp (h e : Z) : h <> 0 -> exact (- h) e = SFopp (exact h e).
Proof. destruct h; [contradiction | reflexivity | reflexivity]. Qed.

Lemma fits_opp (h : Z) : fits h -> fits (- h).
Proof. unfold fits. lia. Qed.

Lemma fsub_exact (a b e : Z) :
  fits a -> fits b -> fits (a - b) -> -900 <= e <= 900 ->
  fsub (exact a e) (exact b e) = exact (a - b) e.
Proof.
  intros Ha Hb Hab He.
  destruct (Z.eq_dec b 0) as [->|Nb].
  { rewrite Z.sub_0_r. cbn [exact]. destruct a; reflexivity. }
  destruct (Z.eq_dec a 0) as [->|Na].
  { cbn [Z.sub Z.add]. rewrite exact_opp by assumption.
    destruct b; [contradiction | reflexivity | reflexivity]. }
  pose proof (Zdigits2_le_53 a Na Ha) as Da.
  pose proof (Zdigits2_le_53 b Nb Hb) as Db.
  rewrite (exact_nonzero a) by assumption.
  rewrite (exact_nonzero b) by assumption.
  unfold fsub, SFsub. cbv zeta.
  rewrite (aligned a e) by (assumption || lia).
  rewrite (aligned b e) by (assumption || lia).
  rewrite <- Z.mul_sub_distr_r.
  apply normalize_sum; [assumption | lia | lia].
Qed.

Lemma exact_double (h e : Z) :
  fits (2 * h) -> exact (2 * h) (e - 1) = exact h e.
Proof.
  intros Hf. destruct (Z.eq_dec h 0) as [->|Hh]; [reflexivity|].
  assert (Hd : Zdigits2 (2 * h) = Zdigits2 h + 1).
  { destruct h as [|p|p]; [contradiction| |];
      cbn [Z.mul Pos.mul Zdigits2 digits2_pos]; lia. }
  assert (Hh2 : 2 * h <> 0) by lia.
  pose proof (Zdigits2_le_53 _ Hh2 Hf) as Hd53.
  rewrite !exact_nonzero by assumption.
  f_equal.
  - destruct h; reflexivity.
  - unfold mantissa. f_equal. rewrite Hd, Z.abs_mul.
    replace (53 - Zdigits2 h) with (Z.succ (53 - (Zdigits2 h + 1))) by lia.
    rewrite Z.pow_succ_r by lia. cbn [Z.abs]. lia.
  - lia.
Qed.

Lemma value_exact (h e : Z) :
  fits h -> is_value (exact h e) (inject_Z h * 2 ^ e)%Q.
Proof.
  intros Hf. unfold is_value.
  destruct (Z.eq_dec h 0) as [->|Hh].
  { cbn. apply Qeq_sym, Qmult_0_l. }
  destruct (mantissa_spec h Hh Hf) as [Hm _].
  pose proof (Zdigits2_le_53 h Hh Hf) as Hd53.
  rewrite exact_nonzero by assumption. cbn [value].
  assert (Hc : cond_Zopp (h <? 0) (Zpos (mantissa h)) =
               h * 2 ^ (53 - Zdigits2 h)).
  { rewrite Hm. unfold cond_Zopp. destruct (Z.ltb_spec h 0).
    - rewrite Z.abs_neq by lia. lia.
    - rewrite Z.abs_eq by lia. reflexivity. }
  rewrite Hc, inject_Z_mult, Zpower_Qpower by lia.
  rewrite <- Qmult_assoc, <- Qpower_plus by discriminate.
  replace (53 - Zdigits2 h + (e + Zdigits2 h - 53)) with e by lia.
  reflexivity.
Qed.

(** *** The social sum *)

Lemma magnitude_nonneg (items : list (Z * Z)) : 0 <= magnitude items.
Proof.
  induction items as [|[s c] items IH]; cbn [magnitude]; lia.
Qed.

Lemma doubled_bound (items : list (Z * Z)) :
  Z.abs (doubled items) <= magnitude items.
Proof.
  induction items as [|[s c] items IH]; cbn [magnitude doubled]; lia.
Qed.

Lemma int_mul_float_fits (n : Z) (x : float) :
  fits n -> int_mul_float n x = Return (fmul (nearest n) x).
Proof.
  intros Hf. unfold int_mul_float.
  rewrite (float_of_int_exact n Hf), (nearest_exact n Hf). reflexivity.
Qed.

Lemma item_score_exact (s c : Z) :
  2 * Z.abs s + Z.abs c < 2 ^ 53 ->
  item_score (social_item s c) = Return (exact (2 * s + c) (-1)).
Proof.
  intros Hb.
  assert (Hs : fits s) by (unfold fits; lia).
  assert (Hs2 : fits (2 * s)) by (unfold fits; lia).
  assert (Hc : fits c) by (unfold fits; lia).
  assert (Hsc : fits (2 * s + c)) by (unfold fits; lia).
  unfold item_score, social_item.
  cbn [get String.eqb Ascii.eqb Bool.eqb].
  rewrite (int_mul_float_fits c _ Hc), (nearest_exact c Hc), literal_0_5.
  rewrite (fmul_power c 0 (-53) Hc) by lia.
  cbn [bind Z.add]. unfold int_add_float.
  rewrite (float_of_int_exact s Hs). cbn [bind].
  rewrite <- (exact_double s 0 Hs2). cbn [Z.sub Z.add Z.opp Z.pos_sub].
  rewrite fadd_exact by (assumption || lia). reflexivity.
Qed.

Lemma sum_plain_exact (items : list (Z * Z)) (F : Z) :
  Z.abs F + magnitude items < 2 ^ 53 ->
  sum_plain (exact F (-1)) (map item_score (social_items items)) =
  Return (exact (F + doubled items) (-1)).
Proof.
  revert F. induction items as [|[s c] items IH]; intros F Hb.
  - cbn. rewrite Z.add_0_r. reflexivity.
  - pose proof (magnitude_nonneg items) as Hm.
    cbn [magnitude] in Hb.
    cbn [social_items map sum_plain fst snd doubled].
    rewrite item_score_exact by lia. cbn [bind].
    rewrite fadd_exact by (unfold fits; lia).
    fold (social_items items). rewrite IH by lia.
    f_equal. f_equal. lia.
Qed.

Lemma sum_compensated_exact (items : list (Z * Z)) (F : Z) :
  Z.abs F + magnitude items < 2 ^ 53 ->
  sum_compensated (exact F (-1)) (S754_zero false)
    (map item_score (social_items items)) =
  Return (exact (F + doubled items) (-1)).
Proof.
  revert F. induction items as [|[s c] items IH]; intros F Hb.
  - cbn. rewrite Z.add_0_r. reflexivity.
  - pose proof (magnitude_nonneg items) as Hm.
    cbn [magnitude] in Hb.
    cbn [social_items map sum_compensated fst snd doubled].
    rewrite item_score_exact by lia. cbn [bind].
    set (X := 2 * s + c).
    assert (HF : fits F) by (unfold fits; lia).
    assert (HX : fits X) by (unfold fits, X; lia).
    assert (HFX : fits (F + X)) by (unfold fits, X; lia).
    rewrite (fadd_exact F X) by (assumption || lia).
    rewrite (fsub_exact F (F + X)) by (assumption || unfold fits, X; lia).
    rewrite (fsub_exact X (F + X)) by (assumption || unfold fits, X; lia).
    rewrite (fadd_exact (F - (F + X)) X)
      by (assumption || unfold fits, X; lia).
    rewrite (fadd_exact (X - (F + X)) F)
      by (assumption || unfold fits, X; lia).
    replace (F - (F + X) + X) with 0 by lia.
    replace (X - (F + X) + F) with 0 by lia.
    assert (Hc : (if SFleb (fabs (exact X (-1))) (fabs (exact F (-1)))
                  then fadd (S754_zero false) (exact 0 (-1))
                  else fadd (S754_zero false) (exact 0 (-1)))
                 = S754_zero false)
      by (destruct (SFleb _ _); reflexivity).
    rewrite Hc. fold (social_items items). rewrite IH by (unfold X; lia).
    f_equal. f_equal. unfold X. lia.
Qed.

Lemma sum_exact (version : cpython) (items : list (Z * Z)) :
  magnitude items < 2 ^ 53 ->
  sum version (map item_score (social_items items)) =
  Return match items with
         | [] => Int 0
         | _ => Float (exact (doubled items) (-1))
         end.
Proof.
  destruct items as [|[s c] items]; intros Hb; [reflexivity|].
  pose proof (magnitude_nonneg items) as Hm.
  cbn [magnitude] in Hb.
  cbn [social_items map sum fst snd doubled].
  rewrite item_score_exact by lia. cbn [bind].
  unfold int_add_float. rewrite float_of_int_exact by (unfold fits; lia).
  cbn [bind].
  change (exact 0 0) with (exact 0 (-1)).
  rewrite fadd_exact by (unfold fits; lia). cbn [Z.add].
  fold (social_items items).
  destruct version.
  - rewrite sum_plain_exact by lia. reflexivity.
  - rewrite sum_compensated_exact by lia. reflexivity.
Qed.

Lemma social_value (items : list (Z * Z)) :
  (inject_Z (doubled items) * 2 ^ (-1) == social_formula items)%Q.
Proof.
  induction items as [|[s c] items IH]; cbn [doubled social_formula].
  - reflexivity.
  - rewrite <- IH, !inject_Z_plus, inject_Z_mult.
    change (2 ^ (-1))%Q with (1 # 2)%Q. change (inject_Z 2) with 2%Q.
    ring.
Qed.

(** The scoring call, for integers binary64 holds exactly. *)
Lemma score_equation (version : cpython)
    (count points comments content_count : Z) (items : list (Z * Z)) :
  fits count -> fits points -> fits comments -> fits content_count ->
  magnitude items < 2 ^ 53 ->
  let base := base_formula count points comments content_count in
  let social := exact (doubled items) (-1) in
  score version count points comments content_count items =
  Return {| base_score := Float base;
            social_score := match items with
                            | [] => Int 0
                            | _ => Float social
                            end;
            total_score := Float (fadd base social) |}.
Proof.
  intros H1 H2 H3 H4 Hb. cbv zeta.
  unfold score, _compute_score. rewrite (sum_exact version items Hb).
  cbn [bind]. unfold metrics_dict, aggregate.
  cbn [get String.eqb Ascii.eqb Bool.eqb Db.s_articles Db.s_hn_points
       Db.s_hn_comments Db.s_crawled_count].
  rewrite !int_mul_float_fits by assumption. cbn [bind].
  fold (base_formula count points comments content_count).
  destruct items as [|item items]; reflexivity.
Qed.

(** Without comments and content rows the base line needs no
    rounding. *)
Lemma base_exact (count points : Z) :
  2 * Z.abs count + Z.abs points < 2 ^ 53 ->
  base_formula count points 0 0 = exact (2 * count + points) (-1).
Proof.
  intros Hb.
  assert (Hc : fits count) by (unfold fits; lia).
  assert (Hc2 : fits (2 * count)) by (unfold fits; lia).
  assert (Hp : fits points) by (unfold fits; lia).
  assert (Hcp : fits (2 * count + points)) by (unfold fits; lia).
  unfold base_formula.
  rewrite (nearest_exact count Hc), (nearest_exact points Hp).
  rewrite literal_1_0, literal_0_5, literal_0_2, literal_0_1.
  rewrite (fmul_power count 0 (-52) Hc) by lia.
  rewrite (fmul_power points 0 (-53) Hp) by lia.
  change (0 + -52 + 52) with 0. change (0 + -53 + 52) with (-1).
  rewrite <- (exact_double count 0 Hc2). change (0 - 1) with (-1).
  rewrite fadd_exact by (assumption || lia).
  change (fmul (nearest 0) (S754_finite false 7205759403792794 (-55)))
    with (exact 0 (-1)).
  change (fmul (nearest 0) (S754_finite false 7205759403792794 (-56)))
    with (exact 0 (-1)).
  assert (H0 : fits 0) by reflexivity.
  rewrite (fadd_exact (2 * count + points) 0)
    by (rewrite ?Z.add_0_r; assumption || lia).
  rewrite Z.add_0_r.
  rewrite (fadd_exact (2 * count + points) 0)
    by (rewrite ?Z.add_0_r; assumption || lia).
  rewrite Z.add_0_r. reflexivity.
Qed.

(** C9: the score is a function of the aggregate and the social items
    alone. For integers binary64 holds exactly, and under either
    implementation of the built-in [sum], the call returns; base is
    count*1.0 + points*0.5 + comments*0.2 + content_count*0.1 as Python
    evaluates it, in binary64 and from left to right; social is exactly
    the sum over the items of score + comments*0.5 (the [int] 0 for no
    item); total is base + social in binary64. One item with score 5 and
    2 comments gives social = 6.0. The base line is a rounded value: it
    is exactly count + points/2 when there are no comments and no content
    rows, but with 3 comments and 1 content row alone it is
    6305039478318695 * 2^-53, the binary64 number printed
    0.7000000000000001, and not 7/10; for the aggregate 2, 10, 3, 1 it is
    8669429282688204 * 2^-50, printed 7.699999999999999. *)
Theorem score_follows_formula (version : cpython)
    (count points comments content_count : Z) (items : list (Z * Z)) :
  fits count -> fits points -> fits comments -> fits content_count ->
  magnitude items < 2 ^ 53 ->
  let base := base_formula count points comments content_count in
  let social := exact (doubled items) (-1) in
  score version count points comments content_count items =
    Return {| base_score := Float base;
              social_score := match items with
                              | [] => Int 0
                              | _ => Float social
                              end;
              total_score := Float (fadd base social) |} /\
  is_value social (social_formula items) /\
  score version count points comments content_count [(5, 2)] =
    Return {| base_score := Float base;
              social_score := Float (literal 60 1);
              total_score := Float (fadd base (literal 60 1)) |} /\
  (comments = 0 -> content_count = 0 ->
   2 * Z.abs count + Z.abs points < 2 ^ 53 ->
   is_value base (inject_Z count + inject_Z points * (1 # 2))%Q) /\
  base_formula 0 0 3 1 = S754_finite false 6305039478318695 (-53) /\
  ~ is_value (base_formula 0 0 3 1) (7 # 10) /\
  base_formula 2 10 3 1 = S754_finite false 8669429282688204 (-50).
Proof.
  intros H1 H2 H3 H4 Hb. cbv zeta.
  split; [apply score_equation; assumption|].
  split.
  - pose proof (doubled_bound items) as Hd.
    assert (Hf : fits (doubled items)) by (unfold fits; lia).
    pose proof (value_exact (doubled items) (-1) Hf) as Hv.
    unfold is_value in *. destruct (value (exact (doubled items) (-1)));
      [|contradiction].
    rewrite Hv. apply social_value.
  - split; [|split; [|split; [|split]]].
    + rewrite (score_equation version count points comments content_count
                 [(5, 2)]) by (assumption || (cbn; lia)).
      reflexivity.
    + intros -> -> Hcp. rewrite (base_exact count points Hcp).
      assert (Hf : fits (2 * count + points)) by (unfold fits; lia).
      pose proof (value_exact (2 * count + points) (-1) Hf) as Hv.
      unfold is_value in *.
      destruct (value (exact (2 * count + points) (-1))); [|contradiction].
      rewrite Hv, inject_Z_plus, inject_Z_mult.
      change (2 ^ (-1))%Q with (1 # 2)%Q. change (inject_Z 2) with 2%Q.
      ring.
    + vm_compute. reflexivity.
    + vm_compute. discriminate.
    + vm_compute. reflexivity.
Qed.

Lemma score_follows_formula_witness :
  score from_3_12 2 10 3 1 [(5, 2); (-1, 7)] =
  Return {| base_score := Float (base_formula 2 10 3 1);
            social_score := Float (exact (doubled [(5, 2); (-1, 7)]) (-1));
            total_score :=
              Float (fadd (base_formula 2 10 3 1)
                          (exact (doubled [(5, 2); (-1, 7)]) (-1))) |}.
Proof.
  apply (proj1 (score_follows_formula from_3_12 2 10 3 1 [(5, 2); (-1, 7)]
                  ltac:(vm_compute; reflexivity)
                  ltac:(vm_compute; reflexivity)
                  ltac:(vm_compute; reflexivity)
                  ltac:(vm_compute; reflexivity)
                  ltac:(vm_compute; reflexivity))).
Defined.

End ScoreFacts.

(* ================================================================== *)
(** ** More on article upsert *)
(* ================================================================== *)

Module UpsertMore.
Import Py Db Store Runs.
Local Open Scope list_scope.

Lemma int_or_0_or_0 (o : option Z) : int_or_0 o = or_0 o.
Proof. destruct o as [n|]; [apply UpsertFacts.int_or_0_Some | reflexivity]. Qed.

Lemma no_rows_select (u : string) (db : Database) :
  rows_with_url u db = [] -> select_id_by_url u db = None.
Proof. intros H. rewrite UpsertFacts.select_rows, H. reflexivity. Qed.

Lemma NoDup_map_same {A B} (f : A -> B) (l : list A) (x y : A) :
  NoDup (map f l) -> In x l -> In y l -> f x = f y -> x = y.
Proof.
  induction l as [|z l IH]; intros Hnd Hx Hy Hf; [destruct Hx|].
  simpl in Hnd. inversion Hnd as [|? ? Hz Hnd']; subst.
  destruct Hx as [->|Hx], Hy as [->|Hy]; auto.
  - exfalso. apply Hz. rewrite Hf. apply in_map. exact Hy.
  - exfalso. apply Hz. rewrite <- Hf. apply in_map. exact Hx.
Qed.

(** An upsert keeps the id every URL resolves to. *)
Lemma select_preserved (now : string) (a : Article) (topic : option string)
    (db : Database) (v : string) (j : Z) :
  select_id_by_url v db = Some j ->
  select_id_by_url v (db_after (upsert_article now a topic db) db) = Some j.
Proof.
  intros Hsel.
  pose proof (IngestFacts.identity_resolves a) as Hid.
  destruct (identity a) as [u|] eqn:Hu.
  - destruct (select_id_by_url u db) as [i|] eqn:Hi.
    + rewrite (UpsertFacts.upsert_update_path now a topic db u i Hid Hi).
      simpl. rewrite UpsertFacts.select_rows in *.
      unfold rows_with_url at 1. simpl.
      rewrite UpsertFacts.rows_after_update.
      destruct (rows_with_url v db) as [|x rest]; [discriminate|].
      simpl in *. destruct (r_id x =? i); exact Hsel.
    + rewrite (UpsertFacts.upsert_insert_path now a topic db u Hid Hi).
      simpl. rewrite UpsertFacts.select_rows in *.
      unfold rows_with_url in *. simpl. rewrite filter_app.
      destruct (filter _ (articles db)); [discriminate | exact Hsel].
  - rewrite (IngestFacts.upsert_missing now a topic db Hu). exact Hsel.
Qed.

Lemma select_preserved_all (calls : list Upsert) (db : Database)
    (v : string) (j : Z) :
  select_id_by_url v db = Some j ->
  select_id_by_url v (upsert_all calls db) = Some j.
Proof.
  revert db. induction calls as [|c calls IH]; intros db H; [exact H|].
  simpl. apply IH. unfold upsert. apply select_preserved, H.
Qed.

(** Whatever the record, a call keeps the table well formed. *)
Lemma upsert_any_well_formed (db : Database) (call : Upsert) :
  well_formed db -> well_formed (upsert db call).
Proof.
  intros Hwf. unfold upsert.
  pose proof (IngestFacts.identity_resolves (up_article call)) as Hid.
  destruct (identity (up_article call)) as [u|] eqn:Hu.
  - eapply UpsertFacts.upsert_well_formed; eassumption.
  - rewrite (IngestFacts.upsert_missing _ _ _ _ Hu). exact Hwf.
Qed.

Lemma next_rowid_positive (ids : list Z) (seq : Z) :
  0 <= seq -> 0 < next_rowid ids seq.
Proof.
  intros H. unfold next_rowid.
  assert (seq <= fold_right Z.max seq ids).
  { induction ids as [|i ids IH]; cbn [fold_right]; lia. }
  lia.
Qed.

Lemma upsert_any_positive (db : Database) (call : Upsert) :
  positive_ids db -> positive_ids (upsert db call).
Proof.
  intros [Hids Hseq]. unfold upsert.
  pose proof (IngestFacts.identity_resolves (up_article call)) as Hid.
  destruct (identity (up_article call)) as [u|] eqn:Hu.
  - destruct (select_id_by_url u db) as [i|] eqn:Hi.
    + rewrite (UpsertFacts.upsert_update_path _ _ _ db u i Hid Hi). simpl.
      split; [|exact Hseq]. simpl. rewrite Forall_map.
      eapply Forall_impl; [|exact Hids].
      intros r Hr. destruct (r_id r =? i); exact Hr.
    + rewrite (UpsertFacts.upsert_insert_path _ _ _ db u Hid Hi). simpl.
      pose proof (next_rowid_positive (map r_id (articles db))
                    (articles_seq db) Hseq) as Hpos.
      split; simpl; [|lia].
      apply Forall_app. split; [exact Hids|]. constructor; [|constructor].
      exact Hpos.
  - rewrite (IngestFacts.upsert_missing _ _ _ _ Hu). split; assumption.
Qed.

(** X1: upserting a record whose canonical URL is not stored yet appends
    exactly one row and changes nothing else; the new row's id is larger
    than every id in the table and than the AUTOINCREMENT counter, so ids
    are never reused; both timestamps are the time of the call and null
    [points] or [comments_count] are stored as 0. *)
Theorem upsert_new_url_appends_fresh_row (now : string) (a : Article)
    (topic : option string) (db : Database) (u : string) :
  resolves_to a u -> rows_with_url u db = [] ->
  exists i r,
    upsert_article now a topic db =
      Ok (i, set_articles (articles db ++ [r]) i db) /\
    r_id r = i /\ r_url r = Some u /\
    Forall (fun x => r_id x < i) (articles db) /\ articles_seq db < i /\
    r_inserted_at r = Some now /\ r_updated_at r = Some now /\
    r_points r = Some (or_0 (points a)) /\
    r_comments_count r = Some (or_0 (comments_count a)) /\
    r_topic r = topic.
Proof.
  intros Hres Hnone. apply no_rows_select in Hnone.
  rewrite (UpsertFacts.upsert_insert_path now a topic db u Hres Hnone).
  eexists _, _. split; [reflexivity|]. simpl.
  rewrite !int_or_0_or_0.
  repeat (split; [reflexivity|]).
  split; [|split; [|repeat split]].
  - pose proof (UpsertFacts.next_rowid_fresh (map r_id (articles db))
                  (articles_seq db)) as H.
    rewrite Forall_map in H. exact H.
  - unfold next_rowid.
    assert (articles_seq db
            <= fold_right Z.max (articles_seq db) (map r_id (articles db))).
    { induction (map r_id (articles db)); cbn [fold_right]; lia. }
    lia.
Qed.

Lemma upsert_new_url_appends_fresh_row_witness :
  exists i r,
    upsert_article "t1" (only_url "v") (Some "ai") one_entity =
      Ok (i, set_articles (articles one_entity ++ [r]) i one_entity) /\
    r_id r = i /\ r_url r = Some "v" /\
    Forall (fun x => r_id x < i) (articles one_entity) /\
    articles_seq one_entity < i /\
    r_inserted_at r = Some "t1" /\ r_updated_at r = Some "t1" /\
    r_points r = Some (or_0 (points (only_url "v"))) /\
    r_comments_count r = Some (or_0 (comments_count (only_url "v"))) /\
    r_topic r = Some "ai".
Proof.
  apply (upsert_new_url_appends_fresh_row "t1" (only_url "v") (Some "ai")
           one_entity "v").
  - split; [reflexivity | discriminate].
  - reflexivity.
Defined.

(** The entities of other URLs and the content table are out of an
    upsert's reach. *)
Lemma other_urls_untouched (now : string) (a : Article)
    (topic : option string) (db : Database) (u v : string) :
  well_formed db -> resolves_to a u -> v <> u ->
  rows_with_url v (db_after (upsert_article now a topic db) db) =
    rows_with_url v db /\
  crawled_content (db_after (upsert_article now a topic db) db) =
    crawled_content db.
Proof.
  intros [_ Hids] Hres Hvu.
  destruct (select_id_by_url u db) as [i|] eqn:Hi.
  - rewrite (UpsertFacts.upsert_update_path now a topic db u i Hres Hi).
    simpl. split; [|reflexivity].
    unfold rows_with_url at 1. simpl. rewrite UpsertFacts.rows_after_update.
    erewrite map_ext_in; [apply map_id|].
    intros x Hx. destruct (Z.eqb_spec (r_id x) i) as [Hxi|]; [|reflexivity].
    exfalso. unfold rows_with_url in Hx. apply filter_In in Hx as [Hx Hxv].
    unfold select_id_by_url in Hi.
    destruct (find _ (articles db)) as [r0|] eqn:Hf; [|discriminate].
    apply find_some in Hf as [Hr0 Hr0u]. simpl in Hi. injection Hi as Hi.
    assert (x = r0).
    { eapply NoDup_map_same; [exact Hids | exact Hx | exact Hr0 | congruence]. }
    subst x. unfold text_eq in *.
    destruct (r_url r0) as [s|]; [|discriminate].
    apply String.eqb_eq in Hxv, Hr0u. congruence.
  - rewrite (UpsertFacts.upsert_insert_path now a topic db u Hres Hi).
    simpl. split; [|reflexivity].
    unfold rows_with_url. simpl. rewrite filter_app. simpl.
    destruct (String.eqb_spec u v); [congruence | apply app_nil_r].
Qed.

(** X2: an upsert touches only the entity of its own canonical URL: the
    entities stored under any other URL, and the whole content table, are
    exactly as before, on the update path and on the insert path. *)
Theorem upsert_leaves_other_urls (now : string) (a : Article)
    (topic : option string) (db : Database) (u v : string) :
  well_formed db -> resolves_to a u -> v <> u ->
  rows_with_url v (db_after (upsert_article now a topic db) db) =
    rows_with_url v db /\
  crawled_content (db_after (upsert_article now a topic db) db) =
    crawled_content db.
Proof.
  intros Hwf Hres Hvu.
  destruct (other_urls_untouched now a topic db u v Hwf Hres Hvu)
    as [Hrows Hcontent].
  split; [exact Hrows | exact Hcontent].
Qed.

Lemma upsert_leaves_other_urls_witness :
  rows_with_url "u"
    (db_after (upsert_article "t1" (only_url "v") None one_entity)
       one_entity) = rows_with_url "u" one_entity /\
  crawled_content
    (db_after (upsert_article "t1" (only_url "v") None one_entity)
       one_entity) = crawled_content one_entity.
Proof.
  apply (upsert_leaves_other_urls "t1" (only_url "v") None one_entity
           "v" "u").
  - split; [intros w; unfold rows_with_url;
            etransitivity; [apply filter_length_le | vm_compute; constructor]
           | vm_compute; repeat constructor; intros []].
  - split; [reflexivity | discriminate].
  - discriminate.
Defined.

Lemma COALESCE_twice {A} (x y : option A) :
  COALESCE x (COALESCE x y) = COALESCE x y.
Proof. destruct x; reflexivity. Qed.

Lemma COALESCE_same {A} (x : option A) : COALESCE x x = x.
Proof. destruct x; reflexivity. Qed.

Lemma COALESCE_default (o : option Z) :
  COALESCE o (Some (int_or_0 o)) = Some (int_or_0 o).
Proof.
  destruct o as [n|]; [|reflexivity].
  rewrite UpsertFacts.int_or_0_Some. reflexivity.
Qed.

Lemma update_after_update (now1 now2 : string) (a : Article)
    (topic : option string) (r : ArticleRow) :
  update_row now2 a topic (update_row now1 a topic r) =
  touched now2 (update_row now1 a topic r).
Proof.
  unfold update_row, touched. simpl.
  rewrite !COALESCE_twice. reflexivity.
Qed.

Lemma update_after_insert (now1 now2 : string) (i : Z) (u : string)
    (a : Article) (topic : option string) :
  update_row now2 a topic (insert_row now1 i u a topic) =
  touched now2 (insert_row now1 i u a topic).
Proof.
  unfold update_row, touched, insert_row.
  cbn [r_id r_url r_title r_source r_author r_created_at r_published_date
       r_points r_comments_count r_description r_abstract r_category
       r_arxiv_id r_hn_url r_topic r_inserted_at r_updated_at].
  rewrite !COALESCE_same, !COALESCE_default. reflexivity.
Qed.

(** X3: upserting the same record under the same topic a second time
    changes nothing but [updated_at]: the entity keeps its id and every
    attribute, one entity remains under the URL, and the entities of
    other URLs are as after the first call. *)
Theorem upsert_repeated_only_touches (db : Database) (now1 now2 : string)
    (a : Article) (topic : option string) (u : string) :
  well_formed db -> resolves_to a u ->
  exists i db1 db2 r1,
    upsert_article now1 a topic db = Ok (i, db1) /\
    upsert_article now2 a topic db1 = Ok (i, db2) /\
    rows_with_url u db1 = [r1] /\
    rows_with_url u db2 = [touched now2 r1] /\
    (forall v, v <> u -> rows_with_url v db2 = rows_with_url v db1) /\
    List.length (articles db2) = List.length (articles db1).
Proof.
  intros Hwf Hres.
  destruct (UpsertFacts.upsert_entity now1 a topic db u Hwf Hres)
    as (i & db1 & r1 & E1 & R1 & I1 & Hwf1 & Horigin).
  destruct (UpsertFacts.upsert_entity now2 a topic db1 u Hwf1 Hres)
    as (i2 & db2 & r2 & E2 & R2 & I2 & _ & Hsecond).
  destruct Hsecond as [(r0 & R0 & ->) | [R0 _]];
    [|rewrite R1 in R0; discriminate].
  rewrite R1 in R0. injection R0 as <-.
  simpl in I2. rewrite I1 in I2. subst i2.
  exists i, db1, db2, r1. split; [exact E1|]. split; [exact E2|].
  split; [exact R1|]. split; [|split].
  - rewrite R2. f_equal.
    destruct Horigin as [(r0 & _ & ->) | [_ ->]].
    + apply update_after_update.
    + apply update_after_insert.
  - intros v Hv.
    pose proof (other_urls_untouched now2 a topic db1 u v Hwf1 Hres Hv)
      as [H _].
    rewrite E2 in H. exact H.
  - assert (Hsel : select_id_by_url u db1 = Some i).
    { rewrite UpsertFacts.select_rows, R1. simpl. congruence. }
    rewrite (UpsertFacts.upsert_update_path now2 a topic db1 u i Hres Hsel)
      in E2.
    injection E2 as <-. simpl. apply length_map.
Qed.

Lemma upsert_repeated_only_touches_witness :
  exists i db1 db2 r1,
    upsert_article "t1" (dated "a") (Some "ai") empty = Ok (i, db1) /\
    upsert_article "t2" (dated "a") (Some "ai") db1 = Ok (i, db2) /\
    rows_with_url "a" db1 = [r1] /\
    rows_with_url "a" db2 = [touched "t2" r1] /\
    (forall v, v <> "a" -> rows_with_url v db2 = rows_with_url v db1) /\
    List.length (articles db2) = List.length (articles db1).
Proof.
  apply (upsert_repeated_only_touches empty "t1" "t2" (dated "a")
           (Some "ai") "a").
  - split; [intros v; simpl; lia | constructor].
  - split; [reflexivity | discriminate].
Defined.

(** X4: the id an upsert returns for a URL is the id the store resolves
    that URL to from then on: after any run of further upserts (failed
    ones included) the URL still resolves to it, and every later upsert
    of a record with that URL returns the same id. *)
Theorem upsert_id_is_stable (db : Database) (now : string) (a : Article)
    (topic : option string) (u : string) :
  well_formed db -> resolves_to a u ->
  exists i db1,
    upsert_article now a topic db = Ok (i, db1) /\
    forall calls : list Upsert,
      select_id_by_url u (upsert_all calls db1) = Some i /\
      forall now' b topic', resolves_to b u ->
        exists db2,
          upsert_article now' b topic' (upsert_all calls db1) = Ok (i, db2).
Proof.
  intros Hwf Hres.
  destruct (UpsertFacts.upsert_entity now a topic db u Hwf Hres)
    as (i & db1 & r1 & E1 & R1 & I1 & _ & _).
  exists i, db1. split; [exact E1|]. intros calls.
  assert (Hsel : select_id_by_url u (upsert_all calls db1) = Some i).
  { apply select_preserved_all.
    rewrite UpsertFacts.select_rows, R1. simpl. congruence. }
  split; [exact Hsel|].
  intros now' b topic' Hb.
  rewrite (UpsertFacts.upsert_update_path now' b topic' _ u i Hb Hsel).
  eauto.
Qed.

Lemma upsert_id_is_stable_witness :
  exists i db1,
    upsert_article "t1" (only_url "u") None empty = Ok (i, db1) /\
    forall calls : list Upsert,
      select_id_by_url "u" (upsert_all calls db1) = Some i /\
      forall now' b topic', resolves_to b "u" ->
        exists db2,
          upsert_article now' b topic' (upsert_all calls db1) = Ok (i, db2).
Proof.
  apply (upsert_id_is_stable empty "t1" (only_url "u") None "u").
  - split; [intros v; simpl; lia | constructor].
  - split; [reflexivity | discriminate].
Defined.

(** X5: starting from an empty database, any run of [upsert_article]
    calls, whatever the records and including calls that raise, leaves a
    table in which no two rows share a URL, no two rows share an id, every
    id is positive, and there are at most as many rows as calls. *)
Theorem upsert_runs_keep_urls_unique (calls : list Upsert) :
  well_formed (upsert_all calls empty) /\
  positive_ids (upsert_all calls empty) /\
  (List.length (articles (upsert_all calls empty)) <= List.length calls)%nat.
Proof.
  assert (H : forall db,
             well_formed db -> positive_ids db ->
             well_formed (upsert_all calls db) /\
             positive_ids (upsert_all calls db) /\
             (List.length (articles (upsert_all calls db))
              <= List.length calls + List.length (articles db))%nat).
  { induction calls as [|c calls IH]; intros db Hwf Hpos.
    - simpl. auto.
    - simpl.
      destruct (IH (upsert db c) (upsert_any_well_formed db c Hwf)
                  (upsert_any_positive db c Hpos)) as (H1 & H2 & H3).
      split; [exact H1|]. split; [exact H2|].
      assert (List.length (articles (upsert db c))
              <= S (List.length (articles db)))%nat; [|lia].
      unfold upsert.
      pose proof (IngestFacts.identity_resolves (up_article c)) as Hid.
      destruct (identity (up_article c)) as [u|] eqn:Hu.
      + destruct (select_id_by_url u db) as [i|] eqn:Hi.
        * rewrite (UpsertFacts.upsert_update_path _ _ _ db u i Hid Hi).
          simpl. rewrite length_map. lia.
        * rewrite (UpsertFacts.upsert_insert_path _ _ _ db u Hid Hi).
          simpl. rewrite length_app. simpl. lia.
      + rewrite (IngestFacts.upsert_missing _ _ _ _ Hu). simpl. lia. }
  destruct (H empty) as (H1 & H2 & H3).
  - split; [intros v; simpl; lia | constructor].
  - split; [constructor | simpl; lia].
  - split; [exact H1|]. split; [exact H2|]. simpl in H3. lia.
Qed.

End UpsertMore.

(* ================================================================== *)
(** ** More on content, aggregates and the embedding rows *)
(* ================================================================== *)

Module StoreMore.
Import Py Db Store Runs.
Local Open Scope list_scope.

Lemma content_nonempty_find (i : Z) (db : Database) :
  content_of i db = [] <->
  find (fun c => c_article_id c =? i) (crawled_content db) = None.
Proof.
  rewrite AttachFacts.find_content.
  destruct (content_of i db); simpl; split; congruence.
Qed.

(** X6: attaching content never changes what the aggregate says about
    articles, and moves its content count by exactly one on the first
    attachment for an article and not at all on a re-attachment. *)
Theorem attach_counts_content_once (iso_cutoff : Z -> string)
    (topic : option string) (days : option Z) (now : string) (i : Z)
    (u md : option string) (wc : option Z) (ca : option string)
    (db : Database) :
  let before := aggregate_signals iso_cutoff topic days db in
  let after :=
    aggregate_signals iso_cutoff topic days
      (upsert_crawled_content now i u md wc ca db) in
  s_articles after = s_articles before /\
  s_hn_points after = s_hn_points before /\
  s_hn_comments after = s_hn_comments before /\
  s_crawled_count after =
    s_crawled_count before +
    match content_of i db with [] => 1 | _ :: _ => 0 end.
Proof.
  cbv zeta. unfold aggregate_signals, upsert_crawled_content.
  rewrite AttachFacts.find_content.
  destruct (content_of i db) as [|c0 rest]; simpl.
  - repeat (split; [reflexivity|]). rewrite length_app. simpl. lia.
  - repeat (split; [reflexivity|]). rewrite length_map. lia.
Qed.

(** X7: [crawled_at] is defaulted on the first attachment only: with no
    row yet for the article, a null or empty [crawled_at] is stored as the
    time of the call; on a re-attachment an empty string is not null and
    replaces the stored time. *)
Theorem crawled_at_defaults_on_first_attachment (now : string) (i : Z)
    (u md : option string) (wc : option Z) (ca : option string)
    (db : Database) :
  truthy ca = false ->
  (content_of i db = [] ->
   exists c,
     content_of i (upsert_crawled_content now i u md wc ca db) = [c] /\
     c_crawled_at c = Some now /\ c_updated_at c = Some now /\
     c_word_count c = Some (or_0 wc)) /\
  (forall c0, content_of i db = [c0] -> ca = Some "" ->
   exists c,
     content_of i (upsert_crawled_content now i u md wc ca db) = [c] /\
     c_crawled_at c = Some "").
Proof.
  intros Hca. split.
  - intros Hnone. rewrite AttachFacts.content_after_attach, Hnone.
    rewrite Z.eqb_refl. simpl. eexists. split; [reflexivity|].
    simpl. unfold or_. rewrite Hca, UpsertMore.int_or_0_or_0. auto.
  - intros c0 H0 ->. rewrite AttachFacts.content_after_attach, H0. simpl.
    eexists. split; [reflexivity|].
    destruct (c_article_id c0 =? i) eqn:E; [reflexivity|].
    exfalso.
    assert (Hin : In c0 (content_of i db)) by (rewrite H0; left; auto).
    apply filter_In in Hin as [_ Hin]. congruence.
Qed.

Lemma crawled_at_defaults_on_first_attachment_witness :
  (content_of 1 one_entity = [] ->
   exists c,
     content_of 1
       (upsert_crawled_content "t1" 1 (Some "u") (Some "text") None
          (Some "") one_entity) = [c] /\
     c_crawled_at c = Some "t1" /\ c_updated_at c = Some "t1" /\
     c_word_count c = Some (or_0 None)) /\
  (forall c0, content_of 1 one_entity = [c0] -> Some "" = Some "" ->
   exists c,
     content_of 1
       (upsert_crawled_content "t1" 1 (Some "u") (Some "text") None
          (Some "") one_entity) = [c] /\
     c_crawled_at c = Some "").
Proof.
  apply (crawled_at_defaults_on_first_attachment "t1" 1 (Some "u")
           (Some "text") None (Some "") one_entity).
  reflexivity.
Defined.

(** After a call, the article has content and all of it carries the
    incoming text. *)
Lemma content_after_attach_text (now : string) (i : Z)
    (u md : option string) (wc : option Z) (ca : option string)
    (db : Database) :
  content_of i (upsert_crawled_content now i u md wc ca db) <> [] /\
  forall c, In c (content_of i (upsert_crawled_content now i u md wc ca db))
            -> c_markdown_content c = md.
Proof.
  rewrite AttachFacts.content_after_attach.
  destruct (content_of i db) as [|c0 rest] eqn:Hi.
  - rewrite Z.eqb_refl. simpl. split; [discriminate|].
    intros c [<-|[]]. reflexivity.
  - split; [discriminate|].
    intros c Hc. apply in_map_iff in Hc as (x & <- & Hx).
    assert (Hin : In x (content_of i db)) by (rewrite Hi; exact Hx).
    apply filter_In in Hin as [_ Hin]. rewrite Hin. reflexivity.
Qed.

(** X8: attach then fetch: once text has been attached to a stored
    article, every result of [fetch_articles_for_embedding] (whatever
    order the engine gives to equal dates) holds the article's row with
    that text, the empty string standing for a null text, and no row of
    that article with any other text. *)
Theorem attached_text_is_fetched
    (order_by : list Joined -> list Joined) (now : string) (a : ArticleRow)
    (u md : option string) (wc : option Z) (ca : option string)
    (db : Database) :
  orders_by_published_desc order_by ->
  In a (articles db) ->
  let db' := upsert_crawled_content now (r_id a) u md wc ca db in
  In (embedding_row a md) (fetch_articles_for_embedding order_by db') /\
  forall cc, In (a, cc) (order_by (left_join db')) ->
             select_embedding_columns (a, cc) = embedding_row a md.
Proof.
  intros Horder Ha db'.
  destruct (content_after_attach_text now (r_id a) u md wc ca db)
    as [Hne Hall].
  fold db' in Hne, Hall.
  destruct (Horder (left_join db')) as [Hp _].
  assert (Ha' : In a (articles db')).
  { unfold db', upsert_crawled_content.
    destruct (find _ (crawled_content db)); exact Ha. }
  assert (Hrow : forall c, In c (content_of (r_id a) db') ->
                           select_embedding_columns (a, Some c)
                           = embedding_row a md).
  { intros c Hc. unfold select_embedding_columns, embedding_row.
    rewrite (Hall c Hc). destruct md; reflexivity. }
  split.
  - pose proof (FetchFacts.left_join_complete db' a Ha') as Hjoin.
    destruct (content_of (r_id a) db') as [|c rest] eqn:Hc;
      [contradiction|].
    specialize (Hjoin c (or_introl eq_refl)).
    unfold fetch_articles_for_embedding.
    rewrite <- (Hrow c (or_introl eq_refl)).
    apply in_map. eapply Permutation_in; eassumption.
  - intros cc Hin.
    apply (Permutation_in _ (Permutation_sym Hp)) in Hin.
    destruct (FetchFacts.left_join_sound db' a cc Hin) as [_ Hcc].
    destruct cc as [c|]; [apply Hrow, Hcc | contradiction].
Qed.

Lemma attached_text_is_fetched_witness :
  let a := insert_row "t0" 1 "u" (only_url "u") (Some "Y") in
  In a (articles one_entity_with_content) /\
  In (embedding_row a (Some "new text"))
     (fetch_articles_for_embedding sort_scan
        (upsert_crawled_content "t1" 1 (Some "u") (Some "new text") None
           None one_entity_with_content)).
Proof.
  intros a.
  assert (Ha : In a (articles one_entity_with_content))
    by (left; reflexivity).
  split; [exact Ha|].
  exact (proj1 (attached_text_is_fetched sort_scan "t1" a (Some "u")
                  (Some "new text") None None one_entity_with_content
                  FetchFacts.sort_scan_orders Ha)).
Defined.

Lemma SUM_from (col : list (option Z)) (acc : option Z) :
  or_0 (fold_left (fun acc v =>
                     match v with
                     | Some n =>
                         Some (match acc with Some m => m + n | None => n end)
                     | None => acc
                     end) col acc)
  = or_0 acc + total (map or_0 col).
Proof.
  revert acc. induction col as [|v col IH]; intros acc; simpl.
  - lia.
  - rewrite IH. destruct v as [n|], acc as [m|]; simpl; lia.
Qed.

Lemma SUM_total (col : list (option Z)) :
  int_or_0 (SUM col) = total (map or_0 col).
Proof.
  rewrite UpsertMore.int_or_0_or_0. unfold SUM. rewrite SUM_from.
  reflexivity.
Qed.

(** X9: the two sums of [aggregate_signals] are plain integer totals over
    the rows the filters keep, a row with null [points] or
    [comments_count] adding 0; together with the count they are computed
    over the same rows. *)
Theorem aggregate_sums_read_null_as_zero (iso_cutoff : Z -> string)
    (topic : option string) (days : option Z) (db : Database) :
  let kept := filter (where_sql iso_cutoff topic days) (articles db) in
  let s := aggregate_signals iso_cutoff topic days db in
  s_articles s = Z.of_nat (List.length kept) /\
  s_hn_points s = total (map (fun r => or_0 (r_points r)) kept) /\
  s_hn_comments s = total (map (fun r => or_0 (r_comments_count r)) kept).
Proof.
  cbv zeta. unfold aggregate_signals. simpl.
  rewrite !SUM_total, !map_map. auto.
Qed.

Lemma where_sql_splits (iso_cutoff : Z -> string) (topic : option string)
    (days : option Z) (r : ArticleRow) :
  where_sql iso_cutoff topic days r =
  where_sql iso_cutoff topic None r && where_sql iso_cutoff None days r.
Proof.
  unfold where_sql. rewrite andb_true_r. reflexivity.
Qed.

Lemma filter_both {A} (p q : A -> bool) (l : list A) :
  filter p (filter q l) = filter (fun x => p x && q x) l.
Proof.
  induction l as [|x l IH]; [reflexivity|].
  simpl. destruct (q x); simpl; rewrite ?andb_false_r, ?andb_true_r.
  - destruct (p x); rewrite IH; reflexivity.
  - exact IH.
Qed.

(** X10: the filters of [aggregate_signals] only narrow: an empty topic
    string filters nothing, the rows kept under both filters are the rows
    kept under each, a row with neither publication nor creation time is
    dropped by any days filter, and the count never exceeds the number of
    stored articles, which is the count without filters. *)
Theorem aggregate_filters_only_narrow (iso_cutoff : Z -> string)
    (topic : option string) (days : option Z) (db : Database) :
  aggregate_signals iso_cutoff (Some "") days db =
    aggregate_signals iso_cutoff None days db /\
  filter (where_sql iso_cutoff topic days) (articles db) =
    filter (where_sql iso_cutoff topic None)
      (filter (where_sql iso_cutoff None days) (articles db)) /\
  (forall r d, days = Some d ->
     r_published_date r = None -> r_created_at r = None ->
     where_sql iso_cutoff topic days r = false) /\
  s_articles (aggregate_signals iso_cutoff topic days db)
    <= s_articles (aggregate_signals iso_cutoff None None db) /\
  s_articles (aggregate_signals iso_cutoff None None db) =
    Z.of_nat (List.length (articles db)).
Proof.
  split; [reflexivity|]. split; [|split; [|split]].
  - rewrite filter_both. apply filter_ext. apply where_sql_splits.
  - intros r d -> Hp Hc. unfold where_sql. rewrite Hp, Hc. simpl.
    apply andb_false_r.
  - unfold aggregate_signals. simpl.
    apply Nat2Z.inj_le. etransitivity; [apply filter_length_le|].
    induction (articles db) as [|r l IH]; simpl; lia.
  - unfold aggregate_signals. simpl. f_equal.
    induction (articles db) as [|r l IH]; simpl; congruence.
Qed.

Lemma left_join_articles (db : Database) :
  one_content_per_article db -> map fst (left_join db) = articles db.
Proof.
  intros Hone. unfold left_join.
  induction (articles db) as [|a l IH]; [reflexivity|].
  cbn [flat_map]. rewrite map_app, IH.
  specialize (Hone (r_id a)). unfold content_of in Hone.
  destruct (filter _ (crawled_content db)) as [|c [|c' rest]];
    simpl in *; [reflexivity | reflexivity | lia].
Qed.

(** X11: with at most one content row per article, as the schema's
    UNIQUE(article_id) keeps it, [fetch_articles_for_embedding] returns
    every stored article exactly once: as many rows as articles, and
    their URLs are the stored URLs in some order. *)
Theorem fetch_returns_each_article_once
    (order_by : list Joined -> list Joined) (db : Database) :
  orders_by_published_desc order_by -> one_content_per_article db ->
  List.length (fetch_articles_for_embedding order_by db) =
    List.length (articles db) /\
  Permutation (map r_url (articles db))
    (map e_url (fetch_articles_for_embedding order_by db)).
Proof.
  intros Horder Hone. destruct (Horder (left_join db)) as [Hp _].
  assert (Hurls : Permutation (map r_url (articles db))
                    (map e_url (fetch_articles_for_embedding order_by db))).
  { unfold fetch_articles_for_embedding. rewrite map_map.
    rewrite <- (left_join_articles db Hone), map_map.
    erewrite (map_ext (fun j => e_url (select_embedding_columns j)));
      [apply Permutation_map, Hp|].
    intros [a cc]. reflexivity. }
  split; [|exact Hurls].
  apply Permutation_length in Hurls. rewrite !length_map in Hurls.
  symmetry. exact Hurls.
Qed.

Lemma fetch_returns_each_article_once_witness :
  List.length (fetch_articles_for_embedding sort_scan two_of_one_date) =
    List.length (articles two_of_one_date) /\
  Permutation (map r_url (articles two_of_one_date))
    (map e_url (fetch_articles_for_embedding sort_scan two_of_one_date)).
Proof.
  apply (fetch_returns_each_article_once sort_scan two_of_one_date).
  - exact FetchFacts.sort_scan_orders.
  - intros i. unfold content_of.
    etransitivity; [apply filter_length_le | vm_compute; repeat constructor].
Defined.

End StoreMore.

(* ================================================================== *)
(** ** More on the ingest batch *)
(* ================================================================== *)

Module IngestMore.
Import Py Db Store Runs Cli Batch.
Local Open Scope list_scope.

Lemma get_after_set (k k0 : option string) (v : Z) (m : id_map) :
  id_map_get k (id_map_set k0 v m) =
  if VectorStore.id_eqb k0 k then Some v else id_map_get k m.
Proof.
  induction m as [|[k' v'] m IH]; simpl; [reflexivity|].
  destruct (VectorStore.id_eqb k' k0) eqn:E0; simpl.
  - apply IndexFacts.id_eqb_eq in E0. rewrite E0.
    destruct (VectorStore.id_eqb k0 k); reflexivity.
  - rewrite IH. destruct (VectorStore.id_eqb k' k) eqn:E;
      [|reflexivity].
    destruct (VectorStore.id_eqb k0 k) eqn:E1; [|reflexivity].
    apply IndexFacts.id_eqb_eq in E, E1. rewrite E, <- E1 in E0.
    rewrite IndexFacts.id_eqb_refl in E0. discriminate.
Qed.

Lemma url_resolves (a : Article) (u : string) :
  url a = Some u -> u <> "" -> resolves_to a u.
Proof.
  intros Hu Hne. split; [|exact Hne].
  unfold canonical_url, or_. rewrite Hu. simpl.
  destruct (String.eqb_spec u ""); [contradiction|]. simpl.
  destruct (String.eqb_spec u ""); [contradiction|]. reflexivity.
Qed.

Lemma selected_row (u : string) (i : Z) (db : Database) :
  select_id_by_url u db = Some i ->
  exists r, In r (rows_with_url u db) /\ r_id r = i.
Proof.
  rewrite UpsertFacts.select_rows.
  destruct (rows_with_url u db) as [|r rest]; [discriminate|].
  simpl. intros H. injection H as <-. exists r. split; [left|]; auto.
Qed.

Lemma upsert_keeps_content (now : string) (a : Article)
    (topic : option string) (db : Database) :
  Db.crawled_content (db_after (upsert_article now a topic db) db) =
  Db.crawled_content db.
Proof.
  pose proof (IngestFacts.identity_resolves a) as Hid.
  destruct (identity a) as [u|] eqn:Hu.
  - destruct (select_id_by_url u db) as [i|] eqn:Hi.
    + rewrite (UpsertFacts.upsert_update_path now a topic db u i Hid Hi).
      reflexivity.
    + rewrite (UpsertFacts.upsert_insert_path now a topic db u Hid Hi).
      reflexivity.
  - rewrite (IngestFacts.upsert_missing now a topic db Hu). reflexivity.
Qed.

(** One record that resolves: the step succeeds and keeps the state
    consistent, the ids of all URLs, and the keys of the map; its own
    URL now resolves to the id the map got. *)
Lemma record_step (utcnow : nat -> string) (topic : string) (a : Article)
    (s : Ingest) :
  consistent s -> identity a <> None ->
  exists s' i,
    upsert_and_record utcnow topic a s = Done s' /\
    consistent s' /\
    Db.crawled_content (db s') = Db.crawled_content (db s) /\
    (forall v j, select_id_by_url v (db s) = Some j ->
                 select_id_by_url v (db s') = Some j) /\
    (forall k, id_map_get k (article_id_map s) <> None ->
               id_map_get k (article_id_map s') <> None) /\
    id_map_get (url a) (article_id_map s') = Some i /\
    (forall u, resolves_to a u -> select_id_by_url u (db s') = Some i).
Proof.
  intros (Hwf & Hpos & Hagree) Hid.
  pose proof (IngestFacts.identity_resolves a) as Hres.
  destruct (identity a) as [u|] eqn:Hu; [|contradiction].
  destruct (UpsertFacts.upsert_entity (utcnow (ticks s)) a (Some topic)
              (db s) u Hwf Hres)
    as (i & db1 & r1 & E1 & R1 & I1 & Hwf1 & _).
  assert (Hsel1 : select_id_by_url u db1 = Some i).
  { rewrite UpsertFacts.select_rows, R1. simpl. congruence. }
  assert (Hkeep : forall v j, select_id_by_url v (db s) = Some j ->
                              select_id_by_url v db1 = Some j).
  { intros v j Hv.
    pose proof (UpsertMore.select_preserved (utcnow (ticks s)) a
                  (Some topic) (db s) v j Hv) as H.
    rewrite E1 in H. exact H. }
  unfold upsert_and_record. rewrite E1.
  eexists _, i. split; [reflexivity|]. simpl.
  split; [|split; [|split; [exact Hkeep|split; [|split]]]].
  - split; [exact Hwf1|]. split.
    + pose proof (UpsertMore.upsert_any_positive (db s)
                    {| up_now := utcnow (ticks s); up_article := a;
                       up_topic := Some topic |} Hpos) as H.
      unfold upsert in H. simpl in H. rewrite E1 in H. exact H.
    + intros w v Hw Hget. simpl in *. rewrite get_after_set in Hget.
      destruct (VectorStore.id_eqb (url a) (Some w)) eqn:E.
      * injection Hget as <-. apply IndexFacts.id_eqb_eq in E.
        destruct (url_resolves a w E Hw) as [Hcan _].
        destruct Hres as [Hcan' _]. rewrite Hcan in Hcan'.
        injection Hcan' as ->. exact Hsel1.
      * apply Hkeep, Hagree; assumption.
  - pose proof (upsert_keeps_content (utcnow (ticks s)) a (Some topic)
                  (db s)) as H.
    rewrite E1 in H. exact H.
  - intros k Hk. rewrite get_after_set.
    destruct (VectorStore.id_eqb (url a) k); [discriminate | exact Hk].
  - rewrite get_after_set, IndexFacts.id_eqb_refl. reflexivity.
  - intros w [Hw _]. destruct Hres as [Hcan _]. rewrite Hcan in Hw.
    injection Hw as <-. exact Hsel1.
Qed.

(** A loop over records that all resolve. *)
Lemma records_loop (utcnow : nat -> string) (topic : string)
    (l : list Article) (s : Ingest) :
  consistent s -> Forall (fun a => identity a <> None) l ->
  exists s',
    for_each (upsert_and_record utcnow topic) l s = Done s' /\
    consistent s' /\
    Db.crawled_content (db s') = Db.crawled_content (db s) /\
    (forall v j, select_id_by_url v (db s) = Some j ->
                 select_id_by_url v (db s') = Some j) /\
    (forall k, id_map_get k (article_id_map s) <> None ->
               id_map_get k (article_id_map s') <> None) /\
    (forall a, In a l ->
       id_map_get (url a) (article_id_map s') <> None /\
       forall u, resolves_to a u -> select_id_by_url u (db s') <> None).
Proof.
  intros Hs Hall. revert s Hs.
  induction Hall as [|a l Ha _ IH]; intros s Hs.
  - exists s. simpl. split; [reflexivity|]. split; [exact Hs|].
    split; [reflexivity|]. split; [auto|]. split; [auto|]. intros a [].
  - destruct (record_step utcnow topic a s Hs Ha)
      as (s1 & i & E1 & Hs1 & Hc1 & Hsel1 & Hkey1 & Hget1 & Hres1).
    destruct (IH s1 Hs1) as (s' & E & Hs' & Hc & Hsel & Hkey & Hin).
    exists s'. simpl. rewrite E1.
    split; [exact E|]. split; [exact Hs'|].
    split; [congruence|]. split; [auto|]. split; [auto|].
    intros b [<-|Hb]; [|apply Hin, Hb].
    split.
    + apply Hkey. rewrite Hget1. discriminate.
    + intros u Hu. rewrite (Hsel u i (Hres1 u Hu)). discriminate.
Qed.

Lemma arxiv_record_resolves (a : Article) (au : string) :
  arxiv_url a = Some au -> au <> "" -> resolves_to (arxiv_record a) au.
Proof.
  intros Hau Hne. apply url_resolves; [|exact Hne].
  unfold arxiv_record, or_. simpl. rewrite Hau. simpl.
  destruct (String.eqb_spec au ""); [contradiction | reflexivity].
Qed.

Lemma consistent_fresh : consistent fresh.
Proof.
  split; [split; [intros v; simpl; lia | constructor]|].
  split; [split; [constructor | simpl; lia]|].
  intros u v _ H. discriminate H.
Qed.

(** X12: when every record of a batch has an identifier, the metadata
    phase of [cmd_ingest] runs to its end and leaves exactly one stored
    entity for the URL of each record, however often the URL occurs in
    the batch and across the three sources; an arXiv record is stored
    under its abstract URL even when it also carries an explicit URL;
    entities stored before keep their ids and the content table is not
    touched. *)
Theorem persist_metadata_stores_each_url_once (utcnow : nat -> string)
    (topic : string) (results : Results) (s : Ingest) :
  consistent s ->
  Forall (fun a => identity a <> None) (upserted results) ->
  exists s',
    persist_metadata utcnow topic results s = Done s' /\
    consistent s' /\
    Db.crawled_content (db s') = Db.crawled_content (db s) /\
    (forall a u, In a (upserted results) -> resolves_to a u ->
       List.length (rows_with_url u (db s')) = 1%nat) /\
    (forall a au, In a (arxiv results) -> arxiv_url a = Some au ->
       au <> "" -> List.length (rows_with_url au (db s')) = 1%nat) /\
    (forall v j, select_id_by_url v (db s) = Some j ->
                 select_id_by_url v (db s') = Some j).
Proof.
  intros Hs Hall. rewrite IngestFacts.persist_metadata_one_loop.
  destruct (records_loop utcnow topic (upserted results) s Hs Hall)
    as (s' & E & Hs' & Hc & Hsel & _ & Hin).
  exists s'. split; [exact E|]. split; [exact Hs'|]. split; [exact Hc|].
  assert (Hone : forall a u, In a (upserted results) -> resolves_to a u ->
                   List.length (rows_with_url u (db s')) = 1%nat).
  { intros a u Ha Hu. destruct (Hin a Ha) as [_ Hpresent].
    specialize (Hpresent u Hu).
    destruct Hs' as [[Huniq _] _]. specialize (Huniq u).
    rewrite UpsertFacts.select_rows in Hpresent.
    destruct (rows_with_url u (db s')) as [|r [|r' rest]];
      simpl in *; [contradiction | reflexivity | lia]. }
  split; [exact Hone|]. split; [|exact Hsel].
  intros a au Ha Hau Hne.
  apply (Hone (arxiv_record a) au).
  - unfold upserted. apply in_or_app. right. apply in_or_app. left.
    apply in_map, Ha.
  - apply arxiv_record_resolves; assumption.
Qed.

(** X13: after the metadata phase, [article_id_map] sends every
    non-empty record URL of the batch to the id of the entity stored
    under that URL, and that id is positive; so the lookup
    [article_id_map.get(url)] that follows in [cmd_ingest] finds a true
    value for each of them. *)
Theorem persist_metadata_maps_urls_to_ids (utcnow : nat -> string)
    (topic : string) (results : Results) (s : Ingest) :
  consistent s ->
  Forall (fun a => identity a <> None) (upserted results) ->
  exists s',
    persist_metadata utcnow topic results s = Done s' /\
    forall a u, In a (upserted results) -> url a = Some u -> u <> "" ->
      exists i,
        id_map_get (Some u) (article_id_map s') = Some i /\
        select_id_by_url u (db s') = Some i /\ 0 < i.
Proof.
  intros Hs Hall. rewrite IngestFacts.persist_metadata_one_loop.
  destruct (records_loop utcnow topic (upserted results) s Hs Hall)
    as (s' & E & (Hwf & [Hpos _] & Hagree) & _ & _ & _ & Hin).
  exists s'. split; [exact E|].
  intros a u Ha Hu Hne. destruct (Hin a Ha) as [Hget _].
  rewrite Hu in Hget.
  destruct (id_map_get (Some u) (article_id_map s')) as [i|] eqn:Hi;
    [|contradiction].
  exists i. split; [reflexivity|].
  pose proof (Hagree u i Hne Hi) as Hsel. split; [exact Hsel|].
  destruct (selected_row u i (db s') Hsel) as (r & Hr & <-).
  unfold rows_with_url in Hr. apply filter_In in Hr as [Hr _].
  rewrite Forall_forall in Hpos. apply Hpos, Hr.
Qed.

Lemma sample_resolves :
  Forall (fun a => identity a <> None) (upserted Samples.sample_results).
Proof. repeat constructor; discriminate. Qed.

Lemma persist_metadata_stores_each_url_once_witness :
  exists s',
    persist_metadata (fun _ => "t") "ai" Samples.sample_results fresh
      = Done s' /\
    consistent s' /\
    Db.crawled_content (db s') = Db.crawled_content (db fresh) /\
    (forall a u, In a (upserted Samples.sample_results) ->
       resolves_to a u -> List.length (rows_with_url u (db s')) = 1%nat) /\
    (forall a au, In a (arxiv Samples.sample_results) ->
       arxiv_url a = Some au -> au <> "" ->
       List.length (rows_with_url au (db s')) = 1%nat) /\
    (forall v j, select_id_by_url v (db fresh) = Some j ->
                 select_id_by_url v (db s') = Some j).
Proof.
  apply (persist_metadata_stores_each_url_once (fun _ => "t") "ai"
           Samples.sample_results fresh).
  - exact consistent_fresh.
  - exact sample_resolves.
Defined.

Lemma persist_metadata_maps_urls_to_ids_witness :
  exists s',
    persist_metadata (fun _ => "t") "ai" Samples.sample_results fresh
      = Done s' /\
    forall a u, In a (upserted Samples.sample_results) ->
      url a = Some u -> u <> "" ->
      exists i,
        id_map_get (Some u) (article_id_map s') = Some i /\
        select_id_by_url u (db s') = Some i /\ 0 < i.
Proof.
  apply (persist_metadata_maps_urls_to_ids (fun _ => "t") "ai"
           Samples.sample_results fresh).
  - exact consistent_fresh.
  - exact sample_resolves.
Defined.

End IngestMore.

(* ================================================================== *)
(** ** Attaching the crawled pages *)
(* ================================================================== *)

Module CrawledFacts.
Import Py Db Store Runs Cli Batch.
Local Open Scope list_scope.

Section Crawled.

Variable utcnow : nat -> string.

(** What one entry does: nothing, or one attachment under the id the map
    holds for its URL. *)
Lemma attach_crawled_step (entry : string * CrawlResult) (s : Ingest) :
  exists s',
    attach_crawled utcnow entry s = Done s' /\
    article_id_map s' = article_id_map s /\
    articles (db s') = articles (db s) /\
    articles_seq (db s') = articles_seq (db s) /\
    ((s' = s /\
      (success (snd entry) = false \/
       id_map_get (Some (fst entry)) (article_id_map s) = None \/
       id_map_get (Some (fst entry)) (article_id_map s) = Some 0)) \/
     (exists i,
        success (snd entry) = true /\
        id_map_get (Some (fst entry)) (article_id_map s) = Some i /\
        i <> 0 /\
        db s' =
          upsert_crawled_content (utcnow (ticks s)) i (Some (fst entry))
            (Some (Preprocess.or_empty (markdown_content (snd entry))))
            (Some (int_or_0 (word_count (snd entry))))
            (crawled_at (snd entry)) (db s))).
Proof.
  destruct entry as [u c]. unfold attach_crawled. simpl.
  destruct (success c); simpl.
  2:{ exists s. repeat split; auto. }
  destruct (id_map_get (Some u) (article_id_map s)) as [i|] eqn:Hget.
  2:{ exists s. repeat split; auto. }
  destruct (Z.eqb_spec i 0) as [->|Hi].
  { exists s. repeat split; auto. }
  eexists. split; [reflexivity|]. simpl.
  split; [reflexivity|].
  split; [unfold upsert_crawled_content;
          destruct (find _ (Db.crawled_content (db s))); reflexivity|].
  split; [unfold upsert_crawled_content;
          destruct (find _ (Db.crawled_content (db s))); reflexivity|].
  right. exists i. auto.
Qed.

Lemma persist_crawled_runs (results : Results) (s : Ingest) :
  exists s',
    persist_crawled utcnow results s = Done s' /\
    article_id_map s' = article_id_map s /\
    articles (db s') = articles (db s).
Proof.
  unfold persist_crawled.
  generalize (Cli.crawled_content results) as entries.
  intros entries. revert s.
  induction entries as [|e entries IH]; intros s.
  - exists s. simpl. auto.
  - destruct (attach_crawled_step e s) as (s1 & E1 & Hm1 & Ha1 & _).
    destruct (IH s1) as (s' & E & Hm & Ha).
    exists s'. simpl. rewrite E1.
    split; [exact E|]. split; congruence.
Qed.

(** X14: the crawled-content phase of [cmd_ingest] never raises and
    never touches the articles table or the id map; it writes at most
    one content row per successful crawl, and nothing at all when every
    crawl failed or names a URL the map does not know. *)
Theorem persist_crawled_only_attaches (results : Results) (s : Ingest) :
  exists s',
    persist_crawled utcnow results s = Done s' /\
    article_id_map s' = article_id_map s /\
    articles (db s') = articles (db s) /\
    (List.length (Db.crawled_content (db s'))
     <= List.length (Db.crawled_content (db s))
        + List.length (filter (fun e => success (snd e))
                         (Cli.crawled_content results)))%nat /\
    (Forall (fun e => success (snd e) = false \/
                      id_map_get (Some (fst e)) (article_id_map s) = None)
            (Cli.crawled_content results) -> s' = s).
Proof.
  unfold persist_crawled.
  generalize (Cli.crawled_content results) as entries.
  intros entries. revert s.
  induction entries as [|e entries IH]; intros s.
  - exists s. simpl. repeat split; auto. lia.
  - destruct (attach_crawled_step e s)
      as (s1 & E1 & Hm1 & Ha1 & _ & Hstep).
    destruct (IH s1) as (s' & E & Hm & Ha & Hlen & Hsame).
    exists s'. simpl. rewrite E1.
    split; [exact E|]. split; [congruence|]. split; [congruence|].
    split.
    + destruct Hstep as [[-> Hskip] | (i & Hsucc & _ & _ & Hdb)].
      * destruct (success (snd e)); simpl; lia.
      * rewrite Hsucc. simpl.
        assert (List.length (Db.crawled_content (db s1))
                <= S (List.length (Db.crawled_content (db s))))%nat; [|lia].
        rewrite Hdb. unfold upsert_crawled_content.
        destruct (find _ (Db.crawled_content (db s))); simpl.
        -- rewrite length_map. lia.
        -- rewrite length_app. simpl. lia.
    + intros Hall. inversion Hall as [|? ? He Hrest]; subst.
      destruct Hstep as [[-> _] | (i & Hsucc & Hget & _ & _)].
      * apply Hsame. exact Hrest.
      * destruct He; congruence.
Qed.

(** The phase changes neither the map nor the articles, so it keeps the
    state consistent. *)
Lemma consistent_same_articles (s s' : Ingest) :
  consistent s ->
  article_id_map s' = article_id_map s ->
  articles (db s') = articles (db s) ->
  articles_seq (db s') = articles_seq (db s) ->
  consistent s'.
Proof.
  intros ([Hu Hi] & [Hp Hq] & Hagree) Hm Ha Hs.
  unfold consistent, well_formed, unique_urls, unique_ids, positive_ids,
    map_agrees, rows_with_url, select_id_by_url in *.
  rewrite Hm, Ha, Hs. auto.
Qed.

(** Two non-empty URLs the map knows have different ids. *)
Lemma known_urls_have_own_ids (s : Ingest) (u u' : string) (i i' : Z) :
  consistent s -> u <> "" -> u' <> "" -> u <> u' ->
  id_map_get (Some u) (article_id_map s) = Some i ->
  id_map_get (Some u') (article_id_map s) = Some i' ->
  i <> i'.
Proof.
  intros ([_ Hids] & _ & Hagree) Hu Hu' Hne Hi Hi' ->.
  destruct (IngestMore.selected_row u i' (db s) (Hagree u i' Hu Hi))
    as (r & Hr & Hrid).
  destruct (IngestMore.selected_row u' i' (db s) (Hagree u' i' Hu' Hi'))
    as (r' & Hr' & Hrid').
  apply filter_In in Hr as [Hr Hru], Hr' as [Hr' Hru'].
  assert (r = r').
  { eapply UpsertMore.NoDup_map_same;
      [exact Hids | exact Hr | exact Hr' | congruence]. }
  subst r'. unfold text_eq in *.
  destruct (r_url r) as [x|]; [|discriminate].
  apply String.eqb_eq in Hru, Hru'. congruence.
Qed.

Lemma known_id_positive (s : Ingest) (u : string) (i : Z) :
  consistent s -> u <> "" ->
  id_map_get (Some u) (article_id_map s) = Some i -> 0 < i.
Proof.
  intros (_ & [Hpos _] & Hagree) Hu Hi.
  destruct (IngestMore.selected_row u i (db s) (Hagree u i Hu Hi))
    as (r & Hr & <-).
  apply filter_In in Hr as [Hr _].
  rewrite Forall_forall in Hpos. apply Hpos, Hr.
Qed.

Lemma attach_other_article (now : string) (i j : Z) (u md : option string)
    (wc : option Z) (ca : option string) (db : Database) :
  j <> i ->
  content_of j (upsert_crawled_content now i u md wc ca db) =
  content_of j db.
Proof.
  intros Hj. rewrite AttachFacts.content_after_attach.
  destruct (content_of i db) as [|c0 rest].
  - destruct (Z.eqb_spec j i); [contradiction | reflexivity].
  - erewrite map_ext_in; [apply map_id|].
    intros c Hc. apply filter_In in Hc as [_ Hc]. apply Z.eqb_eq in Hc.
    destruct (Z.eqb_spec (c_article_id c) i); [congruence | reflexivity].
Qed.

Lemma attach_own_article (now : string) (i : Z) (u md : option string)
    (wc : option Z) (ca : option string) (db : Database) :
  content_of i (upsert_crawled_content now i u md wc ca db) <> [] /\
  forall c, In c (content_of i (upsert_crawled_content now i u md wc ca db))
            -> c_url c = u /\ c_markdown_content c = md /\
               c_word_count c = Some (or_0 wc).
Proof.
  rewrite AttachFacts.content_after_attach.
  destruct (content_of i db) as [|c0 rest] eqn:Hi.
  - rewrite Z.eqb_refl. simpl. split; [discriminate|].
    intros c [<-|[]]. simpl. rewrite UpsertMore.int_or_0_or_0. auto.
  - split; [discriminate|].
    intros c Hc. apply in_map_iff in Hc as (x & <- & Hx).
    assert (Hin : In x (content_of i db)) by (rewrite Hi; exact Hx).
    apply filter_In in Hin as [_ Hin]. rewrite Hin. simpl.
    rewrite UpsertMore.int_or_0_or_0. auto.
Qed.

(** Entries for other URLs leave the content of an article alone. *)
Lemma persist_crawled_frame (entries : list (string * CrawlResult))
    (s : Ingest) (u : string) (i : Z) :
  consistent s -> u <> "" ->
  Forall (fun e => fst e <> "") entries ->
  ~ In u (map fst entries) ->
  id_map_get (Some u) (article_id_map s) = Some i ->
  exists s',
    for_each (attach_crawled utcnow) entries s = Done s' /\
    content_of i (db s') = content_of i (db s).
Proof.
  revert s. induction entries as [|e entries IH];
    intros s Hs Hu Hne Hnot Hi.
  - exists s. auto.
  - inversion Hne as [|? ? He Hne']; subst.
    destruct (attach_crawled_step e s)
      as (s1 & E1 & Hm1 & Ha1 & Hq1 & Hstep).
    destruct (IH s1) as (s' & E & Hc); auto.
    + eapply consistent_same_articles; eassumption.
    + intros Hin. apply Hnot. right. exact Hin.
    + congruence.
    + exists s'. simpl. rewrite E1. split; [exact E|]. rewrite Hc.
      destruct Hstep as [[-> _] | (i' & _ & Hget & _ & ->)];
        [reflexivity|].
      apply attach_other_article.
      apply (known_urls_have_own_ids s u (fst e) i i' Hs Hu He);
        [|exact Hi | exact Hget].
      intros Eu. apply Hnot. left. symmetry. exact Eu.
Qed.

(** A successful crawl result of a known URL leaves its text on that
    URL's entity. *)
Lemma crawled_text_lands (results : Results) (s : Ingest)
    (u : string) (c : CrawlResult) (i : Z) :
  consistent s ->
  NoDup (map fst (Cli.crawled_content results)) ->
  Forall (fun e => fst e <> "") (Cli.crawled_content results) ->
  In (u, c) (Cli.crawled_content results) -> success c = true ->
  id_map_get (Some u) (article_id_map s) = Some i ->
  exists s',
    persist_crawled utcnow results s = Done s' /\
    content_of i (db s') <> [] /\
    forall row, In row (content_of i (db s')) ->
      c_url row = Some u /\
      c_markdown_content row
        = Some (Preprocess.or_empty (markdown_content c)) /\
      c_word_count row = Some (or_0 (word_count c)).
Proof.
  unfold persist_crawled.
  generalize (Cli.crawled_content results) as entries.
  intros entries Hs Hnd Hne Hin Hsucc Hi. revert s Hs Hi.
  induction entries as [|e entries IH]; intros s Hs Hi; [destruct Hin|].
  inversion Hnd as [|? ? Hfresh Hnd']; subst.
  inversion Hne as [|? ? He Hne']; subst.
  destruct (attach_crawled_step e s) as (s1 & E1 & Hm1 & Ha1 & Hq1 & Hstep).
  assert (Hs1 : consistent s1)
    by (eapply consistent_same_articles; eassumption).
  destruct Hin as [->|Hin].
  - simpl in *.
    destruct Hstep as [[_ Hskip] | (i' & _ & Hget & _ & Hdb)].
    + exfalso. destruct Hskip as [H|[H|H]]; try congruence.
      rewrite Hi in H. injection H as ->.
      pose proof (known_id_positive s u 0 Hs He Hi). lia.
    + rewrite Hi in Hget. injection Hget as <-.
      destruct (persist_crawled_frame entries s1 u i Hs1 He Hne' Hfresh)
        as (s' & E & Hc); [congruence|].
      exists s'. rewrite E1. split; [exact E|]. rewrite Hc, Hdb.
      pose proof (attach_own_article (utcnow (ticks s)) i (Some u)
                    (Some (Preprocess.or_empty (markdown_content c)))
                    (Some (int_or_0 (word_count c))) (crawled_at c) (db s))
        as [Hne0 Hrows].
      split; [exact Hne0|].
      intros row Hrow. destruct (Hrows row Hrow) as (H1 & H2 & H3).
      rewrite H1, H2, H3. simpl. rewrite UpsertMore.int_or_0_or_0. auto.
  - destruct (IH Hnd' Hne' Hin s1 Hs1) as (s' & E & Hres); [congruence|].
    exists s'. simpl. rewrite E1. split; [exact E | exact Hres].
Qed.

(** X15: the text crawled for a URL ends up on the entity of that URL:
    when the crawl results are keyed by distinct non-empty URLs, every
    successful result whose URL the id map knows leaves, at the end of
    the crawled-content phase, content rows for that entity that carry
    the URL, the crawled text (the empty string for a missing text) and
    the word count (0 for a missing count). *)
Theorem crawled_text_reaches_its_entity (results : Results) (s : Ingest)
    (u : string) (c : CrawlResult) (i : Z) :
  consistent s ->
  NoDup (map fst (Cli.crawled_content results)) ->
  Forall (fun e => fst e <> "") (Cli.crawled_content results) ->
  In (u, c) (Cli.crawled_content results) -> success c = true ->
  id_map_get (Some u) (article_id_map s) = Some i ->
  exists s',
    persist_crawled utcnow results s = Done s' /\
    content_of i (db s') <> [] /\
    forall row, In row (content_of i (db s')) ->
      c_url row = Some u /\
      c_markdown_content row
        = Some (Preprocess.or_empty (markdown_content c)) /\
      c_word_count row = Some (or_0 (word_count c)).
Proof.
  intros Hs Hnd Hne Hin Hsucc Hi.
  destruct (crawled_text_lands results s u c i Hs Hnd Hne Hin Hsucc Hi)
    as (s' & E & Hsome & Hrows).
  exists s'. split; [exact E|]. split; [exact Hsome | exact Hrows].
Qed.

End Crawled.

Lemma crawled_text_reaches_its_entity_witness :
  let s :=
    state_of (persist_metadata (fun _ => "t") "ai" Samples.sample_results
                fresh) in
  exists s',
    persist_crawled (fun _ => "t") Samples.sample_results s = Done s' /\
    content_of 1 (db s') <> [] /\
    forall row, In row (content_of 1 (db s')) ->
      c_url row = Some "http://u" /\
      c_markdown_content row = Some "page text" /\
      c_word_count row = Some 2.
Proof.
  intros s.
  apply (crawled_text_reaches_its_entity (fun _ => "t")
           Samples.sample_results s "http://u"
           (Samples.crawled_page "page text") 1).
  - destruct (IngestMore.records_loop (fun _ => "t") "ai"
                (upserted Samples.sample_results) fresh
                IngestMore.consistent_fresh IngestMore.sample_resolves)
      as (s' & E & Hs' & _).
    unfold s. rewrite IngestFacts.persist_metadata_one_loop, E. exact Hs'.
  - repeat constructor. intros [].
  - repeat constructor. discriminate.
  - left. reflexivity.
  - reflexivity.
  - reflexivity.
Defined.

End CrawledFacts.

(* ================================================================== *)
(** ** More on embedding documents *)
(* ================================================================== *)

Module BuildMore.
Import Py Preprocess Cli.

Lemma build_depends_on_strip (a b c a' b' c' : option string) :
  strip (or_empty a) = strip (or_empty a') ->
  strip (or_empty b) = strip (or_empty b') ->
  strip (or_empty c) = strip (or_empty c') ->
  build_document_for_embedding a b c =
  build_document_for_embedding a' b' c'.
Proof.
  intros Ha Hb Hc. unfold build_document_for_embedding.
  rewrite Ha, Hb, Hc. reflexivity.
Qed.

Lemma strip_of_blank (l : string) : blank l = true -> strip l = "".
Proof.
  intros Hl. unfold strip. rewrite (StripFacts.lstrip_blank l Hl).
  reflexivity.
Qed.

(** X16: [build_document_for_embedding] does not see how its inputs are
    padded. In each of its three arguments, a text with whitespace before
    and after it gives the same document as the text alone, a string of
    whitespace only gives the same document as a missing value, and a
    missing value the same as the empty string. *)
Theorem build_document_ignores_padding (l t r : string)
    (title summary content : option string) :
  blank l = true -> blank r = true ->
  let padded := Some (l ++ t ++ r) in
  build_document_for_embedding padded summary content =
    build_document_for_embedding (Some t) summary content /\
  build_document_for_embedding title padded content =
    build_document_for_embedding title (Some t) content /\
  build_document_for_embedding title summary padded =
    build_document_for_embedding title summary (Some t) /\
  build_document_for_embedding (Some l) summary content =
    build_document_for_embedding None summary content /\
  build_document_for_embedding title (Some l) content =
    build_document_for_embedding title None content /\
  build_document_for_embedding title summary (Some l) =
    build_document_for_embedding title summary None /\
  build_document_for_embedding None summary content =
    build_document_for_embedding (Some "") summary content /\
  build_document_for_embedding title None content =
    build_document_for_embedding title (Some "") content /\
  build_document_for_embedding title summary None =
    build_document_for_embedding title summary (Some "").
Proof.
  intros Hl Hr. cbv zeta.
  pose proof (StripFacts.strip_padded l t r Hl Hr) as Hp.
  pose proof (strip_of_blank l Hl) as Hb.
  repeat split; apply build_depends_on_strip; cbn [or_empty];
    solve [reflexivity | exact Hp | exact Hb].
Qed.

Lemma build_document_ignores_padding_witness :
  build_document_for_embedding (Some "  A title ") (Some "unknown") None =
    build_document_for_embedding (Some "A title") (Some "unknown") None /\
  build_document_for_embedding (Some "T") (Some "  ") (Some "text") =
    build_document_for_embedding (Some "T") None (Some "text").
Proof.
  pose proof (build_document_ignores_padding "  " "A title" " "
                (Some "T") (Some "unknown") None eq_refl eq_refl) as H1.
  pose proof (build_document_ignores_padding "  " "" ""
                (Some "T") (Some "unknown") (Some "text") eq_refl eq_refl)
    as H2.
  split; [exact (proj1 H1) | exact (proj1 (proj2 (proj2 (proj2 (proj2 H2)))))].
Defined.

End BuildMore.

(* ================================================================== *)
(** ** Facts on the string methods *)
(* ================================================================== *)

Module PyStrFacts.
Import Preprocess PyStr.

Lemma lower_app (a b : string) : lower (a ++ b) = lower a ++ lower b.
Proof. induction a as [|c a IH]; simpl; congruence. Qed.

Lemma lower_char_idempotent (c : ascii) :
  lower_char (lower_char c) = lower_char c.
Proof.
  destruct c as [[] [] [] [] [] [] [] []]; reflexivity.
Qed.

Lemma lower_idempotent (s : string) : lower (lower s) = lower s.
Proof.
  induction s as [|c s IH]; simpl; [reflexivity|].
  rewrite lower_char_idempotent, IH. reflexivity.
Qed.

Lemma lower_char_space (c : ascii) : is_space (lower_char c) = is_space c.
Proof.
  destruct c as [[] [] [] [] [] [] [] []]; reflexivity.
Qed.

Lemma startswith_refl_app (p s : string) : startswith p (p ++ s) = true.
Proof.
  induction p as [|c p IH]; simpl; [reflexivity|].
  rewrite Ascii.eqb_refl. exact IH.
Qed.

Lemma startswith_app (p a b : string) :
  startswith p a = true -> startswith p (a ++ b) = true.
Proof.
  revert a. induction p as [|c p IH]; intros a; simpl; [reflexivity|].
  destruct a as [|d a]; simpl; [discriminate|].
  intros H. apply andb_true_iff in H as [H1 H2].
  rewrite H1. simpl. apply IH, H2.
Qed.

Lemma contains_app_l (k a b : string) :
  contains k a = true -> contains k (a ++ b) = true.
Proof.
  induction a as [|c a IH].
  - simpl. rewrite orb_false_r. destruct k; [|discriminate].
    intros _. destruct b; reflexivity.
  - cbn [contains]. intros H. apply orb_true_iff in H as [H|H].
    + change (String c a ++ b) with (String c (a ++ b)).
      cbn [contains].
      change (String c (a ++ b)) with (String c a ++ b).
      rewrite (startswith_app k (String c a) b H). reflexivity.
    + change (String c a ++ b) with (String c (a ++ b)).
      cbn [contains]. rewrite (IH H). apply orb_true_r.
Qed.

Lemma contains_app_r (k a b : string) :
  contains k b = true -> contains k (a ++ b) = true.
Proof.
  intros H. induction a as [|c a IH]; [exact H|].
  change (String c a ++ b) with (String c (a ++ b)).
  cbn [contains]. rewrite IH. apply orb_true_r.
Qed.

Lemma contains_middle (k a b : string) : contains k (a ++ k ++ b) = true.
Proof.
  apply contains_app_r.
  destruct (k ++ b) eqn:E; cbn [contains]; rewrite <- E;
    rewrite startswith_refl_app; reflexivity.
Qed.

Lemma endswith_app (e a : string) : endswith e (a ++ e) = true.
Proof.
  induction a as [|c a IH].
  - simpl. destruct e; cbn [endswith]; rewrite String.eqb_refl; reflexivity.
  - change (String c a ++ e) with (String c (a ++ e)).
    cbn [endswith]. rewrite IH. apply orb_true_r.
Qed.

Lemma startswith_nonempty (p s : string) :
  p <> "" -> startswith p s = true -> s <> "".
Proof.
  destruct p; [congruence|]. destruct s; simpl; [discriminate|].
  intros _ _. discriminate.
Qed.

(** [dict_fromkeys] keeps the keys, each once. *)
Lemma fromkeys_from (xs acc : list string) :
  NoDup acc ->
  let r := fold_left (fun keys x => if existsb (String.eqb x) keys
                                    then keys else (keys ++ [x])%list)
                     xs acc in
  NoDup r /\ forall x, In x r <-> In x acc \/ In x xs.
Proof.
  revert acc. induction xs as [|y xs IH]; intros acc Hnd; simpl.
  - split; [exact Hnd|]. intros x. tauto.
  - destruct (existsb (String.eqb y) acc) eqn:Hex.
    + destruct (IH acc Hnd) as [H1 H2]. split; [exact H1|].
      intros x. rewrite H2.
      apply existsb_exists in Hex as (z & Hz & E).
      apply String.eqb_eq in E. subst z.
      split; [tauto|]. intros [H|[<-|H]]; auto.
    + assert (Hnd' : NoDup (acc ++ [y])).
      { apply NoDup_app_remove_l with (l := []). simpl.
        apply Permutation_NoDup with (l := y :: acc);
          [apply Permutation_cons_append|].
        constructor; [|exact Hnd].
        intros Hin.
        assert (existsb (String.eqb y) acc = true); [|congruence].
        apply existsb_exists. exists y. split; [exact Hin|].
        apply String.eqb_refl. }
      destruct (IH (acc ++ [y])%list Hnd') as [H1 H2].
      split; [exact H1|].
      intros x. rewrite H2, in_app_iff. simpl. tauto.
Qed.

Lemma dict_fromkeys_spec (xs : list string) :
  NoDup (dict_fromkeys xs) /\
  forall x, In x (dict_fromkeys xs) <-> In x xs.
Proof.
  destruct (fromkeys_from xs [] (NoDup_nil _)) as [H1 H2].
  split; [exact H1|]. intros x. unfold dict_fromkeys. rewrite H2.
  simpl. tauto.
Qed.

End PyStrFacts.

(* ================================================================== *)
(** ** Which URLs are crawled *)
(* ================================================================== *)

Module CrawlUrlFacts.
Import Py Db Store Cli Batch Preprocess PyStr ContentProcessor.
Local Open Scope list_scope.

Lemma any_true {A} (p : A -> bool) (xs : list A) (x : A) :
  In x xs -> p x = true -> any p xs = true.
Proof. intros Hin Hp. apply existsb_exists. eauto. Qed.

Lemma valid_url_http (u : string) :
  _is_valid_url (Some u) = true ->
  u <> "" /\
  (startswith "http://" u = true \/ startswith "https://" u = true).
Proof.
  intros H. split.
  - intros ->. vm_compute in H. discriminate H.
  - unfold _is_valid_url in H.
    destruct (negb (nonempty u)); [discriminate H|].
    destruct (startswith "http://" u || startswith "https://" u) eqn:Hp;
      [|discriminate H].
    apply orb_true_iff. exact Hp.
Qed.

(** X17: [_is_valid_url] accepts only non-empty http(s) URLs, and the
    two skip lists work on the lower-cased URL: a URL ending in one of
    the document extensions in any letter case is refused, and so is a
    URL with one of the social domains anywhere in it, in any letter
    case, path and query included. *)
Theorem valid_url_is_http_and_skips_case_blind :
  (forall u, _is_valid_url (Some u) = true ->
     u <> "" /\
     (startswith "http://" u = true \/ startswith "https://" u = true)) /\
  (forall u ext, In (lower ext) skip_extensions ->
     _is_valid_url (Some (u ++ ext)%string) = false) /\
  (forall before domain after, In (lower domain) skip_domains ->
     _is_valid_url (Some (before ++ domain ++ after)%string) = false) /\
  _is_valid_url None = false.
Proof.
  split; [|split; [|split; [|reflexivity]]].
  - exact valid_url_http.
  - intros u ext Hext. unfold _is_valid_url.
    destruct (negb (nonempty (u ++ ext)%string)); [reflexivity|].
    destruct (negb _); [reflexivity|].
    rewrite (any_true (fun e => endswith e (lower (u ++ ext)%string))
               skip_extensions (lower ext) Hext); [reflexivity|].
    rewrite PyStrFacts.lower_app. apply PyStrFacts.endswith_app.
  - intros before domain after Hd. unfold _is_valid_url.
    destruct (negb (nonempty _)); [reflexivity|].
    destruct (negb _); [reflexivity|].
    destruct (any _ skip_extensions); [reflexivity|].
    rewrite (any_true (fun d => contains d
                                  (lower (before ++ domain ++ after)%string))
               skip_domains (lower domain) Hd); [reflexivity|].
    rewrite !PyStrFacts.lower_app. apply PyStrFacts.contains_middle.
Qed.

Lemma valid_urls_spec (records : list Article) (u : string) :
  In u (valid_urls records) <->
  exists a, In a records /\ url a = Some u /\
            _is_valid_url (Some u) = true.
Proof.
  unfold valid_urls. rewrite in_flat_map. split.
  - intros (a & Ha & Hu). exists a. split; [exact Ha|].
    destruct (url a) as [v|] eqn:Hv; [|destruct Hu].
    destruct (truthy (Some v) && _is_valid_url (Some v)) eqn:Hok;
      [|destruct Hu].
    destruct Hu as [<-|[]]. apply andb_true_iff in Hok as [_ Hok]. auto.
  - intros (a & Ha & Hu & Hok). exists a. split; [exact Ha|].
    rewrite Hu, Hok.
    assert (Ht : truthy (Some u) = true).
    { unfold _is_valid_url in Hok. simpl.
      destruct (nonempty u) eqn:E; [exact E | discriminate]. }
    rewrite Ht. left. reflexivity.
Qed.

Lemma unique_urls_spec (results : Results) (u : string) :
  In u (unique_urls results) <->
  exists a, In a (hackernews results ++ rss results) /\
            url a = Some u /\ _is_valid_url (Some u) = true.
Proof.
  destruct (PyStrFacts.dict_fromkeys_spec (all_urls results)) as [_ Hin].
  unfold unique_urls. rewrite Hin. unfold all_urls.
  rewrite in_app_iff, !valid_urls_spec. split.
  - intros [(a & Ha & H)|(a & Ha & H)]; exists a;
      (split; [apply in_or_app; auto | exact H]).
  - intros (a & Ha & H). apply in_app_or in Ha as [Ha|Ha];
      [left | right]; eauto.
Qed.

(** X18: the list of URLs [crawl_content_from_urls] sets out to crawl
    has no repetition, and holds exactly the URLs of the stories and feed
    items that [_is_valid_url] accepts; each is a non-empty http(s) URL.
    Preprints contribute nothing. *)
Theorem crawl_urls_are_distinct_and_valid (results : Results) :
  NoDup (unique_urls results) /\
  (forall u, In u (unique_urls results) <->
     exists a, In a (hackernews results ++ rss results) /\
               url a = Some u /\ _is_valid_url (Some u) = true) /\
  (forall u, In u (unique_urls results) ->
     u <> "" /\
     (startswith "http://" u = true \/ startswith "https://" u = true)).
Proof.
  destruct (PyStrFacts.dict_fromkeys_spec (all_urls results)) as [Hnd _].
  pose proof (unique_urls_spec results) as Hspec.
  split; [exact Hnd|]. split; [exact Hspec|].
  intros u Hu. apply Hspec in Hu as (a & _ & _ & Hok).
  apply valid_url_http, Hok.
Qed.

(** After the metadata phase every URL of the crawl list is in the id
    map, under the positive id of its entity. *)
Lemma crawl_urls_mapped (utcnow : nat -> string) (topic : string)
    (results : Results) (s : Ingest) :
  consistent s ->
  Forall (fun a => identity a <> None) (upserted results) ->
  exists s',
    persist_metadata utcnow topic results s = Done s' /\
    consistent s' /\
    forall u, In u (unique_urls results) ->
      exists i,
        id_map_get (Some u) (article_id_map s') = Some i /\
        0 < i /\ select_id_by_url u (db s') = Some i.
Proof.
  intros Hs Hall. rewrite IngestFacts.persist_metadata_one_loop.
  destruct (IngestMore.records_loop utcnow topic (upserted results) s
              Hs Hall)
    as (s' & E & Hs' & _ & _ & _ & Hin).
  exists s'. split; [exact E|]. split; [exact Hs'|].
  intros u Hu.
  apply unique_urls_spec in Hu as (a & Ha & Hurl & Hok).
  destruct (valid_url_http u Hok) as [Hne _].
  assert (Ha' : In a (upserted results)).
  { unfold upserted. apply in_app_or in Ha as [Ha|Ha];
      apply in_or_app; [left; exact Ha|].
    right. apply in_or_app. right. exact Ha. }
  destruct (Hin a Ha') as [Hget _]. rewrite Hurl in Hget.
  destruct (id_map_get (Some u) (article_id_map s')) as [i|] eqn:Hi;
    [|contradiction].
  exists i. split; [reflexivity|].
  split; [eapply CrawledFacts.known_id_positive; eassumption|].
  destruct Hs' as (_ & _ & Hagree). apply Hagree; assumption.
Qed.

(** X19: a whole [cmd_ingest] run attaches every crawled page to its
    article. When every record of the batch has an identifier and the
    crawl results are keyed, without repetition, by URLs of the crawl
    list, the command ends normally, and for each successful result the
    URL resolves to an entity whose content rows carry that URL, the
    crawled text and the word count. *)
Theorem cmd_ingest_attaches_crawled_pages (utcnow : nat -> string)
    (Embedding : Type) (encode : string -> Embedding)
    (order_by : list Joined -> list Joined) (topic : string)
    (results : Results) (s : Ingest)
    (index : list (VectorStore.IndexEntry Embedding)) :
  consistent s ->
  Forall (fun a => identity a <> None) (upserted results) ->
  NoDup (map fst (Cli.crawled_content results)) ->
  Forall (fun e => In (fst e) (unique_urls results))
         (Cli.crawled_content results) ->
  exists s' index',
    cmd_ingest utcnow Embedding encode order_by topic results s index
      = Done (s', index') /\
    forall u c, In (u, c) (Cli.crawled_content results) ->
      success c = true ->
      exists i,
        select_id_by_url u (db s') = Some i /\
        content_of i (db s') <> [] /\
        forall row, In row (content_of i (db s')) ->
          c_url row = Some u /\
          c_markdown_content row
            = Some (or_empty (markdown_content c)) /\
          c_word_count row = Some (Runs.or_0 (word_count c)).
Proof.
  intros Hs Hall Hnd Hkeys.
  destruct (crawl_urls_mapped utcnow topic results s Hs Hall)
    as (s1 & E1 & Hs1 & Hmap).
  assert (Hne : Forall (fun e => fst e <> "") (Cli.crawled_content results)).
  { eapply Forall_impl; [|exact Hkeys]. intros e He.
    apply unique_urls_spec in He as (a & _ & _ & Hok).
    apply (valid_url_http _ Hok). }
  destruct (CrawledFacts.persist_crawled_runs utcnow results s1)
    as (s2 & E2 & Hm2 & Ha2).
  exists s2. eexists. unfold cmd_ingest. rewrite E1, E2.
  split; [reflexivity|].
  intros u c Hin Hsucc.
  assert (Hu : In u (unique_urls results)).
  { rewrite Forall_forall in Hkeys. apply (Hkeys (u, c) Hin). }
  destruct (Hmap u Hu) as (i & Hget & _ & Hsel).
  destruct (CrawledFacts.crawled_text_lands utcnow results s1 u c i
              Hs1 Hnd Hne Hin Hsucc Hget)
    as (s2' & E2' & Hsome & Hrows).
  rewrite E2 in E2'. injection E2' as <-.
  exists i. split; [|split; [exact Hsome | exact Hrows]].
  unfold select_id_by_url in *. rewrite Ha2. exact Hsel.
Qed.

Lemma cmd_ingest_attaches_crawled_pages_witness :
  exists s' index',
    cmd_ingest (fun _ => "t") nat VectorStore.toy_encode sort_scan "ai"
      Samples.sample_results fresh [] = Done (s', index') /\
    forall u c, In (u, c) (Cli.crawled_content Samples.sample_results) ->
      success c = true ->
      exists i,
        select_id_by_url u (db s') = Some i /\
        content_of i (db s') <> [] /\
        forall row, In row (content_of i (db s')) ->
          c_url row = Some u /\
          c_markdown_content row
            = Some (or_empty (markdown_content c)) /\
          c_word_count row = Some (Runs.or_0 (word_count c)).
Proof.
  apply (cmd_ingest_attaches_crawled_pages (fun _ => "t") nat
           VectorStore.toy_encode sort_scan "ai" Samples.sample_results
           fresh []).
  - exact IngestMore.consistent_fresh.
  - exact IngestMore.sample_resolves.
  - vm_compute. repeat constructor; intros [].
  - vm_compute. repeat constructor.
Defined.

End CrawlUrlFacts.

(* ================================================================== *)
(** ** Cleaning crawled markdown *)
(* ================================================================== *)

Module CleanFacts.
Import Preprocess PyStr ContentProcessor.
Local Open Scope list_scope.

Local Abbreviation nl := (ascii_of_nat 10).

Lemma concat_cons (sep x : string) (xs : list string) :
  xs <> [] -> String.concat sep (x :: xs) = (x ++ sep ++ String.concat sep xs)%string.
Proof. destruct xs; [congruence | reflexivity]. Qed.

Lemma split_on_some (sep : ascii) (s : string) : split_on sep s <> [].
Proof.
  induction s as [|c s IH]; simpl; [discriminate|].
  destruct (Ascii.eqb c sep); [discriminate|].
  destruct (split_on sep s); discriminate.
Qed.

(** Joining the pieces gives the text back. *)
Lemma join_split (sep : ascii) (s : string) :
  String.concat (String sep "") (split_on sep s) = s.
Proof.
  induction s as [|c s IH]; [reflexivity|].
  cbn [split_on]. destruct (Ascii.eqb_spec c sep) as [->|Hc].
  - rewrite concat_cons by apply split_on_some. rewrite IH. reflexivity.
  - pose proof (split_on_some sep s) as Hne.
    destruct (split_on sep s) as [|w ws]; [congruence|].
    destruct ws as [|w' ws].
    + simpl in *. congruence.
    + rewrite <- IH. rewrite !concat_cons by discriminate. reflexivity.
Qed.

Local Abbreviation free := PyStr.free.

Lemma split_pieces_free (sep : ascii) (s : string) :
  Forall (free sep) (split_on sep s).
Proof.
  induction s as [|c s IH]; simpl.
  - constructor; [intros [] | constructor].
  - destruct (Ascii.eqb_spec c sep) as [->|Hc].
    + constructor; [intros [] | exact IH].
    + destruct (split_on sep s) as [|w ws].
      * constructor; [|constructor]. intros [H|[]]. congruence.
      * inversion IH as [|? ? Hw Hws]; subst.
        constructor; [|exact Hws].
        intros [H|H]; [congruence | exact (Hw H)].
Qed.

Lemma split_free (sep : ascii) (w : string) :
  free sep w -> split_on sep w = [w].
Proof.
  induction w as [|c w IH]; intros Hf; [reflexivity|].
  cbn [split_on]. destruct (Ascii.eqb_spec c sep) as [->|Hc].
  - exfalso. apply Hf. left. reflexivity.
  - rewrite IH; [reflexivity|]. intros H. apply Hf. right. exact H.
Qed.

Lemma split_app (sep : ascii) (w rest : string) :
  free sep w ->
  split_on sep (w ++ String sep rest) = w :: split_on sep rest.
Proof.
  induction w as [|c w IH]; intros Hf.
  - simpl. rewrite Ascii.eqb_refl. reflexivity.
  - change ((String c w ++ String sep rest)%string)
      with (String c (w ++ String sep rest)).
    cbn [split_on]. destruct (Ascii.eqb_spec c sep) as [->|Hc].
    + exfalso. apply Hf. left. reflexivity.
    + rewrite IH; [reflexivity|]. intros H. apply Hf. right. exact H.
Qed.

(** Splitting a join of separator-free pieces gives the pieces back. *)
Lemma split_join (sep : ascii) (ls : list string) :
  ls <> [] -> Forall (free sep) ls ->
  split_on sep (String.concat (String sep "") ls) = ls.
Proof.
  induction ls as [|w ls IH]; intros Hne Hf; [congruence|].
  inversion Hf as [|? ? Hw Hls]; subst.
  destruct ls as [|w' ls].
  - simpl. apply split_free, Hw.
  - rewrite concat_cons by discriminate.
    change ((w ++ String sep "" ++ String.concat (String sep "") (w' :: ls))%string)
      with ((w ++ String sep (String.concat (String sep "") (w' :: ls)))%string).
    rewrite split_app by exact Hw.
    rewrite IH; [reflexivity | discriminate | exact Hls].
Qed.

Lemma filter_again {A} (p : A -> bool) (l : list A) :
  filter p (filter p l) = filter p l.
Proof.
  induction l as [|x l IH]; [reflexivity|].
  simpl. destruct (p x) eqn:E; simpl; rewrite ?E, IH; reflexivity.
Qed.

Lemma filter_all {A} (p : A -> bool) (l : list A) :
  (forall x, In x l -> p x = true) -> filter p l = l.
Proof.
  induction l as [|x l IH]; intros H; [reflexivity|].
  simpl. rewrite (H x (or_introl eq_refl)). f_equal.
  apply IH. intros y Hy. apply H. right. exact Hy.
Qed.

(** The lines of a cleaned text are the kept lines, or one empty line
    when nothing was kept. *)
Lemma lines_of_clean (text : string) :
  let kept := filter (fun line => negb (dropped line)) (split_on nl text) in
  split_on nl (_clean_markdown_content text) =
  match kept with [] => [EmptyString] | _ => kept end.
Proof.
  cbv zeta. unfold _clean_markdown_content, join, LF.
  destruct (filter _ (split_on nl text)) as [|w ws] eqn:Hk; [reflexivity|].
  apply split_join; [discriminate|].
  rewrite <- Hk. apply incl_Forall with (l1 := split_on nl text).
  - intros x Hx. apply filter_In in Hx. tauto.
  - apply split_pieces_free.
Qed.

(** X20: [_clean_markdown_content] is a line filter that settles in one
    pass: cleaning a cleaned text changes nothing, no line of the result
    is one the three tests would drop, and a text none of whose lines is
    dropped comes back unchanged, character for character. *)
Theorem clean_markdown_settles (text : string) :
  _clean_markdown_content (_clean_markdown_content text) =
    _clean_markdown_content text /\
  (forall line, In line (split_on nl (_clean_markdown_content text)) ->
     dropped line = false) /\
  ((forall line, In line (split_on nl text) -> dropped line = false) ->
   _clean_markdown_content text = text).
Proof.
  pose proof (lines_of_clean text) as Hlines. cbv zeta in Hlines.
  split; [|split].
  - unfold _clean_markdown_content at 1. rewrite Hlines.
    unfold _clean_markdown_content.
    destruct (filter _ (split_on nl text)) as [|w ws] eqn:Hk;
      [reflexivity|].
    rewrite <- Hk, filter_again. reflexivity.
  - intros line Hin. rewrite Hlines in Hin.
    destruct (filter _ (split_on nl text)) as [|w ws] eqn:Hk.
    + destruct Hin as [<-|[]]. reflexivity.
    + rewrite <- Hk in Hin. apply filter_In in Hin as [_ H].
      apply negb_true_iff. exact H.
  - intros Hall. unfold _clean_markdown_content.
    rewrite filter_all.
    + unfold join, LF. apply join_split.
    + intros x Hx. rewrite (Hall x Hx). reflexivity.
Qed.

Lemma clean_markdown_settles_witness :
  _clean_markdown_content plain_page = plain_page.
Proof.
  apply (proj2 (proj2 (clean_markdown_settles plain_page))).
  intros line Hin. vm_compute in Hin.
  destruct Hin as [<-|[<-|[]]]; reflexivity.
Defined.

End CleanFacts.

(* ================================================================== *)
(** ** Topic matching in the scrapers *)
(* ================================================================== *)

Module ScraperFacts.
Import Preprocess PyStr Scrapers.
Local Open Scope list_scope.

Lemma lstrip_blank_words (s : string) :
  lstrip s = EmptyString -> split_words (lower s) = (EmptyString, []).
Proof.
  induction s as [|c s IH]; [reflexivity|].
  cbn [lstrip lower split_words].
  destruct (is_space c) eqn:Hc; [|discriminate].
  intros H. rewrite (IH H), PyStrFacts.lower_char_space, Hc. reflexivity.
Qed.

Lemma strip_blank (s : string) : strip s = EmptyString -> lstrip s = EmptyString.
Proof.
  unfold strip. destruct (lstrip s) as [|c rest] eqn:Hl; [reflexivity|].
  pose proof (StripFacts.lstrip_tight s c rest Hl) as Hc.
  destruct (StripFacts.rstrip_keeps_head c rest Hc) as [t ->].
  discriminate.
Qed.

Lemma any_app_text (keywords : list string) (a b : string) :
  any (fun k => contains k a) keywords = true \/
  any (fun k => contains k b) keywords = true ->
  any (fun k => contains k (a ++ b)%string) keywords = true.
Proof.
  unfold any. intros [H|H]; apply existsb_exists in H as (k & Hk & Hc);
    apply existsb_exists; exists k; (split; [exact Hk|]).
  - apply PyStrFacts.contains_app_l, Hc.
  - apply PyStrFacts.contains_app_r, Hc.
Qed.

(** X21: [_matches_topic], which both scrapers use to keep a record: a
    topic with no word in it (empty or blank) matches no text at all;
    letter case plays no part on either side; and a topic that matches
    the title or the description matches the search text built as title,
    space, description. *)
Theorem matches_topic_is_case_blind_keyword_search
    (topic title description : string) :
  (strip topic = EmptyString ->
   forall text, _matches_topic topic text = false) /\
  _matches_topic topic title =
    _matches_topic (lower topic) (lower title) /\
  (_matches_topic topic title = true \/
   _matches_topic topic description = true ->
   _matches_topic topic (title ++ " " ++ description)%string = true).
Proof.
  split; [|split].
  - intros Hblank text. unfold _matches_topic, split.
    rewrite (lstrip_blank_words topic (strip_blank topic Hblank)).
    reflexivity.
  - unfold _matches_topic. rewrite !PyStrFacts.lower_idempotent.
    reflexivity.
  - unfold _matches_topic. rewrite !PyStrFacts.lower_app.
    intros [H|H]; apply any_app_text.
    + left. exact H.
    + right. apply any_app_text. right. exact H.
Qed.

Lemma matches_topic_is_case_blind_keyword_search_witness :
  _matches_topic "AI safety" ("Notes on Safety" ++ " " ++ "") = true.
Proof.
  apply (proj2 (proj2 (matches_topic_is_case_blind_keyword_search
                         "AI safety" "Notes on Safety" ""))).
  left. reflexivity.
Defined.





End ScraperFacts.

(* ================================================================== *)
(** ** File names *)
(* ================================================================== *)

Module FileFacts.
Import Py Preprocess PyStr FileManager.
Local Open Scope list_scope.

Local Abbreviation chars := list_ascii_of_string.

Lemma word_not_separator (c : ascii) :
  is_word c = true -> is_separator c = false /\ is_space c = false.
Proof.
  destruct c as [[] [] [] [] [] [] [] []]; vm_compute; intros H;
    (discriminate H || (split; reflexivity)).
Qed.

Lemma passes_not_separator (c : ascii) :
  passes c -> is_separator c = false -> is_word c = true.
Proof.
  unfold passes, is_separator. intros Hp Hs.
  apply orb_false_iff in Hs as [Hh Hsp]. rewrite Hh, Hsp in Hp.
  rewrite !orb_false_r in Hp. exact Hp.
Qed.

Lemma drop_specials_passes (s : string) :
  Forall passes (chars (drop_specials s)).
Proof.
  induction s as [|c s IH]; simpl; [constructor|].
  destruct (is_word c || is_space c || Ascii.eqb c "-") eqn:E;
    [constructor; assumption | exact IH].
Qed.

Lemma lstrip_keeps (P : ascii -> Prop) (s : string) :
  Forall P (chars s) -> Forall P (chars (lstrip s)).
Proof.
  induction s as [|c s IH]; simpl; intros H; [constructor|].
  inversion H; subst. destruct (is_space c); [auto | constructor; auto].
Qed.

Lemma rstrip_keeps (P : ascii -> Prop) (s : string) :
  Forall P (chars s) -> Forall P (chars (rstrip s)).
Proof.
  induction s as [|c s IH]; intros H; [constructor|].
  simpl in H. inversion H as [|? ? Hc Hs]; subst.
  rewrite StripFacts.rstrip_cons. specialize (IH Hs).
  destruct (rstrip s) as [|d t].
  - destruct (is_space c); simpl; [constructor | repeat constructor; auto].
  - simpl. constructor; assumption.
Qed.

Lemma underscore_runs_word (b : bool) (s : string) :
  Forall passes (chars s) -> all_word (underscore_runs b s).
Proof.
  unfold all_word. revert b.
  induction s as [|c s IH]; intros b H; simpl; [constructor|].
  inversion H as [|? ? Hc Hs]; subst.
  destruct (is_separator c) eqn:E.
  - destruct b; [apply IH, Hs|]. simpl. constructor; [reflexivity|].
    apply IH, Hs.
  - simpl. constructor; [apply passes_not_separator; assumption|].
    apply IH, Hs.
Qed.

Lemma append_assoc (a b c : string) :
  ((a ++ b) ++ c = a ++ (b ++ c))%string.
Proof.
  induction a as [|x a IH]; simpl; [reflexivity | rewrite IH; reflexivity].
Qed.

Lemma all_word_app (a b : string) :
  all_word a -> all_word b -> all_word (a ++ b).
Proof.
  unfold all_word. induction a as [|c a IH]; simpl; intros Ha Hb;
    [exact Hb|].
  inversion Ha; subst. constructor; auto.
Qed.

(** The three passes leave a string of word characters as it is. *)
Lemma drop_specials_word (s : string) : all_word s -> drop_specials s = s.
Proof.
  unfold all_word. induction s as [|c s IH]; simpl; intros H;
    [reflexivity|].
  inversion H as [|? ? Hc Hs]; subst. rewrite Hc. simpl.
  rewrite (IH Hs). reflexivity.
Qed.

Lemma rstrip_word (s : string) : all_word s -> rstrip s = s.
Proof.
  unfold all_word. induction s as [|c s IH]; intros H; [reflexivity|].
  simpl in H. inversion H as [|? ? Hc Hs]; subst.
  rewrite StripFacts.rstrip_cons, (IH Hs).
  destruct (word_not_separator c Hc) as [_ Hsp]. rewrite Hsp.
  destruct s; reflexivity.
Qed.

Lemma strip_word (s : string) : all_word s -> strip s = s.
Proof.
  intros H. unfold strip.
  assert (Hl : lstrip s = s).
  { destruct s as [|c s]; [reflexivity|]. simpl.
    unfold all_word in H. simpl in H. inversion H as [|? ? Hc _]; subst.
    destruct (word_not_separator c Hc) as [_ ->]. reflexivity. }
  rewrite Hl. apply rstrip_word, H.
Qed.

Lemma underscore_runs_id (s : string) :
  all_word s -> underscore_runs false s = s.
Proof.
  unfold all_word. induction s as [|c s IH]; simpl; intros H;
    [reflexivity|].
  inversion H as [|? ? Hc Hs]; subst.
  destruct (word_not_separator c Hc) as [-> _]. rewrite (IH Hs).
  reflexivity.
Qed.

Lemma topic_clean_word (topic : string) : all_word (topic_clean topic).
Proof.
  unfold topic_clean. apply underscore_runs_word.
  unfold strip. apply rstrip_keeps, lstrip_keeps, drop_specials_passes.
Qed.

(** X23: the topic part of the generated file names is made of word
    characters only (letters, digits, underscore), so it holds no path
    separator, dot, blank or hyphen whatever the topic is; cleaning is
    idempotent; and with the timestamp of [strftime] the default name of
    [save_results] is a word-character stem followed by ".json", that of
    [export_to_markdown] one followed by ".md". A file name the caller
    passes is used as it is. *)
Theorem generated_file_names_are_plain (timestamp topic : string) :
  all_word (topic_clean topic) /\
  topic_clean (topic_clean topic) = topic_clean topic /\
  (all_word timestamp ->
   (exists stem,
      results_filename timestamp topic None = (stem ++ ".json")%string /\
      all_word stem) /\
   (exists stem,
      report_filename timestamp topic None = (stem ++ ".md")%string /\
      all_word stem)) /\
  (forall name, name <> EmptyString ->
     results_filename timestamp topic (Some name) = name /\
     report_filename timestamp topic (Some name) = name).
Proof.
  pose proof (topic_clean_word topic) as Hw.
  split; [exact Hw|]. split; [|split].
  - unfold topic_clean at 1.
    rewrite (drop_specials_word _ Hw), (strip_word _ Hw).
    apply underscore_runs_id, Hw.
  - intros Hts. split.
    + exists ("research_" ++ topic_clean topic ++ "_" ++ timestamp)%string.
      split.
      * unfold results_filename. simpl.
        rewrite !append_assoc. reflexivity.
      * apply (all_word_app "research_"); [repeat constructor|].
        apply all_word_app; [exact Hw|].
        apply (all_word_app "_"); [repeat constructor | exact Hts].
    + exists ("research_report_" ++ topic_clean topic ++ "_"
              ++ timestamp)%string.
      split.
      * unfold report_filename. simpl.
        rewrite !append_assoc. reflexivity.
      * apply (all_word_app "research_report_"); [repeat constructor|].
        apply all_word_app; [exact Hw|].
        apply (all_word_app "_"); [repeat constructor | exact Hts].
  - intros name Hne. unfold results_filename, report_filename. simpl.
    destruct (String.eqb_spec name ""); [contradiction|]. auto.
Qed.

Lemma generated_file_names_are_plain_witness :
  (exists stem,
     results_filename "20240501_101500" "../a b" None
       = (stem ++ ".json")%string /\ all_word stem) /\
  (exists stem,
     report_filename "20240501_101500" "../a b" None
       = (stem ++ ".md")%string /\ all_word stem).
Proof.
  apply (proj1 (proj2 (proj2 (generated_file_names_are_plain
                                "20240501_101500" "../a b")))).
  repeat constructor.
Defined.

End FileFacts.
